(** * Turbine build-execution core: a shallow embedding of the Go sources

    The development follows the package layout of the repository:

    - [builds]   : the data model carried between the phases of a build;
    - [event]    : the event envelope ([event/message.go]) and the
                   websocket emitter ([event/emitter.go]);
    - [resource] : [Resource.Out] and [streamInSource];
    - [outputs]  : the parallel output performer;
    - [builder]  : [Start], [Attach], [Complete] and their helpers
                   ([builder/builder.go]);
    - [prole]    : [Build], the builder of the earlier model.

    Calls that leave the process (container runtime, resource scripts,
    websocket transport) are answered by oracles over an abstract world that
    is threaded explicitly; every such call is appended to a log of calls, so
    that the order of effects can be stated.  Goroutines are modelled by
    per-task oracles together with an explicit arrival order on each
    channel. *)

From Stdlib Require Import ZArith List String Lia Permutation.
From stdpp Require Import base option list gmap strings fin_maps pretty.

Open Scope string_scope.
Open Scope list_scope.

(** ** Go values shared by all packages *)

(** A Go [error] value.  [ErrAborted] is the sentinel declared in
    [builder/builder.go]; every other error is identified by its message. *)
Inductive error : Type :=
| ErrAborted
| errorString (msg : string).

#[global] Instance error_eq_dec : EqDecision error.
Proof. solve_decision. Defined.

Definition error_Error (e : error) : string :=
  match e with
  | ErrAborted => "build aborted"
  | errorString msg => msg
  end.

(** [io.Reader] carrying a tar stream: identified by its contents. *)
Abbreviation Stream := string.

(** ** A state monad threading the outside world and the log of calls *)

Section StateMonad.
Context {S : Type}.

Definition M (A : Type) : Type := S -> A * S.

Definition ret {A} (a : A) : M A := fun s => (a, s).

Definition bind {A B} (m : M A) (k : A -> M B) : M B :=
  fun s => let r := m s in k (fst r) (snd r).
End StateMonad.

Arguments M : clear implicits.

Notation "'let*' x := m 'in' k" := (bind m (fun x => k))
  (at level 10, x name, m at level 100, k at level 200, only parsing).
Notation "'do' m 'then' k" := (bind m (fun _ => k))
  (at level 10, m at level 100, k at level 200, only parsing).

(** ** Package [builds]: the data model *)

Module builds.

(** [builds.Version], [builds.Source] and [builds.Params] are Go maps from
    strings; they are written [gmap string string] throughout. *)

Record MetadataField : Type := mkMetadataField {
  Name : string;
  Value : string
}.

#[global] Instance MetadataField_eq_dec : EqDecision MetadataField.
Proof. solve_decision. Defined.

Inductive OutputCondition : Type :=
| OutputConditionSuccess
| OutputConditionFailure.

#[global] Instance OutputCondition_eq_dec : EqDecision OutputCondition.
Proof. solve_decision. Defined.

(** Modelled from the spec: the declaration of [builds.Input] is not among
    the sources.  [builder.go] reads [Name], [Type], [Source], [Version]
    and [Metadata]; [Params] is the remaining field of the data model. *)
Module Input.
Record t : Type := mk {
  Name : string;
  Type_ : string;
  Source : gmap string string;
  Params : gmap string string;
  Version : gmap string string;
  Metadata : list MetadataField
}.
End Input.

(** Modelled from the spec: the declaration of [builds.Output] is not among
    the sources.  The fields are those the sources read or write ([Name],
    [Type], [Source], [Params], [SourcePath], [Version], [Metadata])
    together with the condition set [On] of the data model. *)
Module Output.
Record t : Type := mk {
  Name : string;
  Type_ : string;
  Source : gmap string string;
  Params : gmap string string;
  SourcePath : string;
  On : list OutputCondition;
  Version : gmap string string;
  Metadata : list MetadataField
}.

(** The Go zero value [builds.Output{}]. *)
Definition zero : t := mk "" "" ∅ ∅ "" [] ∅ [].

Definition with_Version (v : gmap string string) (o : t) : t :=
  mk (Name o) (Type_ o) (Source o) (Params o) (SourcePath o) (On o)
     v (Metadata o).

Definition with_Metadata (md : list MetadataField) (o : t) : t :=
  mk (Name o) (Type_ o) (Source o) (Params o) (SourcePath o) (On o)
     (Version o) md.
End Output.

#[global] Instance Input_eq_dec : EqDecision Input.t.
Proof. solve_decision. Defined.

#[global] Instance Output_eq_dec : EqDecision Output.t.
Proof. solve_decision. Defined.

Record RunConfig : Type := mkRunConfig {
  Path : string;
  Args : list string
}.

(** Modelled from the spec: the declaration of [builds.Config] is not among
    the sources; these are the fields [builder.go] reads. *)
Record Config : Type := mkConfig {
  Image : string;
  ConfigParams : gmap string string;
  Run : RunConfig;
  Paths : gmap string string
}.

(** Modelled from the spec: [api/builds/build.go] under the sources declares
    the build of an earlier model (image, script, one source).  These are
    the fields [builder.go] reads and writes, with [Guid] of the data
    model. *)
Record Build : Type := mkBuild {
  Guid : string;
  Privileged : bool;
  BuildConfig : Config;
  Inputs : list Input.t;
  Outputs : list Output.t;
  EventsCallback : string
}.

Definition Build_zero : Build :=
  mkBuild "" false (mkConfig "" ∅ (mkRunConfig "" []) ∅) [] [] "".

Definition with_Inputs (ins : list Input.t) (b : Build) : Build :=
  mkBuild (Guid b) (Privileged b) (BuildConfig b) ins (Outputs b)
          (EventsCallback b).

Definition with_Config (c : Config) (b : Build) : Build :=
  mkBuild (Guid b) (Privileged b) c (Inputs b) (Outputs b)
          (EventsCallback b).

Definition with_Outputs (outs : list Output.t) (b : Build) : Build :=
  mkBuild (Guid b) (Privileged b) (BuildConfig b) (Inputs b) outs
          (EventsCallback b).

End builds.

Import builds.

(** ** Package [event]: events, the envelope and the websocket emitter *)

Module event.

Inductive OriginType : Type :=
| OriginTypeInput
| OriginTypeOutput
| OriginTypeRun.

Record Origin : Type := mkOrigin {
  OriginType_ : OriginType;
  OriginName : string
}.

(** Modelled from the spec: the declarations of the event structs and of
    the [EventType] constants are not among the sources.  The kinds are
    those the sources construct or decode ([Log], [Status], [Initialize],
    [Start], [Error], [Output]) and the remaining two of the event model
    ([Finish], [Input]). *)
Inductive Event : Type :=
| Log (Payload : string) (origin : Origin)
| Status (status : string)
| Initialize (buildConfig : Config)
| Start (Time : Z)
| Finish (Time : Z) (ExitStatus : Z)
| Error (Message : string)
| Input (input : Input.t)
| Output (output : Output.t).

Inductive EventType : Type :=
| EventTypeLog
| EventTypeStatus
| EventTypeInitialize
| EventTypeStart
| EventTypeFinish
| EventTypeError
| EventTypeInput
| EventTypeOutput.

#[global] Instance EventType_eq_dec : EqDecision EventType.
Proof. solve_decision. Defined.

(** The method [EventType()] of each event struct. *)
Definition Event_EventType (e : Event) : EventType :=
  match e with
  | Log _ _ => EventTypeLog
  | Status _ => EventTypeStatus
  | Initialize _ => EventTypeInitialize
  | Start _ => EventTypeStart
  | Finish _ _ => EventTypeFinish
  | Error _ => EventTypeError
  | Input _ => EventTypeInput
  | Output _ => EventTypeOutput
  end.

(** *** [event/message.go] *)

(** [Event] is an interface: the zero [Message] holds no event. *)
Record Message : Type := mkMessage {
  Message_Event : option Event
}.

Record eventEnvelope (RawMessage : Type) : Type := mkEnvelope {
  Type_ : EventType;
  EventPayload : RawMessage
}.

Arguments mkEnvelope {RawMessage}.
Arguments Type_ {RawMessage}.
Arguments EventPayload {RawMessage}.

(** [encoding/json], as far as [message.go] uses it: marshalling of an
    event struct and of the envelope, unmarshalling of the envelope and of
    a payload into a [Log{}] or a [Status{}], and the number a tag prints
    as under [%d].  The one law says that an envelope that was marshalled
    is read back as it was: its type is an integer and its payload is
    JSON text that [encoding/json] wrote itself.  Nothing is assumed of
    how a payload is read back. *)
Class JSON : Type := mkJSON {
  (** [json.RawMessage], the JSON text of a payload, and the bytes of a
      marshalled envelope. *)
  RawMessage : Type;
  Bytes : Type;
  Marshal_Event : Event -> error + RawMessage;
  Marshal_envelope : eventEnvelope RawMessage -> error + Bytes;
  Unmarshal_envelope : Bytes -> error + eventEnvelope RawMessage;
  (** The decoded struct is returned together with the error, as the Go
      code assigns it to [m.Event] before it returns the error. *)
  Unmarshal_Log : RawMessage -> (string * Origin) * option error;
  Unmarshal_Status : RawMessage -> string * option error;
  EventType_number : EventType -> Z;
  envelope_read_back : forall env bytes,
    Marshal_envelope env = inr bytes ->
    Unmarshal_envelope bytes = inr env
}.

Section Message.
Context `{JSON}.

(** [MarshalJSON] is only reachable with a message that holds an event:
    [m.Event.EventType()] on a nil interface panics; a panic is [None]. *)
Definition MarshalJSON (m : Message) : option (error + Bytes) :=
  match Message_Event m with
  | None => None
  | Some ev =>
      match Marshal_Event ev with
      | inl err => Some (inl err)
      | inr payload =>
          let envelope := mkEnvelope (Event_EventType ev) payload in
          Some (Marshal_envelope envelope)
      end
  end.

(** [UnmarshalJSON] writes through its receiver: the message after the
    call is returned next to the error. *)
Definition UnmarshalJSON (m : Message) (bytes : Bytes)
  : Message * option error :=
  match Unmarshal_envelope bytes with
  | inl err => (m, Some err)
  | inr envelope =>
      match Type_ envelope with
      | EventTypeLog =>
          let r := Unmarshal_Log (EventPayload envelope) in
          (mkMessage (Some (Log (fst (fst r)) (snd (fst r)))), snd r)
      | EventTypeStatus =>
          let r := Unmarshal_Status (EventPayload envelope) in
          (mkMessage (Some (Status (fst r))), snd r)
      | t =>
          (m, Some (errorString
                      ("unknown event type: " +:+
                         pretty (EventType_number t))))
      end
  end.

(** The kinds [UnmarshalJSON] has a case for. *)
Definition decodable (ev : Event) : bool :=
  match ev with
  | Log _ _ | Status _ => true
  | _ => false
  end.

(** C5 as stated: decoding what [MarshalJSON] wrote for [ev] gives the
    message back, without error. *)
Definition reads_back (ev : Event) (bytes : Bytes) : Prop :=
  UnmarshalJSON (mkMessage None) bytes = (mkMessage (Some ev), None).

(** C5 fails on the code for every kind but [Log] and [Status]: what
    [MarshalJSON] wrote for such an event, [UnmarshalJSON] refuses at
    its [default] case with "unknown event type", and it leaves the
    message as it was. *)
Theorem UnmarshalJSON_refuses_other_kinds
    (ev : Event) (m0 : Message) (bytes : Bytes) :
  decodable ev = false ->
  MarshalJSON (mkMessage (Some ev)) = Some (inr bytes) ->
  UnmarshalJSON m0 bytes =
    (m0, Some (errorString
                 ("unknown event type: " +:+
                    pretty (EventType_number (Event_EventType ev)))))
  /\ ~ reads_back ev bytes.
Proof.
  unfold reads_back, MarshalJSON, UnmarshalJSON; cbn.
  destruct (Marshal_Event ev) as [err|payload] eqn:Hp; [discriminate|].
  intros Hd [= Henv]. rewrite (envelope_read_back _ _ Henv); cbn.
  destruct ev; try discriminate; (split; [reflexivity|discriminate]).
Qed.
End Message.

(** *** What a decoded message holds *)

Section Decoding.
Context `{JSON}.

(** X1: when [UnmarshalJSON] returns a nil error, the bytes held a
    readable envelope, the message now holds a [Log] or a [Status], of
    the kind the envelope's type names, and what the receiver held before
    the call has no part in the result. *)
Theorem UnmarshalJSON_nil_error_holds_Log_or_Status
    (m0 m : Message) (bytes : Bytes) :
  UnmarshalJSON m0 bytes = (m, None) ->
  exists envelope ev,
    Unmarshal_envelope bytes = inr envelope /\
    m = mkMessage (Some ev) /\
    decodable ev = true /\
    Event_EventType ev = Type_ envelope /\
    forall m1, UnmarshalJSON m1 bytes = (m, None).
Proof.
  unfold UnmarshalJSON.
  destruct (Unmarshal_envelope bytes) as [err|envelope]; [discriminate|].
  destruct (Type_ envelope) eqn:Htype; try discriminate; cbn.
  - destruct (Unmarshal_Log (EventPayload envelope)) as [[p o] err]; cbn.
    intros [= <- ->]. exists envelope, (Log p o). rewrite Htype. auto.
  - destruct (Unmarshal_Status (EventPayload envelope)) as [s err]; cbn.
    intros [= <- ->]. exists envelope, (Status s). rewrite Htype. auto.
Qed.

End Decoding.

(** A codec that keeps the event as its own payload and the envelope as
    its own bytes; tags are numbered in the order of their declaration. *)
Definition plain_Unmarshal_Log (raw : Event)
  : (string * Origin) * option error :=
  match raw with
  | Log p o => ((p, o), None)
  | _ => (("", mkOrigin OriginTypeRun ""),
          Some (errorString "json: cannot unmarshal"))
  end.

Definition plain_Unmarshal_Status (raw : Event) : string * option error :=
  match raw with
  | Status s => (s, None)
  | _ => ("", Some (errorString "json: cannot unmarshal"))
  end.

Definition plain_EventType_number (t : EventType) : Z :=
  match t with
  | EventTypeLog => 0
  | EventTypeStatus => 1
  | EventTypeInitialize => 2
  | EventTypeStart => 3
  | EventTypeFinish => 4
  | EventTypeError => 5
  | EventTypeInput => 6
  | EventTypeOutput => 7
  end.

#[local] Instance plain_JSON : JSON.
Proof.
  refine (mkJSON Event (eventEnvelope Event)
            (fun ev => inr ev) (fun envelope => inr envelope)
            (fun bytes => inr bytes)
            plain_Unmarshal_Log plain_Unmarshal_Status
            plain_EventType_number _).
  intros envelope bytes [= <-]. reflexivity.
Defined.

Definition some_config : Config :=
  mkConfig "some-rootfs" ∅ (mkRunConfig "./bin/test" []) ∅.

(** What [MarshalJSON] writes, under that codec, for an [Initialize]. *)
Definition initialize_bytes : @Bytes plain_JSON :=
  mkEnvelope EventTypeInitialize (Initialize some_config).

Lemma UnmarshalJSON_refuses_other_kinds_witness :
  UnmarshalJSON (mkMessage None) initialize_bytes
    = (mkMessage None, Some (errorString "unknown event type: 2"))
  /\ ~ reads_back (Initialize some_config) initialize_bytes.
Proof.
  apply (UnmarshalJSON_refuses_other_kinds
           (Initialize some_config) (mkMessage None) initialize_bytes).
  - reflexivity.
  - reflexivity.
Defined.

(** What [MarshalJSON] writes, under that codec, for a [Log]. *)
Definition log_bytes : @Bytes plain_JSON :=
  mkEnvelope EventTypeLog (Log "sup" (mkOrigin OriginTypeRun "stdout")).

Lemma UnmarshalJSON_nil_error_holds_Log_or_Status_witness :
  exists envelope ev,
    Unmarshal_envelope log_bytes = inr envelope /\
    mkMessage (Some (Log "sup" (mkOrigin OriginTypeRun "stdout")))
      = mkMessage (Some ev) /\
    decodable ev = true /\
    Event_EventType ev = Type_ envelope /\
    forall m1,
      UnmarshalJSON m1 log_bytes
        = (mkMessage (Some (Log "sup" (mkOrigin OriginTypeRun "stdout"))),
           None).
Proof.
  apply (UnmarshalJSON_nil_error_holds_Log_or_Status
           (mkMessage (Some (Status "old"))) _ log_bytes).
  reflexivity.
Defined.

(** *** [event/emitter.go] *)

Record Conn : Type := mkConn { conn_id : nat }.

(** [time.Second], a [time.Duration] in nanoseconds. *)
Definition Second : Z := 1000000000.

(** Calls on the transport and the clock, each with what it returned. *)
Inductive Call : Type :=
| Dial (url : string) (r : error + Conn)
| WriteJSON (c : Conn) (m : Message) (r : option error)
| ConnClose (c : Conn) (r : option error)
| Sleep (d : Z).

(** The fields of [websocketEmitter] that change or are read; the mutex
    [connL] guards [conn] and has no effect on a single caller. *)
Record websocketEmitter : Type := mkEmitter {
  logURL : string;
  conn : option Conn
}.

Definition set_conn (c : option Conn) (e : websocketEmitter) :=
  mkEmitter (logURL e) c.

(** What running a loop for a bounded number of turns can end in. *)
Inductive outcome (A : Type) : Type :=
| Returned (a : A)
| Panicked
| OutOfFuel.

Arguments Returned {A}.
Arguments Panicked {A}.
Arguments OutOfFuel {A}.

Definition is_pause (c : Call) : bool :=
  match c with
  | Sleep d => Z.eqb d Second
  | _ => false
  end.

(** Number of one-second pauses in a log of calls. *)
Fixpoint pauses (tr : list Call) : nat :=
  match tr with
  | [] => 0
  | c :: tr => (if is_pause c then 1 else 0) + pauses tr
  end.

Section Emitter.
Context {W : Type}.

Record Transport : Type := mkTransport {
  dialer_Dial : string -> W -> (error + Conn) * W;
  conn_WriteJSON : Conn -> Message -> W -> option error * W;
  conn_Close : Conn -> W -> option error * W;
  time_Sleep : Z -> W -> W
}.

Record State : Type := mkState {
  world : W;
  calls : list Call
}.

(** Ask the world, and log the call with its answer. *)
Definition perform {A} (oracle : W -> A * W) (log : A -> Call)
  : M State A :=
  fun st =>
    let r := oracle (world st) in
    (fst r, mkState (snd r) (calls st ++ [log (fst r)])).

Variable T : Transport.

Definition sleep (d : Z) : M State unit :=
  fun st => (tt, mkState (time_Sleep T d (world st))
                         (calls st ++ [Sleep d])).

(** The [for] loop of [connect], for at most [fuel] turns. *)
Fixpoint dial_loop (fuel : nat) (e : websocketEmitter)
  : M State (outcome websocketEmitter) :=
  match fuel with
  | O => ret OutOfFuel
  | S fuel' =>
      let* r := perform (dialer_Dial T (logURL e)) (Dial (logURL e)) in
      match r with
      | inr c => ret (Returned (set_conn (Some c) e))
      | inl _ =>
          do sleep Second then dial_loop fuel' (set_conn None e)
      end
  end.

Definition connect (fuel : nat) (e : websocketEmitter)
  : M State (outcome websocketEmitter) :=
  match conn e with
  | Some _ => ret (Returned e)
  | None => dial_loop fuel e
  end.

Definition close (e : websocketEmitter)
  : M State (websocketEmitter * option error) :=
  match conn e with
  | Some c =>
      let* r := perform (conn_Close T c) (ConnClose c) in
      ret (set_conn None e, r)
  | None => ret (e, None)
  end.

(** [EmitEvent]: the emitter after the call and the returned error.
    Writing through a nil [e.conn] would panic. *)
Fixpoint EmitEvent (fuel : nat) (e : websocketEmitter) (ev : Event)
  : M State (outcome (websocketEmitter * option error)) :=
  match fuel with
  | O => ret OutOfFuel
  | S fuel' =>
      let* r := connect fuel e in
      match r with
      | Returned e =>
          match conn e with
          | None => ret Panicked
          | Some c =>
              let* err :=
                perform (conn_WriteJSON T c (mkMessage (Some ev)))
                        (WriteJSON c (mkMessage (Some ev))) in
              match err with
              | None => ret (Returned (e, None))
              | Some _ =>
                  let* r := close e in
                  do sleep Second then EmitEvent fuel' (fst r) ev
              end
          end
      | Panicked => ret Panicked
      | OutOfFuel => ret OutOfFuel
      end
  end.

(** *** The calls an [EmitEvent] makes *)

(** Failed dials, each followed by a pause of one second. *)
Inductive dial_retries (url : string) : list Call -> Prop :=
| dial_retries_nil : dial_retries url []
| dial_retries_cons err tr :
    dial_retries url tr ->
    dial_retries url (Dial url (inl err) :: Sleep Second :: tr).

(** The calls of a [connect] that starts with connection [c0] and ends
    with connection [c]. *)
Inductive connected (url : string)
  : option Conn -> Conn -> list Call -> Prop :=
| connected_kept c : connected url (Some c) c []
| connected_dialled c tr :
    dial_retries url tr ->
    connected url None c (tr ++ [Dial url (inr c)]).

(** The calls of an [EmitEvent] that returns: any number of rounds
    "connect, failed write, close that connection, pause one second",
    then "connect, successful write". *)
Inductive emitted (url : string) (msg : Message)
  : option Conn -> Conn -> list Call -> Prop :=
| emitted_ok c0 c tr :
    connected url c0 c tr ->
    emitted url msg c0 c (tr ++ [WriteJSON c msg None])
| emitted_retry c0 c c' tr err cerr rest :
    connected url c0 c tr ->
    emitted url msg None c' rest ->
    emitted url msg c0 c'
      (tr ++ [WriteJSON c msg (Some err); ConnClose c cerr; Sleep Second]
          ++ rest).

(** The calls of an [EmitEvent] that is still at work. *)
Inductive retrying (url : string) (msg : Message)
  : option Conn -> list Call -> Prop :=
| retrying_top c0 : retrying url msg c0 []
| retrying_dial tr : dial_retries url tr -> retrying url msg None tr
| retrying_retry c0 c tr err cerr rest :
    connected url c0 c tr ->
    retrying url msg None rest ->
    retrying url msg c0
      (tr ++ [WriteJSON c msg (Some err); ConnClose c cerr; Sleep Second]
          ++ rest).

Lemma pauses_app tr1 tr2 : pauses (tr1 ++ tr2) = pauses tr1 + pauses tr2.
Proof. induction tr1 as [|c tr1 IH]; cbn; [reflexivity | lia]. Qed.

Lemma dial_loop_spec fuel : forall e st,
  match dial_loop fuel e st with
  | (Returned e', st') =>
      exists c tr,
        e' = mkEmitter (logURL e) (Some c) /\
        calls st' = calls st ++ tr ++ [Dial (logURL e) (inr c)] /\
        dial_retries (logURL e) tr
  | (Panicked, _) => False
  | (OutOfFuel, st') =>
      exists tr,
        calls st' = calls st ++ tr /\
        dial_retries (logURL e) tr /\ pauses tr = fuel
  end.
Proof.
  induction fuel as [|fuel IH]; intros e st; cbn.
  - exists []. rewrite app_nil_r. repeat split. constructor.
  - unfold bind, perform, sleep, ret; cbn.
    destruct (dialer_Dial T (logURL e) (world st)) as [[err|c] w1]; cbn.
    + match goal with |- context [dial_loop fuel ?e1 ?s1] =>
        specialize (IH e1 s1);
        destruct (dial_loop fuel e1 s1) as [[e'| |] st'] end; cbn in *.
      * destruct IH as (c & tr & -> & Hc & Hr).
        exists c, (Dial (logURL e) (inl err) :: Sleep Second :: tr).
        split; [reflexivity|]. split; [|constructor; exact Hr].
        rewrite Hc, <- !app_assoc. reflexivity.
      * exact IH.
      * destruct IH as (tr & Hc & Hr & Hp).
        exists (Dial (logURL e) (inl err) :: Sleep Second :: tr).
        split; [rewrite Hc, <- !app_assoc; reflexivity|].
        split; [constructor; exact Hr|].
        change (pauses ([Dial (logURL e) (inl err); Sleep Second] ++ tr)
                = S fuel).
        rewrite pauses_app, Hp. reflexivity.
    + exists c, []. repeat split. constructor.
Qed.

Lemma connect_spec fuel e st :
  match connect fuel e st with
  | (Returned e', st') =>
      exists c tr,
        e' = mkEmitter (logURL e) (Some c) /\
        calls st' = calls st ++ tr /\
        connected (logURL e) (conn e) c tr
  | (Panicked, _) => False
  | (OutOfFuel, st') =>
      exists tr,
        conn e = None /\
        calls st' = calls st ++ tr /\
        dial_retries (logURL e) tr /\ pauses tr = fuel
  end.
Proof.
  unfold connect. destruct e as [url [c|]]; cbn.
  - exists c, []. rewrite app_nil_r. repeat split. constructor.
  - pose proof (dial_loop_spec fuel (mkEmitter url None) st) as Hd.
    destruct (dial_loop fuel (mkEmitter url None) st)
      as [[e'| |] st']; cbn in *.
    + destruct Hd as (c & tr & -> & Hc & Hr).
      exists c, (tr ++ [Dial url (inr c)]). repeat split; [exact Hc|].
      constructor; exact Hr.
    + exact Hd.
    + destruct Hd as (tr & Hc & Hr & Hp). exists tr. auto.
Qed.

(** C3: [EmitEvent] never hands a transport failure to its caller and
    returns only after a successful [WriteJSON] of the event's message.
    Run for [fuel] turns of its loop, it either returns a nil error, its
    calls being rounds of "connect, failed write, close of that
    connection, pause of one second" ended by "connect, successful
    write"; or it has made only such rounds, has paused one second at
    least [fuel] times, and goes on.  It never writes through a nil
    connection. *)
Theorem EmitEvent_retries_until_written fuel : forall e ev st,
  match EmitEvent fuel e ev st with
  | (Returned (e', err), st') =>
      err = None /\
      exists c tr,
        e' = mkEmitter (logURL e) (Some c) /\
        calls st' = calls st ++ tr /\
        emitted (logURL e) (mkMessage (Some ev)) (conn e) c tr
  | (Panicked, _) => False
  | (OutOfFuel, st') =>
      exists tr,
        calls st' = calls st ++ tr /\
        retrying (logURL e) (mkMessage (Some ev)) (conn e) tr /\
        fuel <= pauses tr
  end.
Proof.
  induction fuel as [|fuel IH]; intros e ev st.
  - cbn. exists []. rewrite app_nil_r. repeat split; [constructor|lia].
  - cbn [EmitEvent].
    cbv beta iota zeta delta [bind perform sleep close ret].
    pose proof (connect_spec (S fuel) e st) as Hc.
    destruct (connect (S fuel) e st) as [[e1| |] st1]; cbn [fst snd].
    + destruct Hc as (c & tr & -> & Hcalls & Hconn).
      cbn [conn fst snd world calls].
      destruct (conn_WriteJSON T c (mkMessage (Some ev)) (world st1))
        as [[err|] w2]; cbn [fst snd world calls conn].
      * destruct (conn_Close T c w2) as [cerr w3];
          cbn [fst snd world calls].
        match goal with |- context [EmitEvent fuel ?e2 ev ?s2] =>
          specialize (IH e2 ev s2);
          destruct (EmitEvent fuel e2 ev s2) as [[[e' rerr]| |] st'] end;
          cbn [logURL conn set_conn calls world] in *.
        -- destruct IH as (-> & c' & rest & -> & Hc' & Hem).
           split; [reflexivity|].
           exists c', (tr ++ [WriteJSON c (mkMessage (Some ev)) (Some err);
                              ConnClose c cerr; Sleep Second] ++ rest).
           split; [reflexivity|]. split.
           ++ rewrite Hc', Hcalls. cbn. rewrite <- !app_assoc. reflexivity.
           ++ econstructor; eassumption.
        -- exact IH.
        -- destruct IH as (rest & Hc' & Hre & Hp).
           exists (tr ++ [WriteJSON c (mkMessage (Some ev)) (Some err);
                          ConnClose c cerr; Sleep Second] ++ rest).
           split; [|split].
           ++ rewrite Hc', Hcalls. cbn. rewrite <- !app_assoc. reflexivity.
           ++ econstructor; eassumption.
           ++ rewrite !pauses_app. cbn. lia.
      * split; [reflexivity|].
        exists c, (tr ++ [WriteJSON c (mkMessage (Some ev)) None]).
        split; [reflexivity|]. split.
        -- rewrite Hcalls, <- app_assoc. reflexivity.
        -- constructor; exact Hconn.
    + exact Hc.
    + destruct Hc as (tr & Hnone & Hcalls & Hr & Hp).
      exists tr. rewrite Hnone. split; [exact Hcalls|].
      split; [constructor; exact Hr | lia].
Qed.

(** *** Consequences for the log of a call that returned *)

(** In a log, every failed dial is followed at once by a pause of one
    second, and every failed write by the close of the connection written
    to and a pause of one second. *)
Fixpoint paused_after_failures (tr : list Call) : Prop :=
  match tr with
  | [] => True
  | Dial _ (inl _) :: rest =>
      (exists rest', rest = Sleep Second :: rest') /\
      paused_after_failures rest
  | WriteJSON c _ (Some _) :: rest =>
      (exists cerr rest', rest = ConnClose c cerr :: Sleep Second :: rest') /\
      paused_after_failures rest
  | _ :: rest => paused_after_failures rest
  end.

Lemma dial_retries_paused url tr rest :
  dial_retries url tr ->
  paused_after_failures rest ->
  paused_after_failures (tr ++ rest).
Proof.
  intros Hd Hrest. induction Hd as [|err tr Hd IH]; cbn; [exact Hrest|].
  split; [eauto | exact IH].
Qed.

Lemma connected_paused url c0 c tr rest :
  connected url c0 c tr ->
  paused_after_failures rest ->
  paused_after_failures (tr ++ rest).
Proof.
  intros [c1|c1 tr1 Hd] Hrest; cbn; [exact Hrest|].
  rewrite <- app_assoc. apply (dial_retries_paused url); [exact Hd|].
  exact Hrest.
Qed.

Lemma emitted_paused url msg c0 c tr :
  emitted url msg c0 c tr -> paused_after_failures tr.
Proof.
  induction 1 as [c0 c tr Hc|c0 c c' tr err cerr rest Hc _ IH].
  - apply (connected_paused url c0 c); [exact Hc | exact I].
  - apply (connected_paused url c0 c); [exact Hc|]. cbn.
    split; [eauto | exact IH].
Qed.

(** The last call of an [EmitEvent] that returned is the write that
    succeeded. *)
Lemma emitted_last url msg c0 c tr :
  emitted url msg c0 c tr -> last tr = Some (WriteJSON c msg None).
Proof.
  induction 1 as [c0 c tr Hc|c0 c c' tr err cerr rest Hc Hem IH].
  - apply last_snoc.
  - rewrite !last_app, IH. reflexivity.
Qed.

(** *** More turns do not change what a call returned *)

Lemma dial_loop_more fuel : forall e st e' st' k,
  dial_loop fuel e st = (Returned e', st') ->
  dial_loop (fuel + k) e st = (Returned e', st').
Proof.
  induction fuel as [|fuel IH]; intros e st e' st' k; cbn; [discriminate|].
  cbv beta iota zeta delta [bind perform sleep ret]; cbn [fst snd].
  destruct (dialer_Dial T (logURL e) (world st)) as [[err|c] w1];
    cbn [fst snd]; [|auto].
  apply IH.
Qed.

Lemma connect_more fuel e st e' st' k :
  connect fuel e st = (Returned e', st') ->
  connect (fuel + k) e st = (Returned e', st').
Proof.
  unfold connect. destruct (conn e); [auto|]. apply dial_loop_more.
Qed.

Lemma EmitEvent_more fuel : forall e ev st r st' k,
  EmitEvent fuel e ev st = (Returned r, st') ->
  EmitEvent (fuel + k) e ev st = (Returned r, st').
Proof.
  induction fuel as [|fuel IH]; intros e ev st r st' k; [discriminate|].
  cbn [EmitEvent Nat.add].
  cbv beta iota zeta delta [bind].
  destruct (connect (S fuel) e st) as [[e1| |] st1] eqn:Hc;
    cbn [fst snd]; try discriminate.
  apply (connect_more _ _ _ _ _ k) in Hc. cbn [Nat.add] in Hc.
  rewrite Hc; cbn [fst snd].
  destruct (conn e1) as [c|]; [|discriminate].
  cbv beta iota zeta delta [perform sleep close ret bind]; cbn [fst snd conn].
  destruct (conn_WriteJSON T c (mkMessage (Some ev)) (world st1))
    as [[err|] w2]; cbn [fst snd]; [|auto].
  apply IH.
Qed.

End Emitter.

Arguments Transport : clear implicits.
Arguments State : clear implicits.

(** *** Which connections an [EmitEvent] uses *)

(** The connections a log shows as dialled, as written to, as written to
    in vain, and as closed, each in the order of the calls. *)
Definition dialled (tr : list Call) : list Conn :=
  omap (fun c => match c with
                 | Dial _ (inr c) => Some c
                 | _ => None
                 end) tr.

Definition writes (tr : list Call) : list (Conn * Message) :=
  omap (fun c => match c with
                 | WriteJSON c m _ => Some (c, m)
                 | _ => None
                 end) tr.

Definition failed_writes (tr : list Call) : list Conn :=
  omap (fun c => match c with
                 | WriteJSON c _ (Some _) => Some c
                 | _ => None
                 end) tr.

Definition closed (tr : list Call) : list Conn :=
  omap (fun c => match c with
                 | ConnClose c _ => Some c
                 | _ => None
                 end) tr.

Section Connections.
Context {W : Type}.
Variable T : Transport W.

Lemma dial_retries_uses_no_connection url tr :
  dial_retries url tr ->
  dialled tr = [] /\ writes tr = [] /\ failed_writes tr = [] /\
  closed tr = [].
Proof.
  induction 1 as [|err tr _ IH]; [auto|]. exact IH.
Qed.

Lemma connected_uses_one_connection url c0 c tr :
  connected url c0 c tr ->
  option_list c0 ++ dialled tr = [c] /\ writes tr = [] /\
  failed_writes tr = [] /\ closed tr = [].
Proof.
  intros [c1|c1 tr1 Hd]; [auto|].
  apply dial_retries_uses_no_connection in Hd as (Hd & Hw & Hf & Hc).
  unfold dialled, writes, failed_writes, closed in *.
  rewrite !omap_app, Hd, Hw, Hf, Hc. auto.
Qed.

(** An [EmitEvent] that returned returned nil and left the emitter
    connected, under the URL it had. *)
Lemma EmitEvent_returned_connected fuel : forall e ev st e' err st',
  EmitEvent T fuel e ev st = (Returned (e', err), st') ->
  err = None /\ exists c, e' = mkEmitter (logURL e) (Some c).
Proof.
  induction fuel as [|fuel IH]; intros e ev st e' err st'; [discriminate|].
  cbn [EmitEvent].
  cbv beta iota zeta delta [bind perform sleep close ret].
  pose proof (connect_spec T (S fuel) e st) as Hc.
  destruct (connect T (S fuel) e st) as [[e1| |] st1]; cbn [fst snd];
    try discriminate.
  destruct Hc as (c & tr & -> & _ & _). cbn [conn fst snd].
  destruct (conn_WriteJSON T c (mkMessage (Some ev)) (world st1))
    as [[werr|] w2]; cbn [fst snd conn].
  - intros Hrun. apply IH in Hrun. exact Hrun.
  - intros [= <- <- _]. eauto.
Qed.

(** X3: an [EmitEvent] that returned wrote the message of its event, and
    nothing else, once to every connection it had: to the connection the
    emitter came with, if any, and then to each connection it dialled, in
    that order.  All of these writes but the last failed, and exactly the
    connections they failed on were closed; the last connection is the
    one the emitter keeps. *)
Theorem EmitEvent_writes_once_per_connection fuel :
  forall e ev st e' err st',
  EmitEvent T fuel e ev st = (Returned (e', err), st') ->
  exists c tr,
    calls st' = calls st ++ tr /\
    conn e' = Some c /\
    writes tr
      = (fun c => (c, mkMessage (Some ev)))
          <$> (option_list (conn e) ++ dialled tr) /\
    option_list (conn e) ++ dialled tr = closed tr ++ [c] /\
    failed_writes tr = closed tr.
Proof.
  induction fuel as [|fuel IH]; intros e ev st e' err st'; [discriminate|].
  cbn [EmitEvent].
  cbv beta iota zeta delta [bind perform sleep close ret].
  pose proof (connect_spec T (S fuel) e st) as Hc.
  destruct (connect T (S fuel) e st) as [[e1| |] st1]; cbn [fst snd];
    try discriminate.
  destruct Hc as (c & tr & -> & Hcalls & Hconn). cbn [conn fst snd].
  apply connected_uses_one_connection in Hconn as (Hd & Hw & Hf & Hcl).
  destruct (conn_WriteJSON T c (mkMessage (Some ev)) (world st1))
    as [[werr|] w2]; cbn [fst snd conn world calls].
  - destruct (conn_Close T c w2) as [cerr w3]; cbn [fst snd world calls].
    intros Hrun. apply IH in Hrun as (c' & rest & Hc' & He' & Hw' & Hd' & Hf').
    cbn [calls conn set_conn option_list] in Hc', Hw', Hd'.
    exists c', (tr ++ [WriteJSON c (mkMessage (Some ev)) (Some werr);
                       ConnClose c cerr; Sleep Second] ++ rest).
    split; [rewrite Hc', Hcalls; cbn; rewrite <- !app_assoc; reflexivity|].
    split; [exact He'|].
    unfold dialled, writes, failed_writes, closed in *.
    rewrite !omap_app, Hw, Hf, Hcl. cbn [omap app].
    rewrite app_assoc, Hd. cbn in Hd', Hw' |- *.
    rewrite Hw', Hd', Hf'. auto.
  - intros [= <- _ <-]. cbn [calls conn].
    exists c, (tr ++ [WriteJSON c (mkMessage (Some ev)) None]).
    split; [rewrite Hcalls, <- app_assoc; reflexivity|].
    split; [reflexivity|].
    unfold dialled, writes, failed_writes, closed in *.
    rewrite !omap_app, Hw, Hf, Hcl. cbn [omap app].
    rewrite !app_nil_r, Hd. auto.
Qed.

(** X4: the connection that an [EmitEvent] leaves behind is reused: when
    the next [EmitEvent] finds it writable, that call dials nothing and
    its one call is the write of its own message on that connection. *)
Theorem EmitEvent_reuses_the_connection_it_kept
    fuel e ev st e' err st' fuel' ev' w' :
  EmitEvent T fuel e ev st = (Returned (e', err), st') ->
  (forall c, conn e' = Some c ->
     conn_WriteJSON T c (mkMessage (Some ev')) (world st') = (None, w')) ->
  exists c,
    conn e' = Some c /\
    EmitEvent T (S fuel') e' ev' st'
      = (Returned (e', None),
         mkState w' (calls st' ++ [WriteJSON c (mkMessage (Some ev')) None])).
Proof.
  intros Hrun Hwrite.
  apply EmitEvent_returned_connected in Hrun as (_ & c & ->).
  exists c. split; [reflexivity|].
  specialize (Hwrite c eq_refl). cbn [EmitEvent].
  cbv beta iota zeta delta [bind perform connect ret]; cbn [conn fst snd].
  rewrite Hwrite. reflexivity.
Qed.

(** X5: [close] closes the connection the emitter holds, once, and
    forgets it; without a connection it makes no call and returns nil.
    So a second [close] in a row does nothing. *)
Theorem close_forgets_the_connection (e : websocketEmitter) (st : State W) :
  let r := close T e st in
  conn (fst (fst r)) = None /\
  logURL (fst (fst r)) = logURL e /\
  calls (snd r)
    = calls st ++ ((fun c => ConnClose c (snd (fst r)))
                     <$> option_list (conn e)) /\
  (conn e = None -> fst r = (e, None) /\ snd r = st) /\
  close T (fst (fst r)) (snd r) = (fst (fst r), None, snd r).
Proof.
  unfold close. destruct e as [url [c|]]; cbn [conn].
  - cbv beta iota zeta delta [bind perform ret]; cbn [fst snd].
    destruct (conn_Close T c (world st)) as [cerr w1]; cbn.
    split; [reflexivity|]. split; [reflexivity|]. split; [reflexivity|].
    split; [discriminate | reflexivity].
  - cbn. rewrite app_nil_r. destruct st as [w tr]. repeat split.
Qed.

End Connections.

(** *** Two transports *)

(** A consumer that accepts every dial and fails the first [failures]
    writes; the world counts the writes. *)
Definition flaky (failures : nat) : Transport nat :=
  @mkTransport nat
    (fun _ w => (inr (mkConn w), w))
    (fun _ _ w =>
       (if Nat.ltb w failures then Some (errorString "broken pipe") else None,
        S w))
    (fun _ w => (None, w))
    (fun _ w => w).

Definition sup : Event := Log "sup" (mkOrigin OriginTypeInput "some-input").

Definition unconnected : websocketEmitter := mkEmitter "ws://consumer" None.

(** Two failed writes, each followed by the close of its connection and
    a pause of one second, then the write that succeeds. *)
Example EmitEvent_after_two_failed_writes :
  EmitEvent (flaky 2) 3 unconnected sup (@mkState nat 0 [])
  = (Returned (mkEmitter "ws://consumer" (Some (mkConn 2)), None),
     @mkState nat 3
       [Dial "ws://consumer" (inr (mkConn 0));
        WriteJSON (mkConn 0) (mkMessage (Some sup))
                  (Some (errorString "broken pipe"));
        ConnClose (mkConn 0) None;
        Sleep Second;
        Dial "ws://consumer" (inr (mkConn 1));
        WriteJSON (mkConn 1) (mkMessage (Some sup))
                  (Some (errorString "broken pipe"));
        ConnClose (mkConn 1) None;
        Sleep Second;
        Dial "ws://consumer" (inr (mkConn 2));
        WriteJSON (mkConn 2) (mkMessage (Some sup)) None]).
Proof. reflexivity. Qed.

(** Against a consumer that fails every write, five turns of the loop
    end with five pauses made and no return. *)
Example EmitEvent_goes_on_retrying :
  fst (EmitEvent (flaky 100) 5 unconnected sup (@mkState nat 0 []))
    = OutOfFuel /\
  pauses (calls (snd (EmitEvent (flaky 100) 5 unconnected sup
                        (@mkState nat 0 []))))
    = 5.
Proof. split; reflexivity. Qed.

Lemma EmitEvent_retries_until_written_witness :
  @None error = None /\
  exists c tr,
    mkEmitter "ws://consumer" (Some (mkConn 2))
      = mkEmitter (logURL unconnected) (Some c) /\
    calls (snd (EmitEvent (flaky 2) 3 unconnected sup (@mkState nat 0 [])))
      = [] ++ tr /\
    emitted "ws://consumer" (mkMessage (Some sup)) None c tr.
Proof.
  exact (EmitEvent_retries_until_written (flaky 2) 3 unconnected sup
           (@mkState nat 0 [])).
Defined.

Lemma EmitEvent_writes_once_per_connection_witness :
  exists c tr,
    calls (snd (EmitEvent (flaky 2) 3 unconnected sup (@mkState nat 0 [])))
      = [] ++ tr /\
    conn (mkEmitter "ws://consumer" (Some (mkConn 2))) = Some c /\
    writes tr
      = (fun c => (c, mkMessage (Some sup)))
          <$> (option_list (conn unconnected) ++ dialled tr) /\
    option_list (conn unconnected) ++ dialled tr = closed tr ++ [c] /\
    failed_writes tr = closed tr.
Proof.
  apply (EmitEvent_writes_once_per_connection (flaky 2) 3 unconnected sup
           (@mkState nat 0 [])
           (mkEmitter "ws://consumer" (Some (mkConn 2))) None
           (snd (EmitEvent (flaky 2) 3 unconnected sup (@mkState nat 0 [])))).
  reflexivity.
Defined.

Lemma EmitEvent_reuses_the_connection_it_kept_witness :
  exists c,
    conn (mkEmitter "ws://consumer" (Some (mkConn 2))) = Some c /\
    EmitEvent (flaky 2) 1 (mkEmitter "ws://consumer" (Some (mkConn 2)))
      (Status "started")
      (snd (EmitEvent (flaky 2) 3 unconnected sup (@mkState nat 0 [])))
      = (Returned (mkEmitter "ws://consumer" (Some (mkConn 2)), None),
         @mkState nat 4
           (calls (snd (EmitEvent (flaky 2) 3 unconnected sup
                          (@mkState nat 0 [])))
              ++ [WriteJSON c (mkMessage (Some (Status "started"))) None])).
Proof.
  apply (EmitEvent_reuses_the_connection_it_kept (flaky 2) 3 unconnected sup
           (@mkState nat 0 [])
           (mkEmitter "ws://consumer" (Some (mkConn 2))) None
           (snd (EmitEvent (flaky 2) 3 unconnected sup (@mkState nat 0 [])))
           0 (Status "started") 4).
  - reflexivity.
  - intros c [= <-]. reflexivity.
Defined.

End event.

(** ** Package [resource]: [Out] and [streamInSource] *)

Module resource.

(** A value of the interface [resource.Resource], as handed out by the
    tracker. *)
Record Resource : Type := mkResource { resource_id : nat }.

(** Request payload from resource to the out script. *)
Record outRequest : Type := mkOutRequest {
  outRequest_Params : gmap string string
}.

(** Response payload from the out script to the resource. *)
Record outResponse : Type := mkOutResponse {
  outResponse_Version : gmap string string;
  outResponse_Metadata : list MetadataField
}.

(** The writer handed back by [container.StreamIn]. *)
Record Writer : Type := mkWriter { writer_id : nat }.

(** Calls leaving [Out], in program order. *)
Inductive Call : Type :=
| StreamIn (dst : string)
| Copy (dst : Writer) (src : Stream)
| Close (w : Writer)
| RunScript (cmd : string) (req : outRequest).

Section Out.
Context {W : Type}.

(** The collaborators of a [resource]: its container, [io.Copy], and
    [runScript], which is declared in a file outside the sources. *)
Record Env : Type := mkEnv {
  container_StreamIn : string -> W -> (error + Writer) * W;
  io_Copy : Writer -> Stream -> W -> option error * W;
  writer_Close : Writer -> W -> option error * W;
  runScript : string -> outRequest -> W -> (error + outResponse) * W;
  path_Join : string -> string -> string
}.

Record State : Type := mkState {
  world : W;
  calls : list Call
}.

Definition call {A} (c : Call) (oracle : W -> A * W) : M State A :=
  fun st =>
    let r := oracle (world st) in
    (fst r, mkState (snd r) (calls st ++ [c])).

Variable env : Env.

Definition streamInSource (sourceStream : Stream)
  : M State (option error) :=
  let* r := call (StreamIn "/tmp/build/src")
            (container_StreamIn env "/tmp/build/src") in
  match r with
  | inl err => ret (Some err)
  | inr streamIn =>
      let* err := call (Copy streamIn sourceStream)
                  (io_Copy env streamIn sourceStream) in
      match err with
      | Some err => ret (Some err)
      | None => call (Close streamIn) (writer_Close env streamIn)
      end
  end.

Definition out_command (output : Output.t) : string :=
  "/tmp/resource/out " +:+
    path_Join env "/tmp/build/src" (Output.SourcePath output).

Definition Out (sourceStream : Stream) (output : Output.t)
  : M State (Output.t * option error) :=
  let* err := streamInSource sourceStream in
  match err with
  | Some err => ret (Output.zero, Some err)
  | None =>
      let* r := call (RunScript (out_command output)
                           (mkOutRequest (Output.Params output)))
                (runScript env (out_command output)
                           (mkOutRequest (Output.Params output))) in
      match r with
      | inl err => ret (Output.zero, Some err)
      | inr resp =>
          let output :=
            Output.with_Version (outResponse_Version resp) output in
          let output :=
            Output.with_Metadata (outResponse_Metadata resp) output in
          ret (output, None)
      end
  end.

(** *** What a successful [Out] did and what it returns *)

(** The four calls of a successful [Out], in program order. *)
Definition out_calls (w : Writer) (sourceStream : Stream)
    (output : Output.t) : list Call :=
  [ StreamIn "/tmp/build/src";
    Copy w sourceStream;
    Close w;
    RunScript (out_command output) (mkOutRequest (Output.Params output)) ].

Lemma streamInSource_ok sourceStream st st' :
  streamInSource sourceStream st = (None, st') ->
  exists w w1 w2,
    container_StreamIn env "/tmp/build/src" (world st) = (inr w, w1) /\
    io_Copy env w sourceStream w1 = (None, w2) /\
    writer_Close env w w2 = (None, world st') /\
    calls st' =
      calls st ++ [StreamIn "/tmp/build/src"; Copy w sourceStream; Close w].
Proof.
  unfold streamInSource, bind, call, ret; cbn.
  destruct (container_StreamIn env "/tmp/build/src" (world st))
    as [[err|w] w1] eqn:Hin; cbn; [discriminate|].
  destruct (io_Copy env w sourceStream w1) as [[err|] w2] eqn:Hcp; cbn;
    [discriminate|].
  destruct (writer_Close env w w2) as [[err|] w3] eqn:Hcl; cbn;
    [discriminate|].
  intros [= <-]; cbn.
  exists w, w1, w2. rewrite <- !app_assoc. auto.
Qed.

(** C9: a successful [Out] streamed the given tar into the resource
    container at ["/tmp/build/src"], then copied and closed it, and only
    then ran the out script; the output it returns is the submitted one
    with [Version] and [Metadata] replaced by those of the script's
    response, every other field being the submitted one. *)
Theorem Out_streams_then_replaces_version_and_metadata
    (sourceStream : Stream) (output output' : Output.t)
    (st st' : State) :
  Out sourceStream output st = ((output', None), st') ->
  exists (w : Writer) (resp : outResponse) (w1 w2 w3 : W),
    container_StreamIn env "/tmp/build/src" (world st) = (inr w, w1) /\
    io_Copy env w sourceStream w1 = (None, w2) /\
    writer_Close env w w2 = (None, w3) /\
    runScript env (out_command output)
              (mkOutRequest (Output.Params output)) w3
      = (inr resp, world st') /\
    calls st' = calls st ++ out_calls w sourceStream output /\
    output' =
      Output.mk (Output.Name output) (Output.Type_ output)
                (Output.Source output) (Output.Params output)
                (Output.SourcePath output) (Output.On output)
                (outResponse_Version resp) (outResponse_Metadata resp).
Proof.
  unfold Out, bind.
  destruct (streamInSource sourceStream st) as [[err|] st1] eqn:Hs; cbn;
    [unfold ret; discriminate|].
  apply streamInSource_ok in Hs as (w & w1 & w2 & Hin & Hcp & Hcl & Hc).
  unfold call, ret; cbn.
  destruct (runScript env (out_command output)
              (mkOutRequest (Output.Params output)) (world st1))
    as [[err|resp] w4] eqn:Hrun; cbn; [discriminate|].
  intros [= <- <-]; cbn.
  exists w, resp, w1, w2, (world st1).
  repeat split; try assumption.
  rewrite Hc, <- app_assoc. reflexivity.
Qed.

End Out.

Arguments Env : clear implicits.
Arguments State : clear implicits.

(** *** How [Out] fails, and what it hands to the script *)

Section OutFailure.
Context {W : Type}.
Variable env : Env W.

(** The calls of an [Out] that fails with [err], and the world it leaves:
    the step that returned [err] is the last one called, and every step
    before it returned without error. *)
Inductive failed_at (sourceStream : Stream) (output : Output.t)
    (w0 : W) (err : error) : W -> list Call -> Prop :=
| failed_at_StreamIn w1 :
    container_StreamIn env "/tmp/build/src" w0 = (inl err, w1) ->
    failed_at sourceStream output w0 err w1 [StreamIn "/tmp/build/src"]
| failed_at_Copy w w1 w2 :
    container_StreamIn env "/tmp/build/src" w0 = (inr w, w1) ->
    io_Copy env w sourceStream w1 = (Some err, w2) ->
    failed_at sourceStream output w0 err w2
      [StreamIn "/tmp/build/src"; Copy w sourceStream]
| failed_at_Close w w1 w2 w3 :
    container_StreamIn env "/tmp/build/src" w0 = (inr w, w1) ->
    io_Copy env w sourceStream w1 = (None, w2) ->
    writer_Close env w w2 = (Some err, w3) ->
    failed_at sourceStream output w0 err w3
      [StreamIn "/tmp/build/src"; Copy w sourceStream; Close w]
| failed_at_RunScript w w1 w2 w3 w4 :
    container_StreamIn env "/tmp/build/src" w0 = (inr w, w1) ->
    io_Copy env w sourceStream w1 = (None, w2) ->
    writer_Close env w w2 = (None, w3) ->
    runScript env (out_command env output)
              (mkOutRequest (Output.Params output)) w3 = (inl err, w4) ->
    failed_at sourceStream output w0 err w4
      (out_calls env w sourceStream output).

(** X6: an [Out] that returns an error returns it from the first step
    that failed, with the empty output [builds.Output{}], and has called
    nothing after that step: the source is not copied into a writer that
    could not be opened, a writer whose copy failed is not closed, and
    the out script runs only after the source was streamed in, copied and
    closed without error. *)
Theorem Out_fails_at_the_first_failing_step
    (sourceStream : Stream) (output output' : Output.t) (err : error)
    (st st' : State W) :
  Out env sourceStream output st = ((output', Some err), st') ->
  output' = Output.zero /\
  exists new,
    calls st' = calls st ++ new /\
    failed_at sourceStream output (world st) err (world st') new /\
    (forall cmd req,
        RunScript cmd req ∈ new ->
        exists w, new = out_calls env w sourceStream output).
Proof.
  unfold Out, streamInSource.
  cbv beta iota zeta delta [bind call ret]; cbn [fst snd world calls].
  destruct (container_StreamIn env "/tmp/build/src" (world st))
    as [[e1|w] w1] eqn:Hin; cbn [fst snd world calls].
  { intros [= <- <- <-]. split; [reflexivity|].
    eexists. split; [reflexivity|]. split; [constructor; exact Hin|].
    intros cmd req Hr. apply list_elem_of_singleton in Hr. discriminate. }
  destruct (io_Copy env w sourceStream w1) as [[e2|] w2] eqn:Hcp;
    cbn [fst snd world calls].
  { intros [= <- <- <-]. split; [reflexivity|].
    eexists. split; [rewrite <- app_assoc; reflexivity|].
    split; [econstructor 2; eassumption|].
    intros cmd req Hr.
    repeat (apply elem_of_cons in Hr as [Hr|Hr]; [discriminate|]).
    inversion Hr. }
  destruct (writer_Close env w w2) as [[e3|] w3] eqn:Hcl;
    cbn [fst snd world calls].
  { intros [= <- <- <-]. split; [reflexivity|].
    eexists. split; [rewrite <- !app_assoc; reflexivity|].
    split; [econstructor 3; eassumption|].
    intros cmd req Hr.
    repeat (apply elem_of_cons in Hr as [Hr|Hr]; [discriminate|]).
    inversion Hr. }
  destruct (runScript env (out_command env output)
              (mkOutRequest (Output.Params output)) w3)
    as [[e4|resp] w4] eqn:Hrun; cbn [fst snd world calls];
    [|discriminate].
  intros [= <- <- <-]. split; [reflexivity|].
  exists (out_calls env w sourceStream output).
  split; [unfold out_calls; rewrite <- !app_assoc; reflexivity|].
  split; [econstructor 4; eassumption|].
  intros cmd req _. exists w. reflexivity.
Qed.

(** X7: of the submitted output, [Out] hands only [Params] and
    [SourcePath] to the resource: two outputs that agree on these lead to
    the same calls, the same world, the same error and the same computed
    [Version] and [Metadata], whatever their name, type, source and
    version are. *)
Theorem Out_depends_on_params_and_source_path_only
    (sourceStream : Stream) (o1 o2 : Output.t) (st : State W) :
  Output.Params o1 = Output.Params o2 ->
  Output.SourcePath o1 = Output.SourcePath o2 ->
  snd (Out env sourceStream o1 st) = snd (Out env sourceStream o2 st) /\
  snd (fst (Out env sourceStream o1 st))
    = snd (fst (Out env sourceStream o2 st)) /\
  Output.Version (fst (fst (Out env sourceStream o1 st)))
    = Output.Version (fst (fst (Out env sourceStream o2 st))) /\
  Output.Metadata (fst (fst (Out env sourceStream o1 st)))
    = Output.Metadata (fst (fst (Out env sourceStream o2 st))).
Proof.
  intros Hparams Hpath. unfold Out, out_command.
  rewrite Hparams, Hpath.
  cbv beta iota zeta delta [bind call ret]; cbn [fst snd].
  destruct (streamInSource env sourceStream st) as [[err|] st1];
    cbn [fst snd]; [auto|].
  destruct (runScript env _ _ (world st1)) as [[err|resp] w2];
    cbn [fst snd]; auto.
Qed.

End OutFailure.

(** A resource whose container accepts every stream and whose out script
    answers with version [{"ref": "v2"}] and one metadata field. *)
Definition demo_env : Env unit :=
  @mkEnv unit
    (fun _ w => (inr (mkWriter 0), w))
    (fun _ _ w => (None, w))
    (fun _ w => (None, w))
    (fun _ _ w =>
       (inr (mkOutResponse {[ "ref" := "v2" ]}
                           [mkMetadataField "commit" "abc"]), w))
    (fun a b => if String.eqb b "" then a else a +:+ "/" +:+ b).

Definition demo_output : Output.t :=
  Output.mk "artifact" "s3" {[ "bucket" := "b" ]} {[ "from" := "out" ]}
            "" [OutputConditionSuccess] {[ "ref" := "v1" ]} [].

Lemma Out_streams_then_replaces_version_and_metadata_witness :
  exists w resp w1 w2 w3,
    container_StreamIn demo_env "/tmp/build/src" tt = (inr w, w1) /\
    io_Copy demo_env w "the-source" w1 = (None, w2) /\
    writer_Close demo_env w w2 = (None, w3) /\
    runScript demo_env (out_command demo_env demo_output)
              (mkOutRequest (Output.Params demo_output)) w3
      = (inr resp, tt) /\
    calls (snd (Out demo_env "the-source" demo_output (@mkState unit tt [])))
      = [] ++ out_calls demo_env w "the-source" demo_output /\
    fst (fst (Out demo_env "the-source" demo_output (@mkState unit tt [])))
      = Output.mk "artifact" "s3" {[ "bucket" := "b" ]} {[ "from" := "out" ]}
                  "" [OutputConditionSuccess]
                  (outResponse_Version resp) (outResponse_Metadata resp).
Proof.
  exact (Out_streams_then_replaces_version_and_metadata demo_env
           "the-source" demo_output _ (@mkState unit tt []) _ eq_refl).
Defined.

(** A resource whose container takes the stream and whose copy breaks. *)
Definition broken_copy_env : Env unit :=
  @mkEnv unit
    (fun _ w => (inr (mkWriter 0), w))
    (fun _ _ w => (Some (errorString "short write"), w))
    (fun _ w => (None, w))
    (fun _ _ w => (inr (mkOutResponse ∅ []), w))
    (fun a b => if String.eqb b "" then a else a +:+ "/" +:+ b).

Lemma Out_fails_at_the_first_failing_step_witness :
  Output.zero = Output.zero /\
  exists new,
    calls (snd (Out broken_copy_env "the-source" demo_output
                  (@mkState unit tt [])))
      = [] ++ new /\
    failed_at broken_copy_env "the-source" demo_output tt
      (errorString "short write") tt new /\
    (forall cmd req,
        RunScript cmd req ∈ new ->
        exists w, new = out_calls broken_copy_env w "the-source" demo_output).
Proof.
  apply (Out_fails_at_the_first_failing_step broken_copy_env "the-source"
           demo_output Output.zero (errorString "short write")
           (@mkState unit tt [])
           (snd (Out broken_copy_env "the-source" demo_output
                   (@mkState unit tt [])))).
  reflexivity.
Defined.

(** An output that shares only [Params] and [SourcePath] with
    [demo_output]. *)
Definition other_output : Output.t :=
  Output.mk "report" "git" {[ "uri" := "u" ]} {[ "from" := "out" ]}
            "" [OutputConditionFailure] ∅ [mkMetadataField "k" "v"].

Lemma Out_depends_on_params_and_source_path_only_witness :
  snd (Out demo_env "the-source" demo_output (@mkState unit tt []))
    = snd (Out demo_env "the-source" other_output (@mkState unit tt [])) /\
  snd (fst (Out demo_env "the-source" demo_output (@mkState unit tt [])))
    = snd (fst (Out demo_env "the-source" other_output
                  (@mkState unit tt []))) /\
  Output.Version
    (fst (fst (Out demo_env "the-source" demo_output (@mkState unit tt []))))
    = Output.Version
        (fst (fst (Out demo_env "the-source" other_output
                     (@mkState unit tt [])))) /\
  Output.Metadata
    (fst (fst (Out demo_env "the-source" demo_output (@mkState unit tt []))))
    = Output.Metadata
        (fst (fst (Out demo_env "the-source" other_output
                     (@mkState unit tt [])))).
Proof.
  apply (Out_depends_on_params_and_source_path_only demo_env "the-source"
           demo_output other_output (@mkState unit tt [])).
  - reflexivity.
  - reflexivity.
Defined.

End resource.

(** ** Package [outputs]: the parallel performer *)

Module outputs.

Import resource.

(** Calls of one goroutine of [PerformOutputs], in program order. *)
Inductive Call : Type :=
| StreamOut (src : string)
| Init (typ : string) (origin : event.Origin)
| Out (r : Resource) (s : Stream) (o : Output.t)
| EmitEvent (ev : event.Event)
| Store (i : nat) (o : Output.t)
| Send (err : option error)
| Release (r : Resource).

(** What one goroutine did: its calls, the one value it sent on
    [errResults], and what it stored into its slot of [resultingOutputs],
    if anything. *)
Record TaskRun : Type := mkTaskRun {
  task_calls : list Call;
  task_err : option error;
  task_output : option Output.t
}.

(** The memory the goroutines share with the caller: the slice
    [resultingOutputs] and the buffered channel [errResults], oldest
    message first. *)
Record Shared : Type := mkShared {
  resultingOutputs : list Output.t;
  errResults : list (option error)
}.

Section PerformOutputs.

(** The collaborators, answering per goroutine: the goroutines run
    concurrently, so a call's answer may depend on which of them asks. *)
Record Env : Type := mkEnv {
  container_StreamOut : nat -> string -> error + Stream;
  tracker_Init : nat -> string -> event.Origin -> error + Resource;
  resource_Out :
    nat -> Resource -> Stream -> Output.t -> Output.t * option error
}.

Variable E : Env.

(** [fmt.Sprintf(output.Name+" output failed: %s", err)], for names
    without formatting verbs. *)
Definition output_failed (output : Output.t) (err : error) : string :=
  Output.Name output +:+ " output failed: " +:+ error_Error err.

(** The body of [go func(i int, output builds.Output)]. *)
Definition task (i : nat) (output : Output.t) : TaskRun :=
  match container_StreamOut E i "/tmp/build/src/" with
  | inl err =>
      mkTaskRun [StreamOut "/tmp/build/src/"; Send (Some err)]
                (Some err) None
  | inr streamOut =>
      let origin :=
        event.mkOrigin event.OriginTypeOutput (Output.Name output) in
      match tracker_Init E i (Output.Type_ output) origin with
      | inl err =>
          mkTaskRun [StreamOut "/tmp/build/src/";
                     Init (Output.Type_ output) origin;
                     Send (Some err)]
                    (Some err) None
      | inr resource =>
          let r := resource_Out E i resource streamOut output in
          let computedOutput := fst r in
          match snd r with
          | Some err =>
              mkTaskRun [StreamOut "/tmp/build/src/";
                         Init (Output.Type_ output) origin;
                         Out resource streamOut output;
                         EmitEvent
                           (event.Error (output_failed output err));
                         Send (Some err);
                         Release resource]
                        (Some err) None
          | None =>
              mkTaskRun [StreamOut "/tmp/build/src/";
                         Init (Output.Type_ output) origin;
                         Out resource streamOut output;
                         EmitEvent (event.Output computedOutput);
                         Store i computedOutput;
                         Send None;
                         Release resource]
                        None (Some computedOutput)
          end
      end
  end.

(** [make([]builds.Output, n)]. *)
Definition make (n : nat) : list Output.t := replicate n Output.zero.

(** Goroutine [i] runs up to its send: it stores, then sends. *)
Definition finish_task (outputs : list Output.t) (sh : Shared) (i : nat)
  : Shared :=
  match outputs !! i with
  | None => sh
  | Some output =>
      let r := task i output in
      mkShared
        match task_output r with
        | Some o => <[i := o]> (resultingOutputs sh)
        | None => resultingOutputs sh
        end
        (errResults sh ++ [task_err r])
  end.

(** The loop [for i := 0; i < n; i++ { err := <-errResults; ... }]:
    the final [outputErr] and what is left in the channel.  A receive
    from a channel on which nothing arrives any more never returns. *)
Fixpoint receive_all (n : nat) (ch : list (option error))
    (outputErr : option error)
  : option (option error * list (option error)) :=
  match n with
  | O => Some (outputErr, ch)
  | S n' =>
      match ch with
      | [] => None
      | err :: ch' =>
          receive_all n' ch'
            (if err is Some e then Some e else outputErr)
      end
  end.

(** The shared memory once the goroutines listed in [sched] have sent,
    in that order. *)
Definition run_tasks (outputs : list Output.t) (sched : list nat)
  : Shared :=
  foldl (finish_task outputs)
        (mkShared (make (length outputs)) []) sched.

(** [PerformOutputs], with the order [sched] in which the goroutines
    reach their send.  [None]: the call never returns. *)
Definition PerformOutputs (outputs : list Output.t) (sched : list nat)
  : option (list Output.t * option error) :=
  let sh := run_tasks outputs sched in
  match receive_all (length outputs) (errResults sh) None with
  | None => None
  | Some (Some err, _) => Some ([], Some err)
  | Some (None, _) => Some (resultingOutputs sh, None)
  end.

(** *** The receive loop *)

(** [if err != nil { outputErr = err }] over a list of received values. *)
Definition note_errors (outputErr : option error)
    (got : list (option error)) : option error :=
  foldl (fun acc err => if err is Some e then Some e else acc)
        outputErr got.

Lemma receive_all_inv n : forall ch acc r rest,
  receive_all n ch acc = Some (r, rest) ->
  exists got,
    ch = got ++ rest /\ length got = n /\ r = note_errors acc got.
Proof.
  induction n as [|n IH]; intros ch acc r rest; cbn.
  - intros [= <- <-]. exists []. auto.
  - destruct ch as [|err ch]; [discriminate|].
    intros Hr. apply IH in Hr as (got & -> & <- & ->).
    exists (err :: got). auto.
Qed.

Lemma receive_all_whole ch : forall acc,
  receive_all (length ch) ch acc = Some (note_errors acc ch, []).
Proof. induction ch as [|err ch IH]; intros acc; cbn; auto. Qed.

Lemma note_errors_None got : forall acc,
  note_errors acc got = None <-> acc = None /\ Forall (eq None) got.
Proof.
  induction got as [|err got IH]; intros acc; cbn.
  - split; [intros ->; auto | tauto].
  - fold (note_errors (if err is Some e then Some e else acc) got).
    rewrite IH. destruct err as [e|].
    + split; [intros [[=] _] | intros [_ Hf]; inversion Hf; discriminate].
    + split; [intros [-> Hf]; auto | intros [-> Hf]; inversion Hf; auto].
Qed.

(** The error the loop ends with is the one received last. *)
Lemma note_errors_Some got : forall acc e,
  note_errors acc got = Some e ->
  (acc = Some e /\ Forall (eq None) got) \/
  exists pre post, got = pre ++ Some e :: post /\ Forall (eq None) post.
Proof.
  induction got as [|err got IH]; intros acc e; cbn.
  - intros ->. left. auto.
  - fold (note_errors (if err is Some e then Some e else acc) got).
    intros Hn. apply IH in Hn as [[Ha Hf]|(pre & post & -> & Hf)].
    + destruct err as [e'|].
      * injection Ha as ->. right. exists [], got. auto.
      * left. auto.
    + right. exists (err :: pre), post. auto.
Qed.

(** *** The goroutines *)

(** What goroutine [i] sends, if there is an [i]-th output. *)
Definition sent (outputs : list Output.t) (i : nat)
  : option (option error) :=
  (fun output => task_err (task i output)) <$> outputs !! i.

(** One message per launched goroutine, by position. *)
Definition task_messages (outputs : list Output.t)
  : list (option error) :=
  imap (fun i output => task_err (task i output)) outputs.

Lemma omap_seq_imap {A B} (l : list A) : forall (f : nat -> A -> B),
  omap (fun i => f i <$> l !! i) (seq 0 (length l)) = imap f l.
Proof.
  induction l as [|a l IH]; intros f; [reflexivity|].
  rewrite imap_cons. cbn [length seq]. csimpl. f_equal.
  rewrite <- fmap_S_seq, <- (IH (f ∘ S)).
  apply list_omap_ext. apply Forall2_fmap_l, Forall_Forall2_diag.
  apply Forall_forall. intros i _. reflexivity.
Qed.

Lemma foldl_finish_task outputs sched : forall sh,
  let sh' := foldl (finish_task outputs) sh sched in
  length (resultingOutputs sh') = length (resultingOutputs sh) /\
  errResults sh' = errResults sh ++ omap (sent outputs) sched.
Proof.
  induction sched as [|j sched IH]; intros sh; cbn.
  - rewrite app_nil_r. auto.
  - destruct (IH (finish_task outputs sh j)) as [Hlen Hch].
    rewrite Hlen, Hch. unfold finish_task, sent. csimpl.
    destruct (outputs !! j) as [output|]; cbn; [|auto].
    split; [|rewrite <- app_assoc; reflexivity].
    destruct (task_output (task j output)); [apply length_insert|auto].
Qed.

(** A slot holds what its goroutine stored, whatever the others do. *)
Lemma foldl_finish_task_keeps outputs i output o :
  outputs !! i = Some output ->
  task_output (task i output) = Some o ->
  forall sched sh,
    resultingOutputs sh !! i = Some o ->
    resultingOutputs (foldl (finish_task outputs) sh sched) !! i = Some o.
Proof.
  intros Hi Ho. induction sched as [|j sched IH]; intros sh Hsh; cbn;
    [exact Hsh|].
  apply IH. unfold finish_task.
  destruct (outputs !! j) as [output'|] eqn:Hj; cbn; [|exact Hsh].
  destruct (task_output (task j output')) as [o'|] eqn:Ho'; [|exact Hsh].
  destruct (decide (j = i)) as [->|Hne].
  - rewrite Hi in Hj. injection Hj as <-. rewrite Ho in Ho'.
    injection Ho' as <-. apply list_lookup_insert_eq.
    apply lookup_lt_Some in Hsh. exact Hsh.
  - rewrite list_lookup_insert_ne by exact Hne. exact Hsh.
Qed.

Lemma foldl_finish_task_stores outputs i output o :
  outputs !! i = Some output ->
  task_output (task i output) = Some o ->
  forall sched sh,
    i ∈ sched ->
    i < length (resultingOutputs sh) ->
    resultingOutputs (foldl (finish_task outputs) sh sched) !! i = Some o.
Proof.
  intros Hi Ho. induction sched as [|j sched IH]; intros sh Hin Hlt.
  - inversion Hin.
  - cbn. apply elem_of_cons in Hin as [<-|Hin].
    + apply (foldl_finish_task_keeps outputs i output o Hi Ho).
      unfold finish_task. rewrite Hi, Ho.
      apply list_lookup_insert_eq. exact Hlt.
    + apply IH; [exact Hin|].
      destruct (foldl_finish_task outputs [j] sh) as [Hlen _].
      cbn in Hlen. rewrite Hlen. exact Hlt.
Qed.

(** When every goroutine reaches its send, the channel holds one
    message of each. *)
Lemma errResults_run_tasks outputs sched :
  sched ≡ₚ seq 0 (length outputs) ->
  errResults (run_tasks outputs sched) ≡ₚ task_messages outputs.
Proof.
  intros Hp. unfold run_tasks.
  destruct (foldl_finish_task outputs sched
              (mkShared (make (length outputs)) [])) as [_ ->]; cbn.
  rewrite Hp. unfold sent, task_messages.
  rewrite omap_seq_imap. reflexivity.
Qed.

Lemma length_task_messages outputs :
  length (task_messages outputs) = length outputs.
Proof. apply length_imap. Qed.

Lemma elem_of_task_messages outputs i output :
  outputs !! i = Some output ->
  task_err (task i output) ∈ task_messages outputs.
Proof.
  intros Hi. apply list_elem_of_lookup. exists i.
  unfold task_messages. rewrite list_lookup_imap, Hi. reflexivity.
Qed.

(** A goroutine that sends nil has run [Out] without error and stored
    its result. *)
Lemma task_err_None i output :
  task_err (task i output) = None ->
  exists streamOut resource computedOutput,
    container_StreamOut E i "/tmp/build/src/" = inr streamOut /\
    tracker_Init E i (Output.Type_ output)
      (event.mkOrigin event.OriginTypeOutput (Output.Name output))
      = inr resource /\
    resource_Out E i resource streamOut output = (computedOutput, None) /\
    task_output (task i output) = Some computedOutput.
Proof.
  unfold task.
  destruct (container_StreamOut E i "/tmp/build/src/")
    as [err|streamOut]; [discriminate|].
  destruct (tracker_Init E i _ _) as [err|resource]; [discriminate|].
  destruct (resource_Out E i resource streamOut output)
    as [computedOutput [err|]] eqn:Hout; cbn; [discriminate|].
  intros _. exists streamOut, resource, computedOutput. auto.
Qed.

Lemma length_errResults outputs sched :
  sched ≡ₚ seq 0 (length outputs) ->
  length (errResults (run_tasks outputs sched)) = length outputs.
Proof.
  intros Hp. rewrite (errResults_run_tasks outputs sched Hp).
  apply length_task_messages.
Qed.

(** *** What [PerformOutputs] returns *)

(** The first error, in the order given, that is not [ErrAborted]. *)
Fixpoint first_non_abort (got : list (option error)) : option error :=
  match got with
  | [] => None
  | Some (errorString msg) :: _ => Some (errorString msg)
  | _ :: got => first_non_abort got
  end.

(** C4 as stated: the error returned is the first non-abort error among
    the failures. *)
Definition returns_first_non_abort_error (outputs : list Output.t)
    (sched : list nat) : Prop :=
  PerformOutputs outputs sched =
    Some ([], first_non_abort (errResults (run_tasks outputs sched))).

(** C4, amended: when some goroutine fails and every goroutine reaches
    its send, [PerformOutputs] receives one message of every goroutine,
    leaving none, and returns a nil slice together with the error that
    was received last. *)
Theorem PerformOutputs_returns_last_error_received outputs sched :
  sched ≡ₚ seq 0 (length outputs) ->
  (exists i output,
      outputs !! i = Some output /\ task_err (task i output) <> None) ->
  exists e pre post,
    PerformOutputs outputs sched = Some ([], Some e) /\
    receive_all (length outputs)
                (errResults (run_tasks outputs sched)) None
      = Some (Some e, []) /\
    errResults (run_tasks outputs sched) ≡ₚ task_messages outputs /\
    errResults (run_tasks outputs sched) = pre ++ Some e :: post /\
    Forall (eq None) post.
Proof.
  intros Hp (i & output & Hi & Hfail).
  pose proof (errResults_run_tasks outputs sched Hp) as Hch.
  pose proof (length_errResults outputs sched Hp) as Hlen.
  pose proof (receive_all_whole (errResults (run_tasks outputs sched)) None)
    as Hrecv.
  rewrite Hlen in Hrecv.
  destruct (note_errors None (errResults (run_tasks outputs sched)))
    as [e|] eqn:Hnote.
  - apply note_errors_Some in Hnote as [[[=] _]|(pre & post & Heq & Hf)].
    exists e, pre, post. unfold PerformOutputs. rewrite Hrecv. auto.
  - apply note_errors_None in Hnote as [_ Hf].
    exfalso. apply Hfail. symmetry.
    eapply (proj1 (Forall_forall _ _) Hf).
    rewrite Hch. apply elem_of_task_messages. exact Hi.
Qed.

(** C10: when [PerformOutputs] returns a nil error, the slice it returns
    is as long as the slice of submitted outputs, and its [i]-th element
    is what [Out] computed for the [i]-th submitted output, whatever the
    order in which the goroutines finished. *)
Theorem PerformOutputs_keeps_positions outputs sched res :
  sched ≡ₚ seq 0 (length outputs) ->
  PerformOutputs outputs sched = Some (res, None) ->
  length res = length outputs /\
  forall i output,
    outputs !! i = Some output ->
    exists streamOut resource computedOutput,
      container_StreamOut E i "/tmp/build/src/" = inr streamOut /\
      tracker_Init E i (Output.Type_ output)
        (event.mkOrigin event.OriginTypeOutput (Output.Name output))
        = inr resource /\
      resource_Out E i resource streamOut output
        = (computedOutput, None) /\
      res !! i = Some computedOutput.
Proof.
  intros Hp. unfold PerformOutputs.
  pose proof (errResults_run_tasks outputs sched Hp) as Hch.
  pose proof (length_errResults outputs sched Hp) as Hlen.
  pose proof (receive_all_whole (errResults (run_tasks outputs sched)) None)
    as Hrecv.
  rewrite Hlen in Hrecv. rewrite Hrecv.
  destruct (note_errors None (errResults (run_tasks outputs sched)))
    as [e|] eqn:Hnote; [discriminate|].
  intros [= <-]. apply note_errors_None in Hnote as [_ Hf].
  split.
  - unfold run_tasks.
    destruct (foldl_finish_task outputs sched
                (mkShared (make (length outputs)) [])) as [-> _].
    apply length_replicate.
  - intros i output Hi.
    assert (task_err (task i output) = None) as Hnil.
    { symmetry. eapply (proj1 (Forall_forall _ _) Hf).
      rewrite Hch. apply elem_of_task_messages. exact Hi. }
    apply task_err_None in Hnil
      as (streamOut & resource & computedOutput & Hs & Hr & Ho & Hst).
    exists streamOut, resource, computedOutput.
    repeat split; try assumption.
    apply (foldl_finish_task_stores outputs i output computedOutput Hi Hst).
    + rewrite Hp. apply elem_of_seq. apply lookup_lt_Some in Hi. lia.
    + cbn. unfold make. rewrite length_replicate.
      apply lookup_lt_Some in Hi. exact Hi.
Qed.

End PerformOutputs.

(** *** The goroutines' sends, and what does not depend on their order *)

(** The values a goroutine's calls show as sent on [errResults], the
    resources they show as released, and the resources [Out] ran on. *)
Definition sends (log : list Call) : list (option error) :=
  omap (fun c => match c with Send err => Some err | _ => None end) log.

Definition releases (log : list Call) : list Resource :=
  omap (fun c => match c with Release r => Some r | _ => None end) log.

Definition out_resources (log : list Call) : list Resource :=
  omap (fun c => match c with Out r _ _ => Some r | _ => None end) log.

Definition stores (log : list Call) : list (nat * Output.t) :=
  omap (fun c => match c with Store i o => Some (i, o) | _ => None end) log.

Section Goroutines.
Variable E : Env.

(** X8: on every path a goroutine of [PerformOutputs] sends exactly one
    value on [errResults], the one the receive loop gets from it.  It
    releases exactly the resource it ran [Out] on, if it came that far,
    and does so after its send, as its last call.  It stores into its own
    slot of [resultingOutputs], and only there, exactly when it sends
    nil. *)
Theorem task_sends_once_then_releases (i : nat) (output : Output.t) :
  let r := task E i output in
  sends (task_calls r) = [task_err r] /\
  releases (task_calls r) = out_resources (task_calls r) /\
  (forall resource,
      Release resource ∈ task_calls r ->
      exists pre,
        task_calls r = pre ++ [Send (task_err r); Release resource]) /\
  stores (task_calls r) = (fun o => (i, o)) <$> option_list (task_output r) /\
  (task_err r = None <-> is_Some (task_output r)).
Proof.
  unfold task.
  destruct (container_StreamOut E i "/tmp/build/src/") as [err|streamOut].
  { cbn. repeat split; try reflexivity; try discriminate.
    - intros resource Hin.
      repeat (apply elem_of_cons in Hin as [Hin|Hin]; [discriminate|]).
      inversion Hin.
    - intros [o Ho]. discriminate. }
  destruct (tracker_Init E i _ _) as [err|resource].
  { cbn. repeat split; try reflexivity; try discriminate.
    - intros resource Hin.
      repeat (apply elem_of_cons in Hin as [Hin|Hin]; [discriminate|]).
      inversion Hin.
    - intros [o Ho]. discriminate. }
  destruct (resource_Out E i resource streamOut output)
    as [computedOutput [err|]]; cbn.
  - repeat split; try reflexivity; try discriminate.
    + intros resource' Hin.
      repeat (apply elem_of_cons in Hin as [Hin|Hin];
              [try discriminate|]); [|inversion Hin].
      injection Hin as ->.
      exists [StreamOut "/tmp/build/src/";
              Init (Output.Type_ output)
                (event.mkOrigin event.OriginTypeOutput (Output.Name output));
              Out resource streamOut output;
              EmitEvent (event.Error (output_failed output err))].
      reflexivity.
    + intros [o Ho]. discriminate.
  - repeat split; try reflexivity; try (eexists; reflexivity).
    intros resource' Hin.
    repeat (apply elem_of_cons in Hin as [Hin|Hin];
            [try discriminate|]); [|inversion Hin].
    injection Hin as ->.
    exists [StreamOut "/tmp/build/src/";
            Init (Output.Type_ output)
              (event.mkOrigin event.OriginTypeOutput (Output.Name output));
            Out resource streamOut output;
            EmitEvent (event.Output computedOutput);
            Store i computedOutput].
    reflexivity.
Qed.

Lemma length_omap_le {A B} (f : A -> option B) (l : list A) :
  length (omap f l) <= length l.
Proof.
  induction l as [|a l IH]; [reflexivity|].
  csimpl. destruct (f a); cbn; lia.
Qed.

Lemma receive_all_short n : forall ch acc,
  length ch < n -> receive_all n ch acc = None.
Proof.
  induction n as [|n IH]; intros ch acc Hlt; [lia|].
  destruct ch as [|err ch]; [reflexivity|].
  cbn in *. apply IH. lia.
Qed.

(** What [PerformOutputs] returns once every goroutine has sent. *)
Lemma PerformOutputs_whole outputs sched :
  sched ≡ₚ seq 0 (length outputs) ->
  PerformOutputs E outputs sched =
    match note_errors None (errResults (run_tasks E outputs sched)) with
    | Some err => Some ([], Some err)
    | None => Some (resultingOutputs (run_tasks E outputs sched), None)
    end.
Proof.
  intros Hp. unfold PerformOutputs.
  pose proof (receive_all_whole (errResults (run_tasks E outputs sched)) None)
    as Hrecv.
  rewrite (length_errResults E outputs sched Hp) in Hrecv.
  rewrite Hrecv. reflexivity.
Qed.

Lemma all_sent_nil outputs sched :
  sched ≡ₚ seq 0 (length outputs) ->
  note_errors None (errResults (run_tasks E outputs sched)) = None <->
  forall i output,
    outputs !! i = Some output -> task_err (task E i output) = None.
Proof.
  intros Hp. rewrite note_errors_None.
  rewrite (errResults_run_tasks E outputs sched Hp). split.
  - intros [_ Hf] i output Hi. symmetry.
    eapply (proj1 (Forall_forall _ _) Hf).
    apply elem_of_task_messages. exact Hi.
  - intros Hall. split; [reflexivity|].
    apply Forall_forall. intros err Hin.
    apply list_elem_of_lookup in Hin as [i Hi].
    unfold task_messages in Hi. rewrite list_lookup_imap in Hi.
    destruct (outputs !! i) as [output|] eqn:Ho; [|discriminate].
    injection Hi as <-. symmetry. apply Hall. exact Ho.
Qed.

(** The slice after a run in which every goroutine sent nil holds, at
    every position, what the goroutine of that position stored. *)
Lemma resultingOutputs_by_position outputs sched :
  sched ≡ₚ seq 0 (length outputs) ->
  (forall i output,
      outputs !! i = Some output -> task_err (task E i output) = None) ->
  length (resultingOutputs (run_tasks E outputs sched)) = length outputs /\
  forall i output,
    outputs !! i = Some output ->
    resultingOutputs (run_tasks E outputs sched) !! i
      = task_output (task E i output).
Proof.
  intros Hp Hall. split.
  - unfold run_tasks.
    destruct (foldl_finish_task E outputs sched
                (mkShared (make (length outputs)) [])) as [-> _].
    apply length_replicate.
  - intros i output Hi.
    destruct (task_err_None E i output (Hall i output Hi))
      as (streamOut & resource & computedOutput & _ & _ & _ & Hst).
    rewrite Hst.
    apply (foldl_finish_task_stores E outputs i output computedOutput Hi Hst).
    + rewrite Hp. apply elem_of_seq. apply lookup_lt_Some in Hi. lia.
    + cbn. unfold make. rewrite length_replicate.
      apply lookup_lt_Some in Hi. exact Hi.
Qed.


(** X10: the slice [PerformOutputs] returns does not depend on the order
    in which the goroutines finish, and neither does whether it returns
    an error; only which of several errors it returns does. *)
Theorem PerformOutputs_slice_is_order_independent outputs sched1 sched2 :
  sched1 ≡ₚ seq 0 (length outputs) ->
  sched2 ≡ₚ seq 0 (length outputs) ->
  exists res err1 err2,
    PerformOutputs E outputs sched1 = Some (res, err1) /\
    PerformOutputs E outputs sched2 = Some (res, err2) /\
    (err1 = None <-> err2 = None).
Proof.
  intros Hp1 Hp2.
  rewrite (PerformOutputs_whole outputs sched1 Hp1),
    (PerformOutputs_whole outputs sched2 Hp2).
  pose proof (all_sent_nil outputs sched1 Hp1) as Hnil1.
  pose proof (all_sent_nil outputs sched2 Hp2) as Hnil2.
  destruct (note_errors None (errResults (run_tasks E outputs sched1)))
    as [e1|];
    destruct (note_errors None (errResults (run_tasks E outputs sched2)))
      as [e2|].
  - exists [], (Some e1), (Some e2). repeat split; discriminate.
  - exfalso. assert (Some e1 = None) as Hc; [|discriminate Hc].
    apply Hnil1, Hnil2. reflexivity.
  - exfalso. assert (Some e2 = None) as Hc; [|discriminate Hc].
    apply Hnil2, Hnil1. reflexivity.
  - assert (forall i output,
               outputs !! i = Some output ->
               task_err (task E i output) = None) as Hall
      by (apply Hnil1; reflexivity).
    destruct (resultingOutputs_by_position outputs sched1 Hp1 Hall)
      as [Hlen1 Hat1].
    destruct (resultingOutputs_by_position outputs sched2 Hp2 Hall)
      as [Hlen2 Hat2].
    exists (resultingOutputs (run_tasks E outputs sched1)), None, None.
    split; [reflexivity|]. split; [|tauto].
    do 2 f_equal. apply list_eq. intros i.
    destruct (outputs !! i) as [output|] eqn:Hi.
    + rewrite (Hat1 i output Hi), (Hat2 i output Hi). reflexivity.
    + apply lookup_ge_None in Hi.
      rewrite !(proj2 (lookup_ge_None _ _)) by lia. reflexivity.
Qed.

(** X11: [PerformOutputs] waits for one send of every goroutine and for
    nothing else: while fewer goroutines have sent than there are
    outputs, it does not return. *)
Theorem PerformOutputs_waits_for_every_task outputs sched :
  length sched < length outputs ->
  PerformOutputs E outputs sched = None.
Proof.
  intros Hlt. unfold PerformOutputs, run_tasks.
  destruct (foldl_finish_task E outputs sched
              (mkShared (make (length outputs)) [])) as [_ Hch].
  cbn in Hch. rewrite Hch, receive_all_short; [reflexivity|].
  pose proof (length_omap_le (sent E outputs) sched). lia.
Qed.

End Goroutines.

(** *** Two runs *)

Definition out_a : Output.t :=
  Output.mk "a" "git" ∅ ∅ "" [OutputConditionSuccess] ∅ [].
Definition out_b : Output.t :=
  Output.mk "b" "s3" ∅ ∅ "" [OutputConditionSuccess] ∅ [].

(** Every [Out] fails, the one for the [i]-th output with its own error. *)
Definition failing_env : Env :=
  mkEnv (fun _ _ => inr "tar")
        (fun i _ _ => inr (mkResource i))
        (fun i _ _ _ =>
           (Output.zero,
            Some (errorString (if i is O then "first" else "second")))).

(** Every [Out] succeeds and stamps the version with the resource type. *)
Definition stamping_env : Env :=
  mkEnv (fun _ _ => inr "tar")
        (fun i _ _ => inr (mkResource i))
        (fun _ _ _ o =>
           (Output.with_Version {[ "ref" := Output.Type_ o ]} o, None)).

(** C4 as stated fails: two tasks fail, first with "first" and then with
    "second"; the error returned is "second". *)
Lemma PerformOutputs_not_first_non_abort_error :
  PerformOutputs failing_env [out_a; out_b] [0; 1]
    = Some ([], Some (errorString "second")) /\
  ~ returns_first_non_abort_error failing_env [out_a; out_b] [0; 1].
Proof.
  split; [reflexivity|].
  unfold returns_first_non_abort_error. vm_compute. discriminate.
Qed.

Lemma PerformOutputs_returns_last_error_received_witness :
  exists e pre post,
    PerformOutputs failing_env [out_a; out_b] [1; 0] = Some ([], Some e) /\
    receive_all 2 (errResults (run_tasks failing_env [out_a; out_b] [1; 0]))
                None
      = Some (Some e, []) /\
    errResults (run_tasks failing_env [out_a; out_b] [1; 0])
      ≡ₚ task_messages failing_env [out_a; out_b] /\
    errResults (run_tasks failing_env [out_a; out_b] [1; 0])
      = pre ++ Some e :: post /\
    Forall (eq None) post.
Proof.
  apply (PerformOutputs_returns_last_error_received
           failing_env [out_a; out_b] [1; 0]).
  - apply perm_swap.
  - exists 0, out_a. split; [reflexivity | discriminate].
Defined.

Lemma PerformOutputs_keeps_positions_witness :
  length [Output.with_Version {[ "ref" := "git" ]} out_a;
          Output.with_Version {[ "ref" := "s3" ]} out_b] = 2 /\
  forall i output,
    [out_a; out_b] !! i = Some output ->
    exists streamOut resource computedOutput,
      container_StreamOut stamping_env i "/tmp/build/src/"
        = inr streamOut /\
      tracker_Init stamping_env i (Output.Type_ output)
        (event.mkOrigin event.OriginTypeOutput (Output.Name output))
        = inr resource /\
      resource_Out stamping_env i resource streamOut output
        = (computedOutput, None) /\
      [Output.with_Version {[ "ref" := "git" ]} out_a;
       Output.with_Version {[ "ref" := "s3" ]} out_b] !! i
        = Some computedOutput.
Proof.
  apply (PerformOutputs_keeps_positions
           stamping_env [out_a; out_b] [1; 0]).
  - apply perm_swap.
  - reflexivity.
Defined.


Lemma PerformOutputs_slice_is_order_independent_witness :
  exists res err1 err2,
    PerformOutputs failing_env [out_a; out_b] [0; 1] = Some (res, err1) /\
    PerformOutputs failing_env [out_a; out_b] [1; 0] = Some (res, err2) /\
    (err1 = None <-> err2 = None).
Proof.
  apply (PerformOutputs_slice_is_order_independent failing_env
           [out_a; out_b] [0; 1] [1; 0]).
  - reflexivity.
  - apply perm_swap.
Defined.

Lemma PerformOutputs_waits_for_every_task_witness :
  PerformOutputs stamping_env [out_a; out_b] [1] = None.
Proof.
  apply (PerformOutputs_waits_for_every_task stamping_env
           [out_a; out_b] [1]).
  simpl. lia.
Defined.

End outputs.

(** ** Package [builder]: [builder/builder.go] *)

Module builder.

Import resource.

(** Live handles of the container runtime and of the event package. *)
Record Container : Type := mkContainer { Handle : string }.
Record Process : Type := mkProcess { ID : N }.
Record Emitter : Type := mkEmitter { emitter_id : string }.

#[global] Instance Container_eq_dec : EqDecision Container.
Proof. solve_decision. Defined.

(** [logwriter.NewWriter(emitter, origin)]. *)
Record Writer : Type := NewWriter {
  writer_emitter : Emitter;
  writer_origin : event.Origin
}.

Record ProcessIO : Type := mkProcessIO {
  Stdout : Writer;
  Stderr : Writer
}.

Record ContainerSpec : Type := mkContainerSpec { RootFSPath : string }.

(** [warden.ProcessSpec]; its [TTY] is always [&warden.TTYSpec{}] and is
    left out. *)
Record ProcessSpec : Type := mkProcessSpec {
  ProcessPath : string;
  ProcessArgs : list string;
  ProcessEnv : list string;
  Dir : string;
  ProcessPrivileged : bool
}.

Record RunningBuild : Type := mkRunningBuild {
  RunningBuild_Build : Build;
  RunningBuild_ContainerHandle : string;
  RunningBuild_Container : option Container;
  RunningBuild_ProcessID : N;
  RunningBuild_Process : option Process;
  RunningBuild_Emitter : option Emitter
}.

Definition RunningBuild_zero : RunningBuild :=
  mkRunningBuild Build_zero "" None 0%N None None.

Record SucceededBuild : Type := mkSucceededBuild {
  SucceededBuild_Build : Build;
  SucceededBuild_ContainerHandle : string;
  SucceededBuild_Container : option Container;
  SucceededBuild_Emitter : option Emitter
}.

Definition SucceededBuild_zero : SucceededBuild :=
  mkSucceededBuild Build_zero "" None None.

(** Calls leaving the builder, each with what it returned. *)
Inductive Call : Type :=
| CreateEmitter (logsURL : string) (em : Emitter)
| EmitEvent (em : Emitter) (ev : event.Event)
| EmitterClose (em : Emitter)
| TrackerInit (typ : string) (eventLog : Writer) (r : error + Resource)
| TrackerRelease (res : Resource)
| ResourceIn (res : Resource) (input : Input.t)
             (r : error + (Stream * Input.t * Config))
| ClientCreate (spec : ContainerSpec) (r : error + Container)
| ClientLookup (handle : string) (r : error + Container)
| ContainerStreamIn (c : Container) (dst : string) (src : Stream)
                    (r : option error)
| ContainerRun (c : Container) (spec : ProcessSpec) (io : ProcessIO)
               (r : error + Process)
| ContainerAttach (c : Container) (pid : N) (io : ProcessIO)
                  (r : error + Process)
| ContainerStop (c : Container) (kill : bool)
| ProcessWait (p : Process)
| TimeNow (unix : Z).

(** How a call that may wait for ever ends. *)
Inductive ended (A : Type) : Type :=
| Returned (a : A)
| Panicked
| Blocked.

Arguments Returned {A}.
Arguments Panicked {A}.
Arguments Blocked {A}.

(** What the [select] of [waitForRunToEnd] finds when it commits: what
    [Process.Wait] has returned, if it has returned; whether [abort] is
    closed; and which case the runtime picks when both are ready. *)
Record Race : Type := mkRace {
  waited : option (Z * option error);
  abort_closed : bool;
  prefer_abort : bool
}.

Inductive Selected : Type :=
| SelectStatus (status : Z)
| SelectErr (err : error)
| SelectAbort
| SelectNone.

(** The order in which [range] visits a Go map is not specified: any
    order of the entries may come up. *)
Class MapRange : Type := mkMapRange {
  range_map : forall {A}, gmap string A -> list (string * A);
  range_map_perm : forall A (m : gmap string A),
    range_map m ≡ₚ map_to_list m
}.

Section Builder.
Context {W : Type} `{MapRange}.

(** The collaborators of a [builder]: the emitter factory and its
    emitters, the resource tracker and its resources, the container
    runtime, the clock, and [Config.Merge], which is declared outside
    the sources. *)
Record Env : Type := mkEnv {
  createEmitter : string -> W -> Emitter * W;
  emitter_EmitEvent : Emitter -> event.Event -> W -> W;
  emitter_Close : Emitter -> W -> W;
  tracker_Init : string -> Writer -> W -> (error + Resource) * W;
  tracker_Release : Resource -> W -> W;
  resource_In :
    Resource -> Input.t -> W -> (error + (Stream * Input.t * Config)) * W;
  client_Create : ContainerSpec -> W -> (error + Container) * W;
  client_Lookup : string -> W -> (error + Container) * W;
  container_StreamIn :
    Container -> string -> Stream -> W -> option error * W;
  container_Run :
    Container -> ProcessSpec -> ProcessIO -> W -> (error + Process) * W;
  container_Attach :
    Container -> N -> ProcessIO -> W -> (error + Process) * W;
  container_Stop : Container -> bool -> W -> W;
  time_Now_Unix : W -> Z * W;
  Config_Merge : Config -> Config -> Config
}.

Record State : Type := mkState {
  world : W;
  calls : list Call
}.

(** Ask the world, and log the call with its answer. *)
Definition perform {A} (oracle : W -> A * W) (log : A -> Call)
  : M State A :=
  fun st =>
    let r := oracle (world st) in
    (fst r, mkState (snd r) (calls st ++ [log (fst r)])).

(** A call whose result the builder drops. *)
Definition tell (effect : W -> W) (log : Call) : M State unit :=
  fun st => (tt, mkState (effect (world st)) (calls st ++ [log])).

Variable E : Env.

Definition EmitEvent_ (em : Emitter) (ev : event.Event) : M State unit :=
  tell (emitter_EmitEvent E em ev) (EmitEvent em ev).

Definition Close_ (em : Emitter) : M State unit :=
  tell (emitter_Close E em) (EmitterClose em).

Definition emitterProcessIO (emitter : Emitter) : ProcessIO :=
  mkProcessIO
    (NewWriter emitter (event.mkOrigin event.OriginTypeRun "stdout"))
    (NewWriter emitter (event.mkOrigin event.OriginTypeRun "stderr")).

Definition createBuildContainer (buildConfig : Config)
    (emitter : Emitter) : M State (error + Container) :=
  do EmitEvent_ emitter (event.Initialize buildConfig) then
  let containerSpec := mkContainerSpec (Image buildConfig) in
  perform (client_Create E containerSpec) (ClientCreate containerSpec).

(** [destination, found := paths[name]; if !found { destination = name }] *)
Definition destination_of (paths : gmap string string) (name : string)
  : string :=
  match paths !! name with
  | Some destination => destination
  | None => name
  end.

(** The body of [for name, streamOut := range resources], over the
    entries in the order the runtime visits them. *)
Fixpoint streamIn_each (container : Container)
    (paths : gmap string string) (entries : list (string * Stream))
  : M State (option error) :=
  match entries with
  | [] => ret None
  | (name, streamOut) :: entries =>
      let destination := destination_of paths name in
      let* err :=
        perform
          (container_StreamIn E container
             ("/tmp/build/src/" +:+ destination) streamOut)
          (ContainerStreamIn container
             ("/tmp/build/src/" +:+ destination) streamOut) in
      match err with
      | Some err => ret (Some err)
      | None => streamIn_each container paths entries
      end
  end.

Definition streamInResources (container : Container)
    (resources : gmap string Stream) (paths : gmap string string)
  : M State (option error) :=
  streamIn_each container paths (range_map resources).

Definition runBuild (container : Container) (privileged : bool)
    (buildConfig : Config) (emitter : Emitter)
  : M State (error + Process) :=
  let* now := perform (time_Now_Unix E) TimeNow in
  do EmitEvent_ emitter (event.Start now) then
  let env :=
    (fun nv => fst nv +:+ "=" +:+ snd nv)
      <$> range_map (ConfigParams buildConfig) in
  let spec :=
    mkProcessSpec (Path (Run buildConfig)) (Args (Run buildConfig))
                  env "/tmp/build/src" privileged in
  perform (container_Run E container spec (emitterProcessIO emitter))
          (ContainerRun container spec (emitterProcessIO emitter)).

(** What the loop over [build.Inputs] of [Start] has built so far:
    the build, the map [resources], and the resources whose release is
    deferred, the latest first. *)
Record Fetching : Type := mkFetching {
  fetching_build : Build;
  fetching_resources : gmap string Stream;
  fetching_deferred : list Resource
}.

(** [for i, input := range build.Inputs]; [Some err] when an iteration
    leaves [Start] with [err]. *)
Fixpoint fetch_each (emitter : Emitter) (i : nat)
    (inputs : list Input.t) (f : Fetching)
  : M State (option error * Fetching) :=
  match inputs with
  | [] => ret (None, f)
  | input :: inputs =>
      let eventLog :=
        NewWriter emitter
          (event.mkOrigin event.OriginTypeInput (Input.Name input)) in
      let* r :=
        perform (tracker_Init E (Input.Type_ input) eventLog)
                (TrackerInit (Input.Type_ input) eventLog) in
      match r with
      | inl err => ret (Some err, f)
      | inr resource =>
          let deferred := resource :: fetching_deferred f in
          let* r :=
            perform (resource_In E resource input)
                    (ResourceIn resource input) in
          match r with
          | inl err =>
              ret (Some err,
                   mkFetching (fetching_build f) (fetching_resources f)
                              deferred)
          | inr (tarStream, computedInput, buildConfig) =>
              let build := fetching_build f in
              let build :=
                with_Inputs (<[i := computedInput]> (Inputs build))
                            build in
              let build :=
                with_Config
                  (Config_Merge E (BuildConfig build) buildConfig)
                  build in
              fetch_each emitter (S i) inputs
                (mkFetching build
                   (<[Input.Name input := tarStream]>
                      (fetching_resources f))
                   deferred)
          end
      end
  end.

(** The deferred [tracker.Release] calls, run when [Start] returns. *)
Fixpoint release_each (deferred : list Resource) : M State unit :=
  match deferred with
  | [] => ret tt
  | resource :: deferred =>
      do tell (tracker_Release E resource) (TrackerRelease resource) then
      release_each deferred
  end.

Definition Start (build : Build) : M State (RunningBuild * option error) :=
  let* emitter :=
    perform (createEmitter E (EventsCallback build))
            (CreateEmitter (EventsCallback build)) in
  let* fetched :=
    fetch_each emitter 0 (Inputs build) (mkFetching build ∅ []) in
  let build := fetching_build (snd fetched) in
  let resources := fetching_resources (snd fetched) in
  let* result :=
    match fst fetched with
    | Some err =>
        do Close_ emitter then ret (RunningBuild_zero, Some err)
    | None =>
        let* r := createBuildContainer (BuildConfig build) emitter in
        match r with
        | inl err =>
            do Close_ emitter then ret (RunningBuild_zero, Some err)
        | inr container =>
            let* err :=
              streamInResources container resources
                                (Paths (BuildConfig build)) in
            match err with
            | Some err =>
                do Close_ emitter then ret (RunningBuild_zero, Some err)
            | None =>
                let* r :=
                  runBuild container (Privileged build)
                           (BuildConfig build) emitter in
                match r with
                | inl err =>
                    do Close_ emitter then
                    ret (RunningBuild_zero, Some err)
                | inr process =>
                    ret (mkRunningBuild build (Handle container)
                           (Some container) (ID process) (Some process)
                           (Some emitter),
                         None)
                end
            end
        end
    end in
  do release_each (fetching_deferred (snd fetched)) then
  ret result.

(** The goroutine sends on [errCh] when [Wait] returned an error and on
    [statusCh] otherwise. *)
Definition select_wait (r : Z * option error) : Selected :=
  match snd r with
  | Some err => SelectErr err
  | None => SelectStatus (fst r)
  end.

Definition select (race : Race) : Selected :=
  match waited race, abort_closed race with
  | Some r, false => select_wait r
  | Some r, true => if prefer_abort race then SelectAbort else select_wait r
  | None, true => SelectAbort
  | None, false => SelectNone
  end.

Definition waitForRunToEnd (running : RunningBuild) (race : Race)
  : M State (ended (Z * option error)) :=
  match RunningBuild_Process running with
  | None => ret Panicked
  | Some process =>
      do tell id (ProcessWait process) then
      match select race with
      | SelectStatus status => ret (Returned (status, None))
      | SelectErr err => ret (Returned (0%Z, Some err))
      | SelectAbort =>
          match RunningBuild_Container running with
          | None => ret Panicked
          | Some container =>
              do tell (container_Stop E container false)
                      (ContainerStop container false) then
              ret (Returned (0%Z, Some ErrAborted))
          end
      | SelectNone => ret Blocked
      end
  end.

(** [Attach] returns the build, the error of a failed build, and the
    error of a failed attach, in that order. *)
Definition Attach (running : RunningBuild) (race : Race)
  : M State (ended (SucceededBuild * option error * option error)) :=
  let* emitter :=
    match RunningBuild_Emitter running with
    | Some emitter => ret emitter
    | None =>
        perform
          (createEmitter E (EventsCallback (RunningBuild_Build running)))
          (CreateEmitter (EventsCallback (RunningBuild_Build running)))
    end in
  let* r :=
    match RunningBuild_Container running with
    | Some container => ret (inr container)
    | None =>
        perform
          (client_Lookup E (RunningBuild_ContainerHandle running))
          (ClientLookup (RunningBuild_ContainerHandle running))
    end in
  match r with
  | inl err =>
      do Close_ emitter then
      ret (Returned (SucceededBuild_zero, None, Some err))
  | inr container =>
      let* r :=
        match RunningBuild_Process running with
        | Some process => ret (inr process)
        | None =>
            perform
              (container_Attach E container
                 (RunningBuild_ProcessID running)
                 (emitterProcessIO emitter))
              (ContainerAttach container
                 (RunningBuild_ProcessID running)
                 (emitterProcessIO emitter))
        end in
      match r with
      | inl err =>
          do Close_ emitter then
          ret (Returned (SucceededBuild_zero, None, Some err))
      | inr process =>
          let running :=
            mkRunningBuild
              (RunningBuild_Build running)
              (RunningBuild_ContainerHandle running) (Some container)
              (RunningBuild_ProcessID running) (Some process)
              (Some emitter) in
          let* r := waitForRunToEnd running race in
          match r with
          | Returned (status, Some err) =>
              do Close_ emitter then
              ret (Returned (SucceededBuild_zero, None, Some err))
          | Returned (status, None) =>
              if decide (status <> 0%Z) then
                ret (Returned
                       (SucceededBuild_zero,
                        Some (errorString
                                ("exit status " +:+ pretty status)),
                        None))
              else
                ret (Returned
                       (mkSucceededBuild (RunningBuild_Build running) ""
                          (Some container) (Some emitter),
                        None, None))
          | Panicked => ret Panicked
          | Blocked => ret Blocked
          end
      end
  end.

(** *** [performOutputs] and [Complete] *)

(** The collaborators of the goroutines of [performOutputs], answering
    per goroutine as in package [outputs]. *)
Variable P : outputs.Env.

(** The implicit output of an input. *)
Definition implicit_output (input : Input.t) : Output.t :=
  Output.mk (Input.Name input) (Input.Type_ input) (Input.Source input)
            ∅ "" [] (Input.Version input) (Input.Metadata input).

(** [allOutputs] after the loop over [build.Inputs]. *)
Definition implicit_outputs (inputs : list Input.t)
  : gmap string Output.t :=
  foldl (fun allOutputs input =>
           <[Input.Name input := implicit_output input]> allOutputs)
        ∅ inputs.

(** What one goroutine sends: one value on [errs] and, when it got as
    far as [Out], one on [results]. *)
Record Performing : Type := mkPerforming {
  perform_err : option error;
  perform_result : option Output.t
}.

(** The body of [go func(output builds.Output)], for the goroutine of
    the [i]-th output. *)
Definition perform_output (allOutputs : gmap string Output.t)
    (i : nat) (output : Output.t) : Performing :=
  let output :=
    match allOutputs !! Output.Name output with
    | Some inputOutput =>
        Output.with_Version (Output.Version inputOutput) output
    | None => output
    end in
  match outputs.container_StreamOut P i "/tmp/build/src/" with
  | inl err => mkPerforming (Some err) None
  | inr streamOut =>
      let origin :=
        event.mkOrigin event.OriginTypeOutput (Output.Name output) in
      match outputs.tracker_Init P i (Output.Type_ output) origin with
      | inl err => mkPerforming (Some err) None
      | inr resource =>
          let r := outputs.resource_Out P i resource streamOut output in
          mkPerforming (snd r) (Some (fst r))
      end
  end.

(** The loop [for i := 0; i < n; i++ { output := <-results;
    allOutputs[output.Name] = output }]. *)
Fixpoint receive_results (n : nat) (results : list Output.t)
    (allOutputs : gmap string Output.t)
  : option (gmap string Output.t) :=
  match n with
  | O => Some allOutputs
  | S n' =>
      match results with
      | [] => None
      | output :: results =>
          receive_results n' results
            (<[Output.Name output := output]> allOutputs)
      end
  end.

(** [for _, output := range allOutputs { outputs = append(outputs,
    output) }]. *)
Definition collect (allOutputs : gmap string Output.t)
  : list Output.t :=
  (range_map allOutputs).*2.

(** [performOutputs], with the orders in which the goroutines' values
    arrive on [errs] and on [results].  Returned are the outputs a
    goroutine was started for, and how the call ends; with a nil
    container the first goroutine to run panics. *)
Definition performOutputs (container : option Container) (build : Build)
    (sched_errs sched_results : list nat)
  : list Output.t * ended (list Output.t * option error) :=
  let allOutputs := implicit_outputs (Inputs build) in
  let n := length (Outputs build) in
  if decide (0 < n) then
    (Outputs build,
     match container with
     | None => Panicked
     | Some _ =>
         let errs :=
           omap (fun i =>
                   (fun output =>
                      perform_err (perform_output allOutputs i output))
                     <$> Outputs build !! i)
                sched_errs in
         let results :=
           omap (fun i =>
                   (Outputs build !! i) ≫=
                     (fun output =>
                        perform_result
                          (perform_output allOutputs i output)))
                sched_results in
         match outputs.receive_all n errs None with
         | None => Blocked
         | Some (Some outputErr, _) => Returned ([], Some outputErr)
         | Some (None, _) =>
             match receive_results n results allOutputs with
             | None => Blocked
             | Some allOutputs => Returned (collect allOutputs, None)
             end
         end
     end)
  else ([], Returned (collect allOutputs, None)).

(** [Complete].  The log of calls holds what [Complete] calls in its own
    goroutine, the creation and the close of the emitter; what the
    goroutines of [performOutputs] call is answered by [P], goroutine by
    goroutine, and is not interleaved into that log. *)
Definition Complete (succeeded : SucceededBuild)
    (sched_errs sched_results : list nat)
  : M State (ended (Build * option error)) :=
  let* emitter :=
    match SucceededBuild_Emitter succeeded with
    | Some emitter => ret emitter
    | None =>
        perform
          (createEmitter E
             (EventsCallback (SucceededBuild_Build succeeded)))
          (CreateEmitter
             (EventsCallback (SucceededBuild_Build succeeded)))
    end in
  match snd (performOutputs (SucceededBuild_Container succeeded)
               (SucceededBuild_Build succeeded)
               sched_errs sched_results) with
  | Returned (outputs, Some err) =>
      do Close_ emitter then ret (Returned (Build_zero, Some err))
  | Returned (outputs, None) =>
      do Close_ emitter then
      ret (Returned
             (with_Outputs outputs (SucceededBuild_Build succeeded),
              None))
  | Panicked => ret Panicked
  | Blocked => ret Blocked
  end.

(** *** Reading the log of calls *)

(** The [StreamIn] calls of a log: container, destination, stream. *)
Definition stream_ins (log : list Call)
  : list (Container * string * Stream) :=
  omap (fun c => match c with
                 | ContainerStreamIn c dst src _ => Some (c, dst, src)
                 | _ => None
                 end) log.

(** The inputs a log shows as fetched: name and tar stream of every
    [In] that returned no error. *)
Definition fetches (log : list Call) : list (string * Stream) :=
  omap (fun c => match c with
                 | ResourceIn _ input (inr (tarStream, _, _)) =>
                     Some (Input.Name input, tarStream)
                 | _ => None
                 end) log.

(** [resources[name] = tarStream], one fetched input after the other. *)
Definition resources_of (fetched : list (string * Stream))
  : gmap string Stream :=
  foldl (fun resources entry => <[fst entry := snd entry]> resources)
        ∅ fetched.

(** The [StreamIn] that [streamInResources] makes for one entry. *)
Definition stream_in_of (container : Container)
    (paths : gmap string string) (entry : string * Stream)
  : Container * string * Stream :=
  (container, "/tmp/build/src/" +:+ destination_of paths (fst entry),
   snd entry).

Lemma stream_ins_app l1 l2 :
  stream_ins (l1 ++ l2) = stream_ins l1 ++ stream_ins l2.
Proof. apply omap_app. Qed.

Lemma fetches_app l1 l2 : fetches (l1 ++ l2) = fetches l1 ++ fetches l2.
Proof. apply omap_app. Qed.

Lemma fetch_each_ok emitter inputs : forall i f st f' st',
  fetch_each emitter i inputs f st = ((None, f'), st') ->
  exists new,
    calls st' = calls st ++ new /\
    stream_ins new = [] /\
    (fetches new).*1 = Input.Name <$> inputs /\
    fetching_resources f' =
      foldl (fun resources entry => <[fst entry := snd entry]> resources)
            (fetching_resources f) (fetches new).
Proof.
  induction inputs as [|input inputs IH]; intros i f st f' st'; cbn.
  - intros [= <- <-]. exists []. rewrite app_nil_r. auto.
  - cbv beta iota zeta delta [bind perform ret]; cbn [fst snd].
    destruct (tracker_Init E (Input.Type_ input) _ (world st))
      as [[err|resource] w1]; cbn [fst snd world calls]; [discriminate|].
    destruct (resource_In E resource input w1)
      as [[err|[[tarStream computedInput] buildConfig]] w2];
      cbn [fst snd world calls]; [discriminate|].
    intros Hf. apply IH in Hf as (new & Hc & Hs & Hn & Hr).
    cbn [calls fetching_resources] in *.
    eexists (_ :: _ :: new). split; [|split; [|split]].
    + rewrite Hc, <- !app_assoc. reflexivity.
    + exact Hs.
    + unfold fetches in *. csimpl. f_equal. exact Hn.
    + rewrite Hr. reflexivity.
Qed.

Lemma streamIn_each_ok container paths entries : forall st st',
  streamIn_each container paths entries st = (None, st') ->
  exists new,
    calls st' = calls st ++ new /\
    stream_ins new = stream_in_of container paths <$> entries /\
    fetches new = [].
Proof.
  induction entries as [|[name streamOut] entries IH]; intros st st'; cbn.
  - intros [= <-]. exists []. rewrite app_nil_r. auto.
  - cbv beta iota zeta delta [bind perform ret]; cbn [fst snd].
    destruct (container_StreamIn E container _ streamOut (world st))
      as [[err|] w1]; cbn [fst snd world calls]; [discriminate|].
    intros Hs. apply IH in Hs as (new & Hc & Hs & Hf).
    cbn [calls] in Hc. eexists (_ :: new). split; [|split].
    + rewrite Hc, <- app_assoc. reflexivity.
    + unfold stream_ins in *. csimpl. rewrite Hs. reflexivity.
    + exact Hf.
Qed.

Lemma release_each_calls deferred : forall st,
  exists new,
    calls (snd (release_each deferred st)) = calls st ++ new /\
    stream_ins new = [] /\ fetches new = [].
Proof.
  induction deferred as [|resource deferred IH]; intros st; cbn.
  - exists []. rewrite app_nil_r. auto.
  - cbv beta iota zeta delta [bind tell]; cbn [fst snd].
    match goal with |- context [release_each deferred ?s1] =>
      destruct (IH s1) as (new & Hc & Hs & Hf) end.
    cbn [calls] in Hc. exists (TrackerRelease resource :: new).
    split; [|auto]. rewrite Hc, <- app_assoc. reflexivity.
Qed.

(** A map filled by [m[key x] = val x] over a list holds, under a key,
    the value of the last element with that key, and what it held before
    when the list has no element with that key. *)
Lemma lookup_foldl_insert_last {X V} (key : X -> string) (val : X -> V)
    (l : list X) : forall (m : gmap string V) k,
  foldl (fun m x => <[key x := val x]> m) m l !! k
    = match last (filter (fun x => key x = k) l) with
      | Some x => Some (val x)
      | None => m !! k
      end.
Proof.
  induction l as [|x l IH]; intros m k; [reflexivity|].
  cbn [foldl]. rewrite IH, filter_cons.
  destruct (decide (key x = k)) as [Heq|Hne].
  - rewrite last_cons. destruct (last (filter _ l)); [reflexivity|].
    rewrite Heq. apply lookup_insert_eq.
  - destruct (last (filter _ l)); [reflexivity|].
    apply lookup_insert_ne. exact Hne.
Qed.

Lemma last_filter_Some {X} (Q : X -> Prop) `{forall x, Decision (Q x)}
    (l : list X) (x : X) :
  last (filter Q l) = Some x -> Q x /\ x ∈ l.
Proof.
  intros Hl. apply last_Some_elem_of in Hl.
  apply list_elem_of_filter in Hl. exact Hl.
Qed.

Lemma resources_of_NoDup (fetched : list (string * Stream)) :
  NoDup fetched.*1 -> resources_of fetched = list_to_map fetched.
Proof.
  unfold resources_of.
  induction fetched as [|[name tarStream] fetched IH] using rev_ind;
    [reflexivity|].
  rewrite fmap_app, NoDup_app. cbn. intros (Hnd & Hnot & _).
  rewrite foldl_snoc, IH by exact Hnd. cbn.
  symmetry. apply list_to_map_snoc.
  intros Hin. apply (Hnot name Hin). apply list_elem_of_singleton.
  reflexivity.
Qed.

(** *** What [Start] streams into the build container *)

(** C6 as stated, for a build without inputs: exactly one [StreamIn],
    into ["/tmp/build/src"]. *)
Definition streams_one_tar_into_src (log : list Call) : Prop :=
  exists container tar,
    stream_ins log = [(container, "/tmp/build/src", tar)].

(** C6 as stated, for the fetched inputs: the tar stream of every fetched
    input is streamed in. *)
Definition streams_every_fetched_input (log : list Call) : Prop :=
  forall entry,
    entry ∈ fetches log ->
    exists container dst, (container, dst, snd entry) ∈ stream_ins log.

(** The [StreamIn] calls of a [Start] that returns no error are those
    that [streamInResources] makes for the entries of [resources]. *)
Lemma Start_stream_ins
    (build : Build) (st st' : State) (running : RunningBuild) :
  Start build st = ((running, None), st') ->
  exists new container,
    calls st' = calls st ++ new /\
    RunningBuild_Container running = Some container /\
    (fetches new).*1 = Input.Name <$> Inputs build /\
    let paths := Paths (BuildConfig (RunningBuild_Build running)) in
    stream_ins new ≡ₚ
      stream_in_of container paths
        <$> map_to_list (resources_of (fetches new)) /\
    (NoDup (Input.Name <$> Inputs build) ->
     stream_ins new ≡ₚ stream_in_of container paths <$> fetches new).
Proof.
  unfold Start.
  cbv beta iota zeta delta
    [bind perform ret createBuildContainer streamInResources runBuild
     EmitEvent_ Close_ tell]; cbn [fst snd].
  destruct (createEmitter E (EventsCallback build) (world st))
    as [emitter w1]; cbn [fst snd world calls].
  match goal with |- context [fetch_each emitter 0 ?ins ?f0 ?s1] =>
    destruct (fetch_each emitter 0 ins f0 s1) as [[[err|] f'] st2]
      eqn:Hfetch end; cbn [fst snd world calls]; [discriminate|].
  apply fetch_each_ok in Hfetch as (new1 & Hc1 & Hs1 & Hn1 & Hr1).
  cbn [calls fetching_resources] in Hc1, Hr1.
  destruct (client_Create E _ _) as [[err|container] w3];
    cbn [fst snd world calls]; [discriminate|].
  match goal with |- context [streamIn_each container ?ps ?es ?s3] =>
    destruct (streamIn_each container ps es s3) as [[err|] st4]
      eqn:Hstream end; cbn [fst snd world calls]; [discriminate|].
  apply streamIn_each_ok in Hstream as (new2 & Hc2 & Hs2 & Hf2).
  cbn [calls] in Hc2.
  destruct (time_Now_Unix E (world st4)) as [now w5];
    cbn [fst snd world calls].
  destruct (container_Run E container _ _ _) as [[err|process] w6];
    cbn [fst snd world calls]; [discriminate|].
  match goal with |- context [release_each ?d ?s6] =>
    destruct (release_each_calls d s6) as (new3 & Hc3 & Hs3 & Hf3) end.
  cbn [calls] in Hc3.
  intros [= <- <-]. cbn [RunningBuild_Container RunningBuild_Build].
  eexists (_ :: new1 ++ _ :: _ :: new2 ++ _ :: _ :: _ :: new3), container.
  assert (forall a (l : list Call), a :: l = [a] ++ l) as Hcons
    by reflexivity.
  split.
  { rewrite Hc3, Hc2, Hc1. rewrite <- !app_assoc. reflexivity. }
  split; [reflexivity|].
  match goal with |- (fetches ?l).*1 = _ /\ _ =>
    assert (fetches l = fetches new1) as Hfetches;
    [|assert (stream_ins l =
                stream_in_of container
                  (Paths (BuildConfig (fetching_build f')))
                  <$> range_map (fetching_resources f')) as Hins]
  end.
  { rewrite (Hcons (CreateEmitter _ _)), (Hcons (EmitEvent _ _)),
      (Hcons (ClientCreate _ _)), (Hcons (TimeNow _)),
      (Hcons (EmitEvent _ (event.Start _))), (Hcons (ContainerRun _ _ _ _)).
    rewrite !fetches_app, Hf2, Hf3. cbn. rewrite !app_nil_r. reflexivity. }
  { rewrite (Hcons (CreateEmitter _ _)), (Hcons (EmitEvent _ _)),
      (Hcons (ClientCreate _ _)), (Hcons (TimeNow _)),
      (Hcons (EmitEvent _ (event.Start _))), (Hcons (ContainerRun _ _ _ _)).
    rewrite !stream_ins_app, Hs1, Hs2, Hs3. cbn. rewrite !app_nil_r.
    reflexivity. }
  rewrite Hfetches, Hins. clear Hfetches Hins.
  assert (fetching_resources f' = resources_of (fetches new1)) as Hres
    by exact Hr1.
  rewrite Hres.
  split; [exact Hn1|]. cbn zeta. split.
  - rewrite range_map_perm. reflexivity.
  - intros Hnd. rewrite range_map_perm.
    rewrite resources_of_NoDup by (rewrite Hn1; exact Hnd).
    rewrite map_to_list_to_map by (rewrite Hn1; exact Hnd).
    reflexivity.
Qed.

(** The entries of [resources] after the inputs of a log were fetched:
    one per name, with the tar stream fetched last under that name. *)
Lemma elem_of_resources_of (fetched : list (string * Stream))
    (name : string) (tarStream : Stream) :
  (name, tarStream) ∈ map_to_list (resources_of fetched) <->
  last (filter (fun entry => fst entry = name) fetched)
    = Some (name, tarStream).
Proof.
  rewrite elem_of_map_to_list. unfold resources_of.
  rewrite (lookup_foldl_insert_last fst snd fetched ∅ name).
  destruct (last (filter (fun entry => fst entry = name) fetched))
    as [[name' tarStream']|] eqn:Hlast; cbn.
  - apply last_filter_Some in Hlast as [Hname _]. cbn in Hname. subst name'.
    split; intros [= ->]; reflexivity.
  - rewrite lookup_empty. split; discriminate.
Qed.

(** C6, amended: a [Start] that returns no error has fetched every input,
    and its [StreamIn] calls on the build container are, in some order,
    one per name of a fetched input, with the tar stream fetched last
    under that name, at ["/tmp/build/src/" + paths[name]] when the paths
    of the merged config map the name and at ["/tmp/build/src/" + name]
    otherwise.  When the names of the inputs are distinct that is one
    per fetched input. *)
Theorem Start_streams_in_resources_by_name
    (build : Build) (st st' : State) (running : RunningBuild) :
  Start build st = ((running, None), st') ->
  exists new container entries,
    calls st' = calls st ++ new /\
    RunningBuild_Container running = Some container /\
    (fetches new).*1 = Input.Name <$> Inputs build /\
    NoDup entries.*1 /\
    (forall name tarStream,
        (name, tarStream) ∈ entries <->
        last (filter (fun fetched => fst fetched = name) (fetches new))
          = Some (name, tarStream)) /\
    stream_ins new ≡ₚ
      (fun entry =>
         (container,
          "/tmp/build/src/" +:+
            match Paths (BuildConfig (RunningBuild_Build running))
                    !! fst entry with
            | Some destination => destination
            | None => fst entry
            end,
          snd entry)) <$> entries /\
    (NoDup (Input.Name <$> Inputs build) -> entries ≡ₚ fetches new).
Proof.
  intros Hrun.
  destruct (Start_stream_ins build st st' running Hrun)
    as (new & container & Hc & Hcont & Hnames & Hins & _).
  exists new, container, (map_to_list (resources_of (fetches new))).
  split; [exact Hc|]. split; [exact Hcont|]. split; [exact Hnames|].
  split; [apply NoDup_fst_map_to_list|].
  split; [intros name tarStream; apply elem_of_resources_of|].
  split; [exact Hins|].
  intros Hnd. rewrite resources_of_NoDup by (rewrite Hnames; exact Hnd).
  apply map_to_list_to_map. rewrite Hnames. exact Hnd.
Qed.

(** *** What [Attach] does once it waits for the process *)

(** The [Stop] calls of a log: container and the [kill] flag. *)
Definition stops (log : list Call) : list (Container * bool) :=
  omap (fun c => match c with
                 | ContainerStop c kill => Some (c, kill)
                 | _ => None
                 end) log.

(** The events a log shows as emitted. *)
Definition emitted (log : list Call) : list event.Event :=
  omap (fun c => match c with
                 | EmitEvent _ ev => Some ev
                 | _ => None
                 end) log.

(** The emitter, container and process [Attach] works with: the cached
    ones, or else the ones it obtained. *)
Definition attach_emitter (running : RunningBuild) (log : list Call)
    (emitter : Emitter) : Prop :=
  match RunningBuild_Emitter running with
  | Some cached => emitter = cached
  | None =>
      CreateEmitter (EventsCallback (RunningBuild_Build running)) emitter
        ∈ log
  end.

Definition attach_container (running : RunningBuild) (log : list Call)
    (container : Container) : Prop :=
  match RunningBuild_Container running with
  | Some cached => container = cached
  | None =>
      ClientLookup (RunningBuild_ContainerHandle running) (inr container)
        ∈ log
  end.

(** What [Attach] returns for a process that exited with [status]. *)
Definition exited (running : RunningBuild) (container : Container)
    (emitter : Emitter) (status : Z)
  : SucceededBuild * option error * option error :=
  if decide (status = 0%Z) then
    (mkSucceededBuild (RunningBuild_Build running) ""
       (Some container) (Some emitter), None, None)
  else
    (SucceededBuild_zero,
     Some (errorString ("exit status " +:+ pretty status)), None).

Lemma Attach_waiting running race st res st' new :
  Attach running race st = (res, st') ->
  calls st' = calls st ++ new ->
  (exists process, ProcessWait process ∈ new) ->
  exists emitter container process pre,
    attach_emitter running pre emitter /\
    attach_container running pre container /\
    stops pre = [] /\ emitted pre = [] /\
    match select race with
    | SelectStatus status =>
        new = pre ++ [ProcessWait process] /\
        res = Returned (exited running container emitter status)
    | SelectErr err =>
        new = pre ++ [ProcessWait process; EmitterClose emitter] /\
        res = Returned (SucceededBuild_zero, None, Some err)
    | SelectAbort =>
        new = pre ++ [ProcessWait process; ContainerStop container false;
                      EmitterClose emitter] /\
        res = Returned (SucceededBuild_zero, None, Some ErrAborted)
    | SelectNone =>
        new = pre ++ [ProcessWait process] /\ res = Blocked
    end.
Proof.
  unfold Attach, attach_emitter, attach_container, exited.
  destruct running as [build handle oc pid op oe]; cbn.
  cbv beta iota zeta delta
    [bind perform ret tell Close_ waitForRunToEnd]; cbn [fst snd].
  intros Hrun Hcalls Hwait.
  assert (forall (a : Call) l, a :: l = [a] ++ l) as Hcons by reflexivity.
  destruct oe as [emitter|]; cbn [fst snd world calls] in Hrun;
    [|destruct (createEmitter E (EventsCallback build) (world st))
        as [emitter w1]; cbn [fst snd world calls] in Hrun];
  (destruct oc as [container|]; cbn [fst snd world calls] in Hrun;
    [|destruct (client_Lookup E handle _) as [[err|container] w2];
      cbn [fst snd world calls] in Hrun]);
  try (destruct op as [process|]; cbn [fst snd world calls] in Hrun;
    [|destruct (container_Attach E container pid _ _)
        as [[err|process] w3]; cbn [fst snd world calls] in Hrun]);
  cbn [RunningBuild_Process RunningBuild_Container] in Hrun;
  try (destruct (select race) eqn:Hsel; cbn [fst snd world calls] in Hrun;
       try destruct (decide (status <> 0%Z));
       try destruct (decide (status = 0%Z)); try contradiction);
  try lia;
  injection Hrun as <- <-; cbn [calls] in Hcalls;
  rewrite <- ?app_assoc in Hcalls; apply app_inv_head in Hcalls;
  subst new;
  try (exfalso; destruct Hwait as [p0 Hp0];
       repeat (apply elem_of_cons in Hp0 as [Hp0|Hp0]; [discriminate|]);
       inversion Hp0; fail);
  exists emitter, container, process;
  first
    [ exists []; repeat split; try reflexivity; fail
    | eexists [_]; repeat split; try reflexivity;
        try (apply list_elem_of_singleton; reflexivity); fail
    | eexists [_; _]; repeat split; try reflexivity;
        try (apply elem_of_cons; left; reflexivity);
        try (apply elem_of_cons; right; apply elem_of_cons; left;
             reflexivity); fail
    | eexists [_; _; _]; repeat split; try reflexivity;
        try (apply elem_of_cons; left; reflexivity);
        try (apply elem_of_cons; right; apply elem_of_cons; left;
             reflexivity); fail ].
Qed.

Lemma stops_app l1 l2 : stops (l1 ++ l2) = stops l1 ++ stops l2.
Proof. apply omap_app. Qed.

Lemma emitted_app l1 l2 : emitted (l1 ++ l2) = emitted l1 ++ emitted l2.
Proof. apply omap_app. Qed.

(** C7 as stated: an [Error] event "running failed: build aborted" is
    emitted. *)
Definition emits_abort_error (log : list Call) : Prop :=
  event.Error "running failed: build aborted" ∈ emitted log.

(** C7, amended: when [Attach] has come to wait for the process and the
    [select] takes the abort case, the calls of [Attach] end with the
    [Wait], one [Stop] with [kill = false] on the build container, and the
    close of the emitter; that [Stop] is its only one, it emits no event,
    and it returns [ErrAborted] with an empty build. *)
Theorem Attach_abort_stops_container_once running race st res st' new :
  Attach running race st = (res, st') ->
  calls st' = calls st ++ new ->
  (exists process, ProcessWait process ∈ new) ->
  select race = SelectAbort ->
  exists emitter container process pre,
    attach_emitter running pre emitter /\
    attach_container running pre container /\
    new = pre ++ [ProcessWait process; ContainerStop container false;
                  EmitterClose emitter] /\
    stops new = [(container, false)] /\
    emitted new = [] /\
    res = Returned (SucceededBuild_zero, None, Some ErrAborted).
Proof.
  intros Hrun Hcalls Hwait Hsel.
  destruct (Attach_waiting _ _ _ _ _ _ Hrun Hcalls Hwait)
    as (emitter & container & process & pre & Hem & Hco & Hst & Hev & Hm).
  rewrite Hsel in Hm. destruct Hm as [-> ->].
  exists emitter, container, process, pre.
  rewrite stops_app, emitted_app, Hst, Hev.
  repeat split; assumption.
Qed.

(** C8 as stated: [Attach] returns no error and a build value that
    carries the build and the container. *)
Definition returns_exited_build (running : RunningBuild)
    (res : ended (SucceededBuild * option error * option error)) : Prop :=
  exists succeeded,
    res = Returned (succeeded, None, None) /\
    SucceededBuild_Build succeeded = RunningBuild_Build running /\
    SucceededBuild_Container succeeded <> None.

(** C8, amended: when [Attach] has come to wait for the process and the
    process exits with [status], the [Wait] is the last call of [Attach],
    which stops nothing and emits nothing; for [status = 0] it returns the
    build, the container and the emitter with both errors nil, and for any
    other status it returns an empty build and the error
    ["exit status <status>"] as the error of the build, the error of the
    attach being nil. *)
Theorem Attach_returns_build_for_status_zero
    running race st res st' new status :
  Attach running race st = (res, st') ->
  calls st' = calls st ++ new ->
  (exists process, ProcessWait process ∈ new) ->
  select race = SelectStatus status ->
  exists emitter container process pre,
    attach_emitter running pre emitter /\
    attach_container running pre container /\
    new = pre ++ [ProcessWait process] /\
    stops new = [] /\
    emitted new = [] /\
    (status = 0%Z ->
     res = Returned
             (mkSucceededBuild (RunningBuild_Build running) ""
                (Some container) (Some emitter), None, None)) /\
    (status <> 0%Z ->
     res = Returned
             (SucceededBuild_zero,
              Some (errorString ("exit status " +:+ pretty status)),
              None)).
Proof.
  intros Hrun Hcalls Hwait Hsel.
  destruct (Attach_waiting _ _ _ _ _ _ Hrun Hcalls Hwait)
    as (emitter & container & process & pre & Hem & Hco & Hst & Hev & Hm).
  rewrite Hsel in Hm. destruct Hm as [-> ->].
  exists emitter, container, process, pre.
  rewrite stops_app, emitted_app, Hst, Hev. unfold exited.
  repeat split; try assumption;
    intros Hs; destruct (decide (status = 0%Z)); congruence.
Qed.

(** *** What [Complete] returns *)

Lemma receive_results_whole results : forall allOutputs,
  receive_results (length results) results allOutputs =
    Some (foldl (fun allOutputs output =>
                   <[Output.Name output := output]> allOutputs)
                allOutputs results).
Proof. induction results as [|o results IH]; intros m; cbn; auto. Qed.

(** The values the goroutines of [build] send on [results], by
    position. *)
Definition performed_outputs (build : Build) : list Output.t :=
  omap id
    (imap (fun i output =>
             perform_result
               (perform_output (implicit_outputs (Inputs build)) i output))
          (Outputs build)).

Lemma omap_seq_bind_imap {A B} (l : list A) :
  forall (f : nat -> A -> option B),
  omap (fun i => (l !! i) ≫= f i) (seq 0 (length l))
    = omap id (imap f l).
Proof.
  induction l as [|a l IH]; intros f; [reflexivity|].
  rewrite imap_cons. cbn [length seq]. csimpl.
  rewrite <- fmap_S_seq, <- (IH (f ∘ S)).
  replace (omap (fun i => ((a :: l) !! i) ≫= f i)
                (S <$> seq 0 (length l)))
    with (omap (fun i => (l !! i) ≫= (f ∘ S) i) (seq 0 (length l))).
  - reflexivity.
  - apply list_omap_ext. apply Forall2_fmap_r, Forall_Forall2_diag.
    apply Forall_forall. intros i _. reflexivity.
Qed.

Lemma length_omap_id_imap {A B} (l : list A) :
  forall (f : nat -> A -> option B),
  (forall i a, l !! i = Some a -> is_Some (f i a)) ->
  length (omap id (imap f l)) = length l.
Proof.
  induction l as [|a l IH]; intros f Hf; [reflexivity|].
  rewrite imap_cons. csimpl.
  destruct (Hf 0 a eq_refl) as [b ->]. cbn. f_equal.
  apply IH. intros i a' Hi. apply (Hf (S i) a' Hi).
Qed.

(** A goroutine that sends nil on [errs] has run [Out] without error,
    on the output carrying the version of the input of the same name,
    and sends what [Out] computed on [results]. *)
Lemma perform_err_None allOutputs i output :
  perform_err (perform_output allOutputs i output) = None ->
  exists streamOut resource submitted computedOutput,
    submitted =
      match allOutputs !! Output.Name output with
      | Some inputOutput =>
          Output.with_Version (Output.Version inputOutput) output
      | None => output
      end /\
    outputs.container_StreamOut P i "/tmp/build/src/" = inr streamOut /\
    outputs.tracker_Init P i (Output.Type_ submitted)
      (event.mkOrigin event.OriginTypeOutput (Output.Name submitted))
      = inr resource /\
    outputs.resource_Out P i resource streamOut submitted
      = (computedOutput, None) /\
    perform_result (perform_output allOutputs i output)
      = Some computedOutput.
Proof.
  unfold perform_output.
  set (submitted := match allOutputs !! Output.Name output with
                    | Some inputOutput =>
                        Output.with_Version (Output.Version inputOutput)
                                            output
                    | None => output
                    end).
  destruct (outputs.container_StreamOut P i "/tmp/build/src/")
    as [err|streamOut] eqn:Hstream; [discriminate|].
  destruct (outputs.tracker_Init P i _ _) as [err|resource] eqn:Hinit;
    [discriminate|].
  destruct (outputs.resource_Out P i resource streamOut submitted)
    as [computedOutput err] eqn:Hout; cbn.
  intros ->. exists streamOut, resource, submitted, computedOutput.
  repeat split; assumption || reflexivity.
Qed.

(** When [performOutputs] returns a nil error, every goroutine ran [Out]
    without error, and the outputs returned are the values of the map
    of implicit outputs after the results were stored in it, in the
    order they arrived. *)
Lemma performOutputs_ok container build sched_errs sched_results outs :
  sched_errs ≡ₚ seq 0 (length (Outputs build)) ->
  sched_results ≡ₚ seq 0 (length (Outputs build)) ->
  snd (performOutputs container build sched_errs sched_results)
    = Returned (outs, None) ->
  (forall i output,
      Outputs build !! i = Some output ->
      perform_err
        (perform_output (implicit_outputs (Inputs build)) i output)
        = None) /\
  exists arrived,
    arrived ≡ₚ performed_outputs build /\
    length arrived = length (Outputs build) /\
    outs =
      collect
        (foldl (fun allOutputs output =>
                  <[Output.Name output := output]> allOutputs)
               (implicit_outputs (Inputs build)) arrived) /\
    arrived =
      omap (fun i =>
              (Outputs build !! i) ≫=
                (fun output =>
                   perform_result
                     (perform_output (implicit_outputs (Inputs build))
                        i output)))
           sched_results.
Proof.
  intros Hpe Hpr. unfold performOutputs.
  destruct (decide (0 < length (Outputs build))) as [Hlt|Hge]; cbn.
  - destruct container as [container|]; [|discriminate].
    set (allOutputs := implicit_outputs (Inputs build)).
    set (errs := omap _ sched_errs). set (results := omap _ sched_results).
    assert (errs ≡ₚ imap (fun i output =>
                            perform_err (perform_output allOutputs i output))
                         (Outputs build)) as Herrs.
    { unfold errs. rewrite Hpe. rewrite outputs.omap_seq_imap.
      reflexivity. }
    assert (results ≡ₚ performed_outputs build) as Hresults.
    { unfold results. rewrite Hpr.
      rewrite (omap_seq_bind_imap (Outputs build)
                 (fun i output =>
                    perform_result (perform_output allOutputs i output))).
      reflexivity. }
    pose proof (outputs.receive_all_whole errs None) as Hrecv.
    rewrite Herrs, length_imap in Hrecv at 1. rewrite Hrecv.
    destruct (outputs.note_errors None errs) as [e|] eqn:Hnote;
      [discriminate|].
    apply outputs.note_errors_None in Hnote as [_ Hnil].
    assert (forall i output,
               Outputs build !! i = Some output ->
               perform_err (perform_output allOutputs i output) = None)
      as Hall.
    { intros i output Hi. symmetry.
      eapply (proj1 (Forall_forall _ _) Hnil). rewrite Herrs.
      apply list_elem_of_lookup. exists i.
      rewrite list_lookup_imap, Hi. reflexivity. }
    assert (length results = length (Outputs build)) as Hlen.
    { rewrite Hresults. apply length_omap_id_imap.
      intros i output Hi.
      destruct (perform_err_None _ _ _ (Hall i output Hi))
        as (? & ? & ? & computed & _ & _ & _ & _ & Hres).
      exists computed. exact Hres. }
    pose proof (receive_results_whole results allOutputs) as Hrr.
    rewrite Hlen in Hrr. rewrite Hrr.
    intros [= <-]. split; [exact Hall|]. exists results.
    repeat split; auto.
  - intros [= <-].
    assert (Outputs build = []) as Hnil
      by (apply nil_length_inv; lia).
    split.
    + intros i output. rewrite Hnil. intros Hi. inversion Hi.
    + exists []. unfold performed_outputs. rewrite Hnil.
      rewrite Hnil in Hpr. apply Permutation_nil_r in Hpr. subst.
      repeat split; auto.
Qed.

(** [allOutputs] once the results [arrived] are stored in it. *)
Definition all_outputs (inputs : list Input.t) (arrived : list Output.t)
  : gmap string Output.t :=
  foldl (fun allOutputs output =>
           <[Output.Name output := output]> allOutputs)
        (implicit_outputs inputs) arrived.

Lemma last_filter_None {X} (Q : X -> Prop) `{forall x, Decision (Q x)}
    (l : list X) :
  last (filter Q l) = None <-> forall x, x ∈ l -> ~ Q x.
Proof.
  rewrite last_None. split.
  - intros Hnil x Hx HQ. exact (filter_nil_not_elem_of Q l x Hnil HQ Hx).
  - intros Hall. induction l as [|x l IH]; [reflexivity|].
    rewrite filter_cons_False by (apply Hall; apply elem_of_cons; auto).
    apply IH. intros y Hy. apply Hall. apply elem_of_cons. auto.
Qed.

(** Among elements with distinct keys, the last one with a key is the
    one with that key. *)
Lemma last_filter_NoDup {X} (key : X -> string) (l : list X) (k : string)
    (x : X) :
  NoDup (key <$> l) ->
  last (filter (fun y => key y = k) l) = Some x <-> x ∈ l /\ key x = k.
Proof.
  intros Hnd. split.
  - intros Hl. apply last_filter_Some in Hl. tauto.
  - intros [Hx Hk]. induction l as [|y l IH]; [inversion Hx|].
    cbn in Hnd. apply NoDup_cons in Hnd as [Hy Hnd].
    apply elem_of_cons in Hx as [<-|Hx].
    + rewrite filter_cons_True by exact Hk. rewrite last_cons.
      replace (last (filter (fun y => key y = k) l)) with (@None X);
        [reflexivity|].
      symmetry. apply last_filter_None. intros z Hz Hkz. apply Hy.
      apply list_elem_of_fmap. exists z. split; [congruence|exact Hz].
    + rewrite filter_cons_False.
      * apply IH; assumption.
      * intros Hky. apply Hy. apply list_elem_of_fmap. exists x.
        split; [congruence|exact Hx].
Qed.

(** What [allOutputs] holds under a name: the result that arrived last
    with that name, or else the implicit output of the last input with
    that name. *)
Lemma lookup_all_outputs inputs arrived k :
  all_outputs inputs arrived !! k
    = match last (filter (fun o => Output.Name o = k) arrived) with
      | Some o => Some o
      | None =>
          implicit_output
            <$> last (filter (fun input => Input.Name input = k) inputs)
      end.
Proof.
  unfold all_outputs, implicit_outputs.
  rewrite (lookup_foldl_insert_last Output.Name id arrived _ k).
  destruct (last (filter (fun o => Output.Name o = k) arrived));
    [reflexivity|].
  rewrite (lookup_foldl_insert_last Input.Name implicit_output inputs ∅ k).
  destruct (last (filter (fun input => Input.Name input = k) inputs));
    [reflexivity|].
  apply lookup_empty.
Qed.

Lemma all_outputs_named inputs arrived k v :
  all_outputs inputs arrived !! k = Some v -> Output.Name v = k.
Proof.
  rewrite lookup_all_outputs.
  destruct (last (filter (fun o => Output.Name o = k) arrived))
    as [o|] eqn:Ho.
  - intros [= <-]. apply last_filter_Some in Ho. tauto.
  - destruct (last (filter (fun input => Input.Name input = k) inputs))
      as [input|] eqn:Hi; [|discriminate].
    intros [= <-]. apply last_filter_Some in Hi. cbn. tauto.
Qed.

(** The values of a map whose keys are the names of its values. *)
Lemma collect_named (m : gmap string Output.t) :
  (forall k v, m !! k = Some v -> Output.Name v = k) ->
  NoDup (Output.Name <$> collect m) /\
  forall v, v ∈ collect m <-> m !! Output.Name v = Some v.
Proof.
  intros Hnamed. unfold collect. split.
  - rewrite (range_map_perm _ m).
    replace (Output.Name <$> (map_to_list m).*2)
      with ((map_to_list m).*1); [apply NoDup_fst_map_to_list|].
    rewrite <- list_fmap_compose. apply list_fmap_ext.
    intros i [k v] Hkv. cbn.
    apply list_elem_of_lookup_2, elem_of_map_to_list in Hkv.
    symmetry. apply Hnamed. exact Hkv.
  - intros v. rewrite (range_map_perm _ m), list_elem_of_fmap. split.
    + intros ([k v'] & -> & Hkv). cbn.
      apply elem_of_map_to_list in Hkv.
      rewrite (Hnamed _ _ Hkv). exact Hkv.
    + intros Hv. exists (Output.Name v, v). split; [reflexivity|].
      apply elem_of_map_to_list. exact Hv.
Qed.

(** The output a goroutine hands to [Out]: the submitted output, with
    the version of the last input that bears its name, if there is
    one. *)
Lemma submitted_output inputs output :
  match implicit_outputs inputs !! Output.Name output with
  | Some inputOutput =>
      Output.with_Version (Output.Version inputOutput) output
  | None => output
  end
  = match last (filter (fun input => Input.Name input = Output.Name output)
                       inputs) with
    | Some input =>
        Output.mk (Output.Name output) (Output.Type_ output)
          (Output.Source output) (Output.Params output)
          (Output.SourcePath output) (Output.On output)
          (Input.Version input) (Output.Metadata output)
    | None => output
    end.
Proof.
  unfold implicit_outputs.
  rewrite (lookup_foldl_insert_last Input.Name implicit_output inputs ∅
             (Output.Name output)).
  destruct (last (filter _ inputs)); [reflexivity|].
  rewrite lookup_empty. reflexivity.
Qed.

(** A goroutine that sends nil on [errs]: what it called, with the
    arguments written out, and what it sends on [results]. *)
Lemma perform_err_None_calls inputs i output :
  perform_err (perform_output (implicit_outputs inputs) i output) = None ->
  exists streamOut resource computedOutput,
    outputs.container_StreamOut P i "/tmp/build/src/" = inr streamOut /\
    outputs.tracker_Init P i (Output.Type_ output)
      (event.mkOrigin event.OriginTypeOutput (Output.Name output))
      = inr resource /\
    outputs.resource_Out P i resource streamOut
      match last (filter (fun input =>
                            Input.Name input = Output.Name output)
                         inputs) with
      | Some input =>
          Output.mk (Output.Name output) (Output.Type_ output)
            (Output.Source output) (Output.Params output)
            (Output.SourcePath output) (Output.On output)
            (Input.Version input) (Output.Metadata output)
      | None => output
      end
      = (computedOutput, None) /\
    perform_result (perform_output (implicit_outputs inputs) i output)
      = Some computedOutput.
Proof.
  intros Hnil.
  destruct (perform_err_None _ _ _ Hnil)
    as (streamOut & resource & submitted & computedOutput
        & Hsub & Hs & Hr & Ho & Hres).
  rewrite submitted_output in Hsub.
  exists streamOut, resource, computedOutput.
  split; [exact Hs|]. rewrite <- Hsub.
  split; [|split; [exact Ho|exact Hres]].
  rewrite <- Hr, Hsub. destruct (last (filter _ inputs)); reflexivity.
Qed.

Lemma lookup_omap_id_imap {A B} (l : list A) :
  forall (f : nat -> A -> option B),
  (forall i a, l !! i = Some a -> is_Some (f i a)) ->
  forall i, omap id (imap f l) !! i = (l !! i) ≫= f i.
Proof.
  induction l as [|a l IH]; intros f Hf i; [reflexivity|].
  rewrite imap_cons. csimpl.
  destruct (Hf 0 a eq_refl) as [b Hb]. rewrite Hb. cbn.
  destruct i as [|i]; [cbn; symmetry; exact Hb|]. cbn.
  apply (IH (f ∘ S)). intros j a' Hj. apply (Hf (S j) a' Hj).
Qed.

(** C1 as stated: the outputs are exactly the implicit outputs, each
    [{name, type, source, version, metadata}] of an input, whose name no
    performed output bears, and the performed outputs. *)
Definition implicit_and_performed (inputs : list Input.t)
    (performed outs : list Output.t) : Prop :=
  forall o,
    o ∈ outs <->
    o ∈ performed \/
    ((exists input,
         input ∈ inputs /\
         o = Output.mk (Input.Name input) (Input.Type_ input)
               (Input.Source input) ∅ "" []
               (Input.Version input) (Input.Metadata input)) /\
     Output.Name o ∉ (Output.Name <$> performed)).

(** C1, amended: when [Complete] returns no error, the build it returns
    is the given one with its outputs replaced.  [Out] has run without
    error for every submitted output, on that output with the version of
    the last input bearing its name; what it returned are the performed
    outputs, one per submitted output.  The outputs returned bear
    pairwise distinct names and are exactly: for a name that a performed
    output bears, the performed output of that name that arrived last;
    for any other name that an input bears, the implicit output
    [{name, type, source, version, metadata}], with empty parameters,
    path and conditions, of the last input of that name.  So when the
    inputs bear distinct names and the performed outputs bear distinct
    names, the outputs returned are exactly the performed outputs and
    the implicit outputs of the inputs whose name no performed output
    bears. *)
Theorem Complete_outputs_are_implicit_and_performed
    succeeded sched_errs sched_results st build' st' :
  Complete succeeded sched_errs sched_results st
    = (Returned (build', None), st') ->
  sched_errs
    ≡ₚ seq 0 (length (Outputs (SucceededBuild_Build succeeded))) ->
  sched_results
    ≡ₚ seq 0 (length (Outputs (SucceededBuild_Build succeeded))) ->
  let build := SucceededBuild_Build succeeded in
  let implicit (input : Input.t) :=
    Output.mk (Input.Name input) (Input.Type_ input) (Input.Source input)
              ∅ "" [] (Input.Version input) (Input.Metadata input) in
  let last_input (name : string) :=
    last (filter (fun input => Input.Name input = name) (Inputs build)) in
  build' = with_Outputs (Outputs build') build /\
  exists performed,
    length performed = length (Outputs build) /\
    (forall i output,
        Outputs build !! i = Some output ->
        exists streamOut resource computedOutput,
          outputs.container_StreamOut P i "/tmp/build/src/"
            = inr streamOut /\
          outputs.tracker_Init P i (Output.Type_ output)
            (event.mkOrigin event.OriginTypeOutput (Output.Name output))
            = inr resource /\
          outputs.resource_Out P i resource streamOut
            match last_input (Output.Name output) with
            | Some input =>
                Output.mk (Output.Name output) (Output.Type_ output)
                  (Output.Source output) (Output.Params output)
                  (Output.SourcePath output) (Output.On output)
                  (Input.Version input) (Output.Metadata output)
            | None => output
            end
            = (computedOutput, None) /\
          performed !! i = Some computedOutput) /\
    let arrived := omap (fun i => performed !! i) sched_results in
    NoDup (Output.Name <$> Outputs build') /\
    (forall o,
        o ∈ Outputs build' <->
        last (filter (fun p => Output.Name p = Output.Name o) arrived)
          = Some o \/
        ((Output.Name o ∉ Output.Name <$> performed) /\
         exists input,
           last_input (Output.Name o) = Some input /\ o = implicit input)) /\
    (NoDup (Input.Name <$> Inputs build) ->
     NoDup (Output.Name <$> performed) ->
     forall o,
       o ∈ Outputs build' <->
       o ∈ performed \/
       ((Output.Name o ∉ Output.Name <$> performed) /\
        exists input, input ∈ Inputs build /\ o = implicit input)).
Proof.
  intros Hrun Hpe Hpr build. revert Hpe Hpr. fold build.
  intros Hpe Hpr implicit last_input.
  assert (exists outs,
             snd (performOutputs (SucceededBuild_Container succeeded)
                    build sched_errs sched_results) = Returned (outs, None) /\
             build' = with_Outputs outs build)
    as (outs & Hperf & ->).
  { revert Hrun. unfold Complete. fold build.
    cbv beta iota zeta delta [bind perform ret tell Close_].
    destruct (snd (performOutputs _ _ _ _)) as [[outs [err|]]| |];
      cbn [fst snd]; try discriminate.
    intros [= <- _]. exists outs. auto. }
  apply (performOutputs_ok _ _ _ _ _ Hpe Hpr) in Hperf
    as (Hall & arrived & Harr & Hlen & -> & Harrived).
  fold (all_outputs (Inputs build) arrived).
  cbn [Outputs with_Outputs].
  split; [reflexivity|].
  set (f := fun i output =>
              perform_result
                (perform_output (implicit_outputs (Inputs build)) i output))
    in *.
  assert (forall i output,
             Outputs build !! i = Some output -> is_Some (f i output))
    as Htotal.
  { intros i output Hi.
    destruct (perform_err_None_calls _ _ _ (Hall i output Hi))
      as (? & ? & computed & _ & _ & _ & Hres).
    exists computed. exact Hres. }
  exists (performed_outputs build).
  split; [apply length_omap_id_imap; exact Htotal|].
  split.
  { intros i output Hi.
    destruct (perform_err_None_calls _ _ _ (Hall i output Hi))
      as (streamOut & resource & computed & Hs & Hr & Ho & Hres).
    exists streamOut, resource, computed.
    split; [exact Hs|]. split; [exact Hr|]. split; [exact Ho|].
    unfold performed_outputs. fold f.
    rewrite (lookup_omap_id_imap _ f Htotal), Hi. exact Hres. }
  assert (arrived = omap (fun i => performed_outputs build !! i)
                         sched_results) as Harr'.
  { rewrite Harrived. apply list_omap_ext, Forall_Forall2_diag, Forall_forall.
    intros i _. unfold performed_outputs. fold f.
    rewrite (lookup_omap_id_imap _ f Htotal). reflexivity. }
  cbn zeta. rewrite <- Harr'. clear Harr' Harrived.
  destruct (collect_named (all_outputs (Inputs build) arrived))
    as [Hnd Hel].
  { intros k v. apply all_outputs_named. }
  split; [exact Hnd|].
  assert (forall o,
             o ∈ collect (all_outputs (Inputs build) arrived) <->
             last (filter (fun p => Output.Name p = Output.Name o) arrived)
               = Some o \/
             ((Output.Name o ∉ Output.Name <$> performed_outputs build) /\
              exists input,
                last_input (Output.Name o) = Some input /\
                o = implicit input)) as Hgeneral.
  { intros o. rewrite Hel, lookup_all_outputs. unfold last_input.
    destruct (last (filter (fun p => Output.Name p = Output.Name o) arrived))
      as [o'|] eqn:Hlast.
    - split; [auto|]. intros [Ho|[Hnot _]]; [exact Ho|].
      exfalso. apply Hnot. apply last_filter_Some in Hlast as [Hname Hin].
      rewrite <- Harr. apply list_elem_of_fmap. exists o'. auto.
    - assert (Output.Name o ∉ Output.Name <$> performed_outputs build)
        as Hnot.
      { rewrite <- Harr. intros (o' & Hname & Hin)%list_elem_of_fmap.
        apply (proj1 (last_filter_None _ _) Hlast o' Hin). auto. }
      destruct (last (filter (fun input =>
                                Input.Name input = Output.Name o)
                             (Inputs build))) as [input|]; cbn.
      + split.
        * intros [= <-]. right. split; [exact Hnot|]. exists input. auto.
        * intros [[=]|[_ (input' & [= <-] & ->)]]. reflexivity.
      + split; [discriminate|].
        intros [[=]|[_ (input' & [=] & _)]]. }
  split; [exact Hgeneral|].
  intros Hin Hout o. rewrite Hgeneral.
  assert (NoDup (Output.Name <$> arrived)) as Hna by (rewrite Harr; exact Hout).
  rewrite (last_filter_NoDup Output.Name arrived (Output.Name o) o Hna).
  rewrite Harr. unfold last_input. split.
  - intros [[Ho _]|[Hnot (input & Hlast & ->)]]; [left; exact Ho|].
    right. split; [exact Hnot|]. exists input.
    apply last_filter_Some in Hlast. tauto.
  - intros [Ho|[Hnot (input & Hi & ->)]]; [left; auto|].
    right. split; [exact Hnot|]. exists input. split; [|reflexivity].
    apply (last_filter_NoDup Input.Name); auto.
Qed.

(** The condition an output must carry to be performed after
    [exitStatus], and the outputs that carry it. *)
Definition condition_of (exitStatus : Z) : OutputCondition :=
  if decide (exitStatus = 0%Z) then OutputConditionSuccess
  else OutputConditionFailure.

Definition selected_by_on (exitStatus : Z) (outs : list Output.t)
  : list Output.t :=
  filter (fun o => condition_of exitStatus ∈ Output.On o) outs.

(** C2 as stated: the outputs handed to the performing step are those
    whose [on] holds the condition of the exit status. *)
Definition performs_selected_by_on (exitStatus : Z) (build : Build)
    (started : list Output.t) : Prop :=
  started = selected_by_on exitStatus (Outputs build).

(** C2 as stated, as far as the outputs returned tell: no other
    submitted output is performed, so every output returned bears the
    name of an input or of a submitted output whose [on] holds the
    condition of the exit status. *)
Definition returns_selected_by_on (exitStatus : Z) (build : Build)
    (returned : list Output.t) : Prop :=
  forall o,
    o ∈ returned ->
    Output.Name o ∈ Input.Name <$> Inputs build \/
    Output.Name o
      ∈ Output.Name <$> selected_by_on exitStatus (Outputs build).

(** C2, amended: [performOutputs] reads no [on] and no exit status.
    When it returns a nil error, every goroutine having sent, then for
    every output of [build.Outputs], whatever its [on] holds,
    [StreamOut], [Init] and [Out] have run without error, [Out] on that
    output with its version replaced by the version of the last input
    that bears its name, and unchanged when no input bears its name. *)
Theorem performOutputs_performs_every_output
    container build sched_errs sched_results outs :
  sched_errs ≡ₚ seq 0 (length (Outputs build)) ->
  sched_results ≡ₚ seq 0 (length (Outputs build)) ->
  snd (performOutputs container build sched_errs sched_results)
    = Returned (outs, None) ->
  forall i output,
    Outputs build !! i = Some output ->
    exists streamOut resource computedOutput,
      outputs.container_StreamOut P i "/tmp/build/src/" = inr streamOut /\
      outputs.tracker_Init P i (Output.Type_ output)
        (event.mkOrigin event.OriginTypeOutput (Output.Name output))
        = inr resource /\
      outputs.resource_Out P i resource streamOut
        match last (filter (fun input =>
                              Input.Name input = Output.Name output)
                           (Inputs build)) with
        | Some input =>
            Output.mk (Output.Name output) (Output.Type_ output)
              (Output.Source output) (Output.Params output)
              (Output.SourcePath output) (Output.On output)
              (Input.Version input) (Output.Metadata output)
        | None => output
        end
        = (computedOutput, None).
Proof.
  intros Hpe Hpr Hperf i output Hi.
  apply (performOutputs_ok _ _ _ _ _ Hpe Hpr) in Hperf as (Hall & _).
  destruct (perform_err_None_calls _ _ _ (Hall i output Hi))
    as (streamOut & resource & computed & Hs & Hr & Ho & _).
  exists streamOut, resource, computed. auto.
Qed.

End Builder.

Arguments Env : clear implicits.
Arguments State : clear implicits.

(** *** The calls of [Start], phase by phase *)

(** The resources a log shows as handed out by [tracker.Init] and as
    released, the emitters it shows as created and as closed, and what
    the [In] calls that succeeded returned. *)
Definition inits (log : list Call) : list Resource :=
  omap (fun c => match c with
                 | TrackerInit _ _ (inr r) => Some r
                 | _ => None
                 end) log.

Definition released (log : list Call) : list Resource :=
  omap (fun c => match c with
                 | TrackerRelease r => Some r
                 | _ => None
                 end) log.

Definition creates (log : list Call) : list (string * Emitter) :=
  omap (fun c => match c with
                 | CreateEmitter url em => Some (url, em)
                 | _ => None
                 end) log.

Definition closes (log : list Call) : list Emitter :=
  omap (fun c => match c with
                 | EmitterClose em => Some em
                 | _ => None
                 end) log.

Definition computed_inputs (log : list Call) : list Input.t :=
  omap (fun c => match c with
                 | ResourceIn _ _ (inr (_, computedInput, _)) =>
                     Some computedInput
                 | _ => None
                 end) log.

Definition fetched_configs (log : list Call) : list Config :=
  omap (fun c => match c with
                 | ResourceIn _ _ (inr (_, _, buildConfig)) =>
                     Some buildConfig
                 | _ => None
                 end) log.

(** The phase of [Start] a call belongs to: creating the emitter (0),
    fetching the inputs (1), creating the container (2), streaming the
    inputs in (3), running the process (4), closing the emitter (5),
    releasing the resources (6).  [Start] makes no other call (7). *)
Definition phase (c : Call) : nat :=
  match c with
  | CreateEmitter _ _ => 0
  | TrackerInit _ _ _ | ResourceIn _ _ _ => 1
  | EmitEvent _ (event.Initialize _) | ClientCreate _ _ => 2
  | ContainerStreamIn _ _ _ _ => 3
  | TimeNow _ | EmitEvent _ (event.Start _) | ContainerRun _ _ _ _ => 4
  | EmitterClose _ => 5
  | TrackerRelease _ => 6
  | _ => 7
  end.

(** The calls of [log] come phase after phase, none before phase [k]. *)
Fixpoint by_phase (k : nat) (log : list Call) : Prop :=
  match log with
  | [] => True
  | c :: log => k <= phase c /\ by_phase (phase c) log
  end.

Lemma by_phase_weaken k k' log : k' <= k -> by_phase k log -> by_phase k' log.
Proof. destruct log as [|c log]; cbn; [auto|]. intros ? [? ?]. split; [lia|auto]. Qed.

Lemma by_phase_app k m l1 l2 :
  k <= m ->
  by_phase k l1 -> Forall (fun c => phase c <= m) l1 -> by_phase m l2 ->
  by_phase k (l1 ++ l2).
Proof.
  revert k. induction l1 as [|c l1 IH]; intros k Hk H1 Hle H2; cbn.
  - apply (by_phase_weaken m); assumption.
  - destruct H1 as [Hc H1]. apply Forall_cons in Hle as [Hcm Hle].
    split; [exact Hc|]. apply IH; assumption.
Qed.

Lemma by_phase_same k log :
  Forall (fun c => phase c = k) log -> by_phase k log.
Proof.
  induction 1 as [|c log Hc _ IH]; cbn; [exact I|].
  rewrite Hc. auto.
Qed.

(** A call of one of the phases 1 to 4 is no creation or close of an
    emitter and no release; only phase 1 holds the [Init] and [In]
    calls, only phase 3 the [StreamIn] calls. *)
Lemma phase_projections (log : list Call) :
  Forall (fun c => 1 <= phase c <= 4) log ->
  creates log = [] /\ closes log = [] /\ released log = [].
Proof.
  induction 1 as [|c log Hc _ (IH1 & IH2 & IH3)]; [auto|].
  destruct c as [| |em| | | | | | | | | | |]; cbn in Hc; try lia;
    try destruct ev; cbn in Hc; try lia; auto.
Qed.

Lemma phase_not_fetching (log : list Call) :
  Forall (fun c => 2 <= phase c) log ->
  inits log = [] /\ computed_inputs log = [] /\ fetched_configs log = [] /\
  fetches log = [].
Proof.
  induction 1 as [|c log Hc _ (IH1 & IH2 & IH3 & IH4)]; [auto|].
  destruct c; cbn in Hc; try lia; auto.
Qed.

Lemma phase_fetching (log : list Call) :
  Forall (fun c => phase c = 1) log ->
  emitted log = [] /\ stream_ins log = [].
Proof.
  induction 1 as [|c log Hc _ (IH1 & IH2)]; [auto|].
  destruct c; cbn in Hc; try lia; try destruct ev; try discriminate; auto.
Qed.

Section Lifecycle.
Context {W : Type} `{MapRange}.
Variable E : Env W.

(** The loop over the inputs: its calls are [Init] and [In] calls only;
    the releases it defers are those of the resources [Init] handed out,
    the latest first; and when it ends without error it has replaced
    the inputs from position [i] on by the computed ones and merged the
    config of every input into the config of the build, in turn. *)
Lemma fetch_each_log emitter inputs : forall i f st,
  i + length inputs <= length (Inputs (fetching_build f)) ->
  exists log,
    calls (snd (fetch_each E emitter i inputs f st)) = calls st ++ log /\
    Forall (fun c => phase c = 1) log /\
    fetching_deferred (snd (fst (fetch_each E emitter i inputs f st)))
      = rev (inits log) ++ fetching_deferred f /\
    (fst (fst (fetch_each E emitter i inputs f st)) = None ->
     let b := fetching_build f in
     let b' := fetching_build (snd (fst (fetch_each E emitter i inputs f st))) in
     Guid b' = Guid b /\ Privileged b' = Privileged b /\
     Outputs b' = Outputs b /\ EventsCallback b' = EventsCallback b /\
     Inputs b' = take i (Inputs b) ++ computed_inputs log
                   ++ drop (i + length inputs) (Inputs b) /\
     length (computed_inputs log) = length inputs /\
     BuildConfig b'
       = foldl (Config_Merge E) (BuildConfig b) (fetched_configs log)).
Proof.
  induction inputs as [|input inputs IH]; intros i f st Hlen; cbn [fetch_each].
  - exists []. cbn. rewrite !app_nil_r, Nat.add_0_r, take_drop.
    repeat split; auto.
  - cbv beta iota zeta delta [bind perform ret]; cbn [fst snd].
    destruct (tracker_Init E (Input.Type_ input) _ (world st))
      as [[err|resource] w1]; cbn [fst snd world calls].
    { eexists [_]. split; [reflexivity|]. split; [repeat constructor|].
      split; [reflexivity|discriminate]. }
    destruct (resource_In E resource input w1)
      as [[err|[[tarStream computedInput] buildConfig]] w2];
      cbn [fst snd world calls].
    { eexists [_; _]. split; [rewrite <- app_assoc; reflexivity|].
      split; [repeat constructor|]. split; [reflexivity|discriminate]. }
    cbn [length] in Hlen.
    match goal with |- context [fetch_each E emitter (S i) inputs ?f1 ?s1] =>
      destruct (IH (S i) f1 s1) as (log & Hc & Hph & Hd & Hok);
      [cbn [fetching_build Inputs with_Inputs with_Config];
       rewrite length_insert; lia|];
      set (r := fetch_each E emitter (S i) inputs f1 s1) in *
    end.
    cbn [calls fetching_deferred fetching_build] in Hc, Hd, Hok.
    eexists (_ :: _ :: log). split; [|split; [|split]].
    + rewrite Hc, <- !app_assoc. reflexivity.
    + repeat constructor. exact Hph.
    + rewrite Hd. cbn. rewrite <- app_assoc. reflexivity.
    + intros Hnone. destruct (Hok Hnone)
        as (Hg & Hp & Ho & He & Hi & Hl & Hcfg).
      cbn [Guid Privileged Outputs EventsCallback Inputs BuildConfig
           with_Inputs with_Config] in *.
      repeat split; try assumption.
      * rewrite Hi. cbn [computed_inputs omap].
        rewrite (take_S_r _ i computedInput)
          by (apply list_lookup_insert_eq; lia).
        rewrite take_insert_ge by lia.
        rewrite drop_insert_lt by lia.
        rewrite <- app_assoc. cbn.
        replace (i + S (length inputs)) with (S i + length inputs) by lia.
        reflexivity.
      * cbn. f_equal. exact Hl.
Qed.

(** The [StreamIn] that [streamInResources] makes for one entry, with
    what it returned. *)
Definition stream_in_call (container : Container)
    (paths : gmap string string) (r : option error)
    (entry : string * Stream) : Call :=
  ContainerStreamIn container
    ("/tmp/build/src/" +:+ destination_of paths (fst entry)) (snd entry) r.

Lemma streamIn_each_log container paths entries : forall st,
  exists done rest,
    entries = done ++ rest /\
    calls (snd (streamIn_each E container paths entries st))
      = calls st ++ (stream_in_call container paths None <$> done)
          ++ match fst (streamIn_each E container paths entries st) with
             | Some err =>
                 stream_in_call container paths (Some err) <$> take 1 rest
             | None => []
             end /\
    match fst (streamIn_each E container paths entries st) with
    | Some err => rest <> []
    | None => rest = []
    end.
Proof.
  induction entries as [|[name streamOut] entries IH]; intros st;
    cbn [streamIn_each].
  - exists [], []. cbn. rewrite app_nil_r. auto.
  - cbv beta iota zeta delta [bind perform ret]; cbn [fst snd].
    destruct (container_StreamIn E container _ streamOut (world st))
      as [[err|] w1] eqn:Hin; cbn [fst snd world calls].
    + exists [], ((name, streamOut) :: entries). cbn.
      split; [reflexivity|]. split; [reflexivity|discriminate].
    + match goal with |- context [streamIn_each E container paths entries ?s1] =>
        destruct (IH s1) as (done & rest & -> & Hc & Hr);
        set (r := streamIn_each E container paths (done ++ rest) s1) in *
      end.
      cbn [calls] in Hc.
      exists ((name, streamOut) :: done), rest.
      split; [reflexivity|]. split; [|exact Hr].
      rewrite Hc, <- app_assoc. reflexivity.
Qed.

Lemma release_each_log deferred : forall st,
  calls (snd (release_each E deferred st))
    = calls st ++ (TrackerRelease <$> deferred).
Proof.
  induction deferred as [|resource deferred IH]; intros st; cbn.
  - rewrite app_nil_r. reflexivity.
  - cbv beta iota zeta delta [bind tell]; cbn [fst snd].
    rewrite IH. cbn. rewrite <- app_assoc. reflexivity.
Qed.

(** The process [runBuild] asks the container to run. *)
Definition run_spec (privileged : bool) (buildConfig : Config)
  : ProcessSpec :=
  mkProcessSpec (Path (Run buildConfig)) (Args (Run buildConfig))
    ((fun nv => fst nv +:+ "=" +:+ snd nv)
       <$> range_map (ConfigParams buildConfig))
    "/tmp/build/src" privileged.

(** The calls of [Start] between the fetching of the inputs and its
    return, without the close of the emitter, and what [Start] returns:
    by the step that ends it. *)
Inductive set_up (emitter : Emitter) (build : Build)
  : list Call -> RunningBuild * option error -> Prop :=
| set_up_create_failed err :
    set_up emitter build
      [EmitEvent emitter (event.Initialize (BuildConfig build));
       ClientCreate (mkContainerSpec (Image (BuildConfig build))) (inl err)]
      (RunningBuild_zero, Some err)
| set_up_stream_failed container slog err :
    Forall (fun c => phase c = 3) slog ->
    set_up emitter build
      ([EmitEvent emitter (event.Initialize (BuildConfig build));
        ClientCreate (mkContainerSpec (Image (BuildConfig build)))
                     (inr container)] ++ slog)
      (RunningBuild_zero, Some err)
| set_up_run_failed container slog now err :
    Forall (fun c => phase c = 3) slog ->
    set_up emitter build
      ([EmitEvent emitter (event.Initialize (BuildConfig build));
        ClientCreate (mkContainerSpec (Image (BuildConfig build)))
                     (inr container)] ++ slog
         ++ [TimeNow now; EmitEvent emitter (event.Start now);
             ContainerRun container
               (run_spec (Privileged build) (BuildConfig build))
               (emitterProcessIO emitter)
                          (inl err)])
      (RunningBuild_zero, Some err)
| set_up_running container slog now process :
    Forall (fun c => phase c = 3) slog ->
    set_up emitter build
      ([EmitEvent emitter (event.Initialize (BuildConfig build));
        ClientCreate (mkContainerSpec (Image (BuildConfig build)))
                     (inr container)] ++ slog
         ++ [TimeNow now; EmitEvent emitter (event.Start now);
             ContainerRun container
               (run_spec (Privileged build) (BuildConfig build))
               (emitterProcessIO emitter)
                          (inr process)])
      (mkRunningBuild build (Handle container) (Some container)
         (ID process) (Some process) (Some emitter), None).

(** The emitter closes of a [Start] that returns [err]. *)
Definition closing (emitter : Emitter) (err : option error) : list Call :=
  match err with
  | Some _ => [EmitterClose emitter]
  | None => []
  end.

Lemma streamIn_each_phase container paths entries st :
  exists slog,
    calls (snd (streamIn_each E container paths entries st))
      = calls st ++ slog /\
    Forall (fun c => phase c = 3) slog.
Proof.
  destruct (streamIn_each_log container paths entries st)
    as (done & rest & _ & Hc & _).
  eexists. split; [exact Hc|].
  apply Forall_app. split.
  - apply Forall_fmap, Forall_forall. intros entry _. reflexivity.
  - destruct (fst (streamIn_each E container paths entries st));
      [|constructor].
    apply Forall_fmap, Forall_forall. intros entry _. reflexivity.
Qed.

(** The calls of [Start]: the creation of the emitter, the fetching of
    the inputs, the setting up of the container and the process, the
    close of the emitter when [Start] fails, and the deferred releases,
    in this order. *)
Lemma Start_log build st :
  exists emitter flog mid,
    calls (snd (Start E build st))
      = calls st ++ CreateEmitter (EventsCallback build) emitter :: flog
          ++ mid ++ closing emitter (snd (fst (Start E build st)))
          ++ (TrackerRelease <$> rev (inits flog)) /\
    Forall (fun c => phase c = 1) flog /\
    ((exists err,
         fst (Start E build st) = (RunningBuild_zero, Some err) /\
         mid = []) \/
     (length (computed_inputs flog) = length (Inputs build) /\
      set_up emitter
        (mkBuild (Guid build) (Privileged build)
           (foldl (Config_Merge E) (BuildConfig build)
                  (fetched_configs flog))
           (computed_inputs flog) (Outputs build) (EventsCallback build))
        mid (fst (Start E build st)))).
Proof.
  unfold Start.
  cbv beta iota zeta delta [bind perform ret]; cbn [fst snd].
  destruct (createEmitter E (EventsCallback build) (world st))
    as [emitter w1]; cbn [fst snd world calls].
  match goal with |- context [fetch_each E emitter 0 ?ins ?f0 ?s1] =>
    destruct (fetch_each_log emitter ins 0 f0 s1)
      as (flog & Hc & Hph & Hd & Hok); [cbn; lia|];
    destruct (fetch_each E emitter 0 ins f0 s1) as [[ferr f'] st2]
  end.
  cbn [fst snd calls fetching_deferred fetching_build] in Hc, Hd, Hok.
  cbn [fst snd]. rewrite app_nil_r in Hd.
  exists emitter, flog.
  destruct ferr as [err|].
  { exists []. cbv beta iota zeta delta [bind Close_ tell ret];
      cbn [fst snd world calls].
    rewrite release_each_log; cbn [calls].
    split; [|split; [exact Hph|left; eauto]].
    rewrite Hc, Hd, <- !app_assoc. reflexivity. }
  destruct (Hok eq_refl) as (Hg & Hp & Ho & He & Hi & Hl & Hcfg).
  rewrite Nat.add_0_l, drop_all, app_nil_r in Hi. cbn [take app] in Hi.
  assert (fetching_build f'
          = mkBuild (Guid build) (Privileged build)
              (foldl (Config_Merge E) (BuildConfig build)
                     (fetched_configs flog))
              (computed_inputs flog) (Outputs build) (EventsCallback build))
    as Hb.
  { destruct (fetching_build f') as [g p c i o e].
    cbn [Guid Privileged Outputs EventsCallback Inputs BuildConfig]
      in Hg, Hp, Ho, He, Hi, Hcfg.
    rewrite Hg, Hp, Ho, He, Hi, Hcfg. reflexivity. }
  rewrite Hb. clear Hb Hg Hp Ho He Hi Hcfg Hok.
  set (b := mkBuild _ _ _ _ _ _).
  cbv beta iota zeta delta
    [bind perform ret createBuildContainer streamInResources runBuild
     EmitEvent_ Close_ tell]; cbn [fst snd world calls].
  destruct (client_Create E _ _) as [[err|container] w3];
    cbn [fst snd world calls].
  { eexists [_; _]. rewrite release_each_log; cbn [calls].
    split; [|split; [exact Hph|right; split; [exact Hl|constructor]]].
    rewrite Hc, Hd, <- !app_assoc. reflexivity. }
  match goal with |- context [streamIn_each E container ?ps ?es ?s3] =>
    destruct (streamIn_each_phase container ps es s3) as (slog & Hs & Hsp);
    destruct (streamIn_each E container ps es s3) as [serr st4]
  end.
  cbn [fst snd calls] in Hs.
  destruct serr as [err|]; cbn [fst snd world calls].
  { exists ([EmitEvent emitter (event.Initialize (BuildConfig b));
             ClientCreate (mkContainerSpec (Image (BuildConfig b)))
                          (inr container)] ++ slog).
    rewrite release_each_log; cbn [calls].
    split; [|split; [exact Hph|right; split; [exact Hl|]]].
    - rewrite Hs, Hc, Hd, <- !app_assoc. reflexivity.
    - constructor. exact Hsp. }
  destruct (time_Now_Unix E (world st4)) as [now w5];
    cbn [fst snd world calls].
  destruct (container_Run E container _ _ _) as [[err|process] w6];
    cbn [fst snd world calls].
  - eexists (_ :: _ :: slog ++ [_; _; _]).
    rewrite release_each_log; cbn [calls].
    split; [|split; [exact Hph|right; split; [exact Hl|]]].
    + rewrite Hs, Hc, Hd, <- !app_assoc. cbn. rewrite <- !app_assoc.
      reflexivity.
    + apply (set_up_run_failed emitter b container slog). exact Hsp.
  - eexists (_ :: _ :: slog ++ [_; _; _]).
    rewrite release_each_log; cbn [calls].
    split; [|split; [exact Hph|right; split; [exact Hl|]]].
    + rewrite Hs, Hc, Hd, <- !app_assoc. cbn. rewrite <- !app_assoc.
      reflexivity.
    + apply (set_up_running emitter b container slog). exact Hsp.
Qed.

Lemma set_up_phases emitter build mid res :
  set_up emitter build mid res ->
  by_phase 2 mid /\ Forall (fun c => 2 <= phase c <= 4) mid.
Proof.
  assert (forall slog tail,
             Forall (fun c => phase c = 3) slog ->
             by_phase 3 tail -> Forall (fun c => 3 <= phase c <= 4) tail ->
             by_phase 2 slog /\ by_phase 2 (slog ++ tail) /\
             Forall (fun c => 2 <= phase c <= 4) (slog ++ tail)) as Hs.
  { intros slog tail Hslog Htail Hft. split; [|split].
    - apply (by_phase_weaken 3); [lia|]. apply by_phase_same. exact Hslog.
    - apply (by_phase_weaken 3); [lia|].
      apply (by_phase_app 3 3); [lia| |eapply Forall_impl; [exact Hslog|]
                                   |exact Htail].
      + apply by_phase_same. exact Hslog.
      + cbn. intros c ->. lia.
    - apply Forall_app. split; eapply Forall_impl; eauto; cbn; intros; lia. }
  intros [err|container slog err Hp|container slog now err Hp
          |container slog now process Hp].
  - cbn. repeat split; repeat constructor; cbn; lia.
  - destruct (Hs slog [] Hp I (Forall_nil_2 _)) as (_ & H3 & Hf).
    rewrite app_nil_r in H3, Hf. cbn [app by_phase phase].
    split; [repeat split; try lia; exact H3|].
    repeat (constructor; [cbn; lia|]). exact Hf.
  - match goal with |- context [slog ++ ?tail] =>
      destruct (Hs slog tail Hp) as (_ & H3 & Hf) end.
    { cbn. repeat split; lia. }
    { repeat constructor; cbn; lia. }
    cbn [app by_phase phase].
    split; [repeat split; try lia; exact H3|].
    repeat (constructor; [cbn; lia|]). exact Hf.
  - match goal with |- context [slog ++ ?tail] =>
      destruct (Hs slog tail Hp) as (_ & H3 & Hf) end.
    { cbn. repeat split; lia. }
    { repeat constructor; cbn; lia. }
    cbn [app by_phase phase].
    split; [repeat split; try lia; exact H3|].
    repeat (constructor; [cbn; lia|]). exact Hf.
Qed.

Lemma closing_phase emitter err :
  Forall (fun c => phase c = 5) (closing emitter err).
Proof. destruct err; repeat constructor. Qed.

Lemma release_phase (deferred : list Resource) :
  Forall (fun c => phase c = 6) (TrackerRelease <$> deferred).
Proof. apply Forall_fmap, Forall_forall. intros r _. reflexivity. Qed.

(** The part of the log of a [Start] between the creation of the emitter
    and its close: phases 1 to 4, in order. *)
Lemma Start_log_phases build st emitter flog mid :
  Forall (fun c => phase c = 1) flog ->
  ((exists err,
       fst (Start E build st) = (RunningBuild_zero, Some err) /\ mid = []) \/
   (length (computed_inputs flog) = length (Inputs build) /\
    set_up emitter
      (mkBuild (Guid build) (Privileged build)
         (foldl (Config_Merge E) (BuildConfig build) (fetched_configs flog))
         (computed_inputs flog) (Outputs build) (EventsCallback build))
      mid (fst (Start E build st)))) ->
  by_phase 1 (flog ++ mid) /\
  Forall (fun c => 1 <= phase c <= 4) (flog ++ mid) /\
  Forall (fun c => 2 <= phase c) mid.
Proof.
  intros Hph Hmid.
  assert (by_phase 2 mid /\ Forall (fun c => 2 <= phase c <= 4) mid)
    as [Hb Hf].
  { destruct Hmid as [(err & _ & ->)|[_ Hset]]; [split; constructor|].
    eapply set_up_phases. exact Hset. }
  split; [|split].
  - apply (by_phase_app 1 2); [lia| | |exact Hb].
    + apply by_phase_same. exact Hph.
    + eapply Forall_impl; [exact Hph|]. cbn. intros c ->. lia.
  - apply Forall_app. split; eapply Forall_impl; eauto; cbn; intros; lia.
  - eapply Forall_impl; [exact Hf|]. cbn. intros; lia.
Qed.

Lemma inits_app l1 l2 : inits (l1 ++ l2) = inits l1 ++ inits l2.
Proof. apply omap_app. Qed.

Lemma released_app l1 l2 : released (l1 ++ l2) = released l1 ++ released l2.
Proof. apply omap_app. Qed.

Lemma creates_app l1 l2 : creates (l1 ++ l2) = creates l1 ++ creates l2.
Proof. apply omap_app. Qed.

Lemma closes_app l1 l2 : closes (l1 ++ l2) = closes l1 ++ closes l2.
Proof. apply omap_app. Qed.

Lemma computed_inputs_app l1 l2 :
  computed_inputs (l1 ++ l2) = computed_inputs l1 ++ computed_inputs l2.
Proof. apply omap_app. Qed.

Lemma fetched_configs_app l1 l2 :
  fetched_configs (l1 ++ l2) = fetched_configs l1 ++ fetched_configs l2.
Proof. apply omap_app. Qed.

Lemma closing_projections emitter err :
  inits (closing emitter err) = [] /\
  released (closing emitter err) = [] /\
  creates (closing emitter err) = [] /\
  computed_inputs (closing emitter err) = [] /\
  fetched_configs (closing emitter err) = [] /\
  emitted (closing emitter err) = [] /\
  closes (closing emitter err) = option_list ((fun _ => emitter) <$> err).
Proof. destruct err; cbn; auto 10. Qed.

Lemma release_projections (deferred : list Resource) :
  inits (TrackerRelease <$> deferred) = [] /\
  creates (TrackerRelease <$> deferred) = [] /\
  closes (TrackerRelease <$> deferred) = [] /\
  computed_inputs (TrackerRelease <$> deferred) = [] /\
  fetched_configs (TrackerRelease <$> deferred) = [] /\
  emitted (TrackerRelease <$> deferred) = [] /\
  released (TrackerRelease <$> deferred) = deferred.
Proof.
  induction deferred as [|r l (H1 & H2 & H3 & H4 & H5 & H6 & H7)];
    [cbn; auto 10|].
  repeat split; try assumption. cbn. f_equal. exact H7.
Qed.

(** X12: the calls of [Start] come in the order of its phases, on every
    path: the creation of the emitter; the [Init] and [In] calls of the
    inputs; the [Initialize] event and the creation of the container; the
    [StreamIn] calls; the clock, the [Start] event and [Run]; the close of
    the emitter; the releases.  [Start] makes no other call: it looks up
    and attaches to nothing, stops nothing and waits for nothing. *)
Theorem Start_calls_come_phase_by_phase (build : Build) (st : State W) :
  exists emitter rest,
    calls (snd (Start E build st))
      = calls st ++ CreateEmitter (EventsCallback build) emitter :: rest /\
    by_phase 1 rest /\
    Forall (fun c => 1 <= phase c < 7) rest.
Proof.
  destruct (Start_log build st) as (emitter & flog & mid & Hc & Hph & Hmid).
  destruct (Start_log_phases build st emitter flog mid Hph Hmid)
    as (Hb & Hf & _).
  exists emitter,
    ((flog ++ mid) ++ closing emitter (snd (fst (Start E build st)))
       ++ (TrackerRelease <$> rev (inits flog))).
  split; [rewrite Hc, <- app_assoc; reflexivity|].
  pose proof (closing_phase emitter (snd (fst (Start E build st)))) as Hcl.
  pose proof (release_phase (rev (inits flog))) as Hrel.
  split.
  - apply (by_phase_app 1 5); [lia|exact Hb| |].
    + eapply Forall_impl; [exact Hf|]. cbn. intros; lia.
    + apply (by_phase_app 5 6); [lia| | |].
      * apply by_phase_same. exact Hcl.
      * eapply Forall_impl; [exact Hcl|]. cbn. intros c ->. lia.
      * apply by_phase_same. exact Hrel.
  - apply Forall_app. split; [|apply Forall_app; split].
    + eapply Forall_impl; [exact Hf|]. cbn. intros; lia.
    + eapply Forall_impl; [exact Hcl|]. cbn. intros c ->. lia.
    + eapply Forall_impl; [exact Hrel|]. cbn. intros c ->. lia.
Qed.

(** X13: on every path, failed or not, [Start] releases every resource
    that [tracker.Init] handed out, each once, the latest first, and
    these releases are its last calls; it releases nothing else and
    nothing earlier. *)
Theorem Start_releases_what_it_initialised (build : Build) (st : State W) :
  exists body,
    calls (snd (Start E build st))
      = calls st ++ body ++ (TrackerRelease <$> rev (inits body)) /\
    released body = [].
Proof.
  destruct (Start_log build st) as (emitter & flog & mid & Hc & Hph & Hmid).
  destruct (Start_log_phases build st emitter flog mid Hph Hmid)
    as (_ & Hf & Hge).
  apply Forall_app in Hf as [Hf1 Hf2].
  destruct (phase_projections _ Hf1) as (_ & _ & Hrel1).
  destruct (phase_projections _ Hf2) as (_ & _ & Hrel2).
  destruct (phase_not_fetching _ Hge) as (Hin & _).
  destruct (closing_projections emitter (snd (fst (Start E build st))))
    as (Hic & Hrc & _).
  exists ([CreateEmitter (EventsCallback build) emitter]
            ++ (flog ++ mid)
            ++ closing emitter (snd (fst (Start E build st)))).
  split.
  - rewrite !inits_app, Hin, Hic, !app_nil_r. cbn [inits omap app].
    rewrite Hc, <- !app_assoc. reflexivity.
  - rewrite !released_app, Hrel1, Hrel2, Hrc. reflexivity.
Qed.

(** X14: [Start] creates one emitter, for the events callback of the
    build.  It closes that emitter, once, exactly when it returns an
    error, and then the build it returns is the empty [RunningBuild{}];
    when it returns nil the emitter stays open and is handed on in the
    running build. *)
Theorem Start_closes_its_emitter_iff_it_fails (build : Build) (st : State W) :
  exists emitter new,
    calls (snd (Start E build st)) = calls st ++ new /\
    creates new = [(EventsCallback build, emitter)] /\
    match snd (fst (Start E build st)) with
    | Some _ =>
        closes new = [emitter] /\
        fst (fst (Start E build st)) = RunningBuild_zero
    | None =>
        closes new = [] /\
        RunningBuild_Emitter (fst (fst (Start E build st))) = Some emitter
    end.
Proof.
  destruct (Start_log build st) as (emitter & flog & mid & Hc & Hph & Hmid).
  destruct (Start_log_phases build st emitter flog mid Hph Hmid)
    as (_ & Hf & _).
  apply Forall_app in Hf as [Hf1 Hf2].
  destruct (phase_projections _ Hf1) as (Hcr & Hcl & _).
  destruct (phase_projections _ Hf2) as (Hcr' & Hcl' & _).
  destruct (closing_projections emitter (snd (fst (Start E build st))))
    as (_ & _ & Hcr1 & _ & _ & _ & Hcl1).
  destruct (release_projections (rev (inits flog)))
    as (_ & Hcr2 & Hcl2 & _).
  exists emitter,
    ([CreateEmitter (EventsCallback build) emitter]
       ++ (flog ++ mid)
       ++ closing emitter (snd (fst (Start E build st)))
       ++ (TrackerRelease <$> rev (inits flog))).
  split; [rewrite Hc, <- !app_assoc; reflexivity|].
  remember (fst (Start E build st)) as res eqn:Hres0. clear Hc Hres0.
  rewrite !creates_app, !closes_app, Hcr, Hcr', Hcr1, Hcr2, Hcl, Hcl', Hcl1,
    Hcl2.
  split; [reflexivity|].
  destruct Hmid as [(err & Hres & _)|[_ Hset]].
  - rewrite Hres. cbn. auto.
  - destruct Hset; cbn; auto.
Qed.

Lemma phase_streaming (log : list Call) :
  Forall (fun c => phase c = 3) log -> emitted log = [].
Proof.
  induction 1 as [|c log Hc _ IH]; [reflexivity|].
  destruct c; cbn in Hc; try lia; try destruct ev; try discriminate; auto.
Qed.

(** The calls of a [Start] that returned nil, and what it returned. *)
Lemma Start_ok_log build st running st' :
  Start E build st = ((running, None), st') ->
  exists emitter flog container slog now process,
    let b :=
      mkBuild (Guid build) (Privileged build)
        (foldl (Config_Merge E) (BuildConfig build) (fetched_configs flog))
        (computed_inputs flog) (Outputs build) (EventsCallback build) in
    calls st'
      = calls st ++ [CreateEmitter (EventsCallback build) emitter] ++ flog
          ++ [EmitEvent emitter (event.Initialize (BuildConfig b));
              ClientCreate (mkContainerSpec (Image (BuildConfig b)))
                           (inr container)]
          ++ slog
          ++ [TimeNow now; EmitEvent emitter (event.Start now);
              ContainerRun container
                (run_spec (Privileged b) (BuildConfig b))
                (emitterProcessIO emitter) (inr process)]
          ++ (TrackerRelease <$> rev (inits flog)) /\
    Forall (fun c => phase c = 1) flog /\
    Forall (fun c => phase c = 3) slog /\
    length (computed_inputs flog) = length (Inputs build) /\
    running = mkRunningBuild b (Handle container) (Some container)
                (ID process) (Some process) (Some emitter).
Proof.
  intros Hrun.
  destruct (Start_log build st) as (emitter & flog & mid & Hc & Hph & Hmid).
  rewrite Hrun in Hc, Hmid. cbn [fst snd closing] in Hc, Hmid.
  destruct Hmid as [(err & [=] & _)|[Hl Hset]].
  inversion Hset as [| | |container slog now process Hp Hm Hr]; subst.
  exists emitter, flog, container, slog, now, process. cbn zeta.
  split; [|auto].
  rewrite Hc. cbn. rewrite <- !app_assoc. reflexivity.
Qed.

(** X15: the build in the [RunningBuild] of a [Start] that returned nil
    is the submitted build with two fields replaced: its inputs are the
    computed inputs that the [In] calls returned, one per submitted input
    and in their order, and its config is the submitted config with the
    config of every input merged in, in the order of the inputs.  The
    handle and the process id it carries are those of the container and
    of the process it carries. *)
Theorem Start_returns_computed_inputs_and_merged_config
    (build : Build) (st st' : State W) (running : RunningBuild) :
  Start E build st = ((running, None), st') ->
  exists new container process,
    calls st' = calls st ++ new /\
    RunningBuild_Build running
      = mkBuild (Guid build) (Privileged build)
          (foldl (Config_Merge E) (BuildConfig build) (fetched_configs new))
          (computed_inputs new) (Outputs build) (EventsCallback build) /\
    length (computed_inputs new) = length (Inputs build) /\
    RunningBuild_Container running = Some container /\
    RunningBuild_ContainerHandle running = Handle container /\
    RunningBuild_Process running = Some process /\
    RunningBuild_ProcessID running = ID process.
Proof.
  intros Hrun.
  destruct (Start_ok_log build st running st' Hrun)
    as (emitter & flog & container & slog & now & process
        & Hc & Hph & Hsp & Hl & ->).
  cbn zeta in Hc.
  eexists _, container, process. split; [exact Hc|].
  assert (Forall (fun c => 2 <= phase c) slog) as Hs2
    by (eapply Forall_impl; [exact Hsp|]; cbn; intros c ->; lia).
  destruct (phase_not_fetching _ Hs2) as (_ & Hci & Hfc & _).
  destruct (release_projections (rev (inits flog)))
    as (_ & _ & _ & Hci' & Hfc' & _).
  rewrite !computed_inputs_app, !fetched_configs_app, Hci, Hci', Hfc, Hfc'.
  cbn. rewrite !app_nil_r. repeat split. exact Hl.
Qed.

(** X16: the container a [Start] that returned nil hands on was created
    from the image of the merged config, and the process it hands on was
    started in that container, in ["/tmp/build/src"], with the path and
    arguments of the merged config, with the privilege of the build, with
    one ["name=value"] per parameter of the merged config as environment,
    and with the output streams of the emitter it hands on. *)
Theorem Start_runs_what_the_merged_config_says
    (build : Build) (st st' : State W) (running : RunningBuild) :
  Start E build st = ((running, None), st') ->
  exists new emitter container process spec,
    calls st' = calls st ++ new /\
    RunningBuild_Emitter running = Some emitter /\
    RunningBuild_Container running = Some container /\
    RunningBuild_Process running = Some process /\
    let cfg := BuildConfig (RunningBuild_Build running) in
    ClientCreate (mkContainerSpec (Image cfg)) (inr container) ∈ new /\
    ContainerRun container spec (emitterProcessIO emitter) (inr process)
      ∈ new /\
    ProcessPath spec = Path (Run cfg) /\
    ProcessArgs spec = Args (Run cfg) /\
    Dir spec = "/tmp/build/src" /\
    ProcessPrivileged spec = Privileged build /\
    ProcessEnv spec
      ≡ₚ (fun nv => fst nv +:+ "=" +:+ snd nv)
           <$> map_to_list (ConfigParams cfg).
Proof.
  intros Hrun.
  destruct (Start_ok_log build st running st' Hrun)
    as (emitter & flog & container & slog & now & process
        & Hc & Hph & Hsp & Hl & ->).
  cbn zeta in Hc.
  eexists _, emitter, container, process, _.
  split; [exact Hc|].
  cbn [RunningBuild_Emitter RunningBuild_Container RunningBuild_Process
       RunningBuild_Build BuildConfig Privileged].
  split; [reflexivity|]. split; [reflexivity|]. split; [reflexivity|].
  split; [|split].
  - rewrite !elem_of_app. right. right. left.
    apply elem_of_cons. right. apply elem_of_cons. left. reflexivity.
  - rewrite !elem_of_app. do 4 right. left.
    do 2 (apply elem_of_cons; right). apply elem_of_cons. left. reflexivity.
  - cbn. repeat split. rewrite range_map_perm. reflexivity.
Qed.

Lemma set_up_emitted emitter build mid res :
  set_up emitter build mid res ->
  exists now,
    emitted mid `prefix_of`
      [event.Initialize (BuildConfig build); event.Start now] /\
    (snd res = None ->
     emitted mid = [event.Initialize (BuildConfig build); event.Start now] /\
     TimeNow now ∈ mid /\
     BuildConfig (RunningBuild_Build (fst res)) = BuildConfig build).
Proof.
  intros [err|container slog err Hp|container slog now err Hp
          |container slog now process Hp];
    try pose proof (phase_streaming slog Hp) as Hs.
  - exists 0%Z. split; [|discriminate]. eexists [_]. reflexivity.
  - exists 0%Z. split; [|discriminate].
    rewrite emitted_app, Hs. eexists [_]. reflexivity.
  - exists now. split; [|discriminate].
    rewrite !emitted_app, Hs. exists []. reflexivity.
  - exists now. rewrite !emitted_app, Hs. split; [exists []; reflexivity|].
    intros _. split; [reflexivity|]. split; [|reflexivity].
    rewrite !elem_of_app. right. right.
    apply elem_of_cons. left. reflexivity.
Qed.

(** X17: [Start] emits at most two events, on every path: [Initialize],
    carrying the config merged from the inputs, and then [Start],
    carrying the time the clock gave; a [Start] that fails emits no
    event that tells so.  A [Start] that returns nil has emitted both,
    and the config in [Initialize] is the config of the running build. *)
Theorem Start_emits_Initialize_then_Start (build : Build) (st : State W) :
  exists new now,
    calls (snd (Start E build st)) = calls st ++ new /\
    emitted new `prefix_of`
      [event.Initialize
         (foldl (Config_Merge E) (BuildConfig build) (fetched_configs new));
       event.Start now] /\
    (snd (fst (Start E build st)) = None ->
     emitted new
       = [event.Initialize
            (BuildConfig (RunningBuild_Build (fst (fst (Start E build st)))));
          event.Start now] /\
     TimeNow now ∈ new).
Proof.
  destruct (Start_log build st) as (emitter & flog & mid & Hc & Hph & Hmid).
  destruct (Start_log_phases build st emitter flog mid Hph Hmid)
    as (_ & _ & Hge).
  destruct (phase_not_fetching _ Hge) as (_ & _ & Hfm & _).
  destruct (phase_fetching _ Hph) as (Hef & _).
  destruct (closing_projections emitter (snd (fst (Start E build st))))
    as (_ & _ & _ & _ & Hfc & Hec & _).
  destruct (release_projections (rev (inits flog)))
    as (_ & _ & _ & _ & Hfr & Her & _).
  set (new := [CreateEmitter (EventsCallback build) emitter]
                ++ flog ++ mid
                ++ closing emitter (snd (fst (Start E build st)))
                ++ (TrackerRelease <$> rev (inits flog))).
  assert (fetched_configs new = fetched_configs flog) as Hcfg.
  { unfold new. rewrite !fetched_configs_app, Hfm, Hfc, Hfr.
    cbn. rewrite !app_nil_r. reflexivity. }
  assert (emitted new = emitted mid) as Hem.
  { unfold new. rewrite !emitted_app, Hef, Hec, Her.
    cbn. rewrite !app_nil_r. reflexivity. }
  destruct Hmid as [(err & Hres & ->)|[_ Hset]].
  - exists new, 0%Z. split; [exact Hc|]. rewrite Hem, Hres. cbn.
    split; [apply prefix_nil|discriminate].
  - apply set_up_emitted in Hset as (now & Hpre & Hok).
    cbn [BuildConfig] in Hpre, Hok.
    exists new, now. split; [exact Hc|]. rewrite Hem, Hcfg.
    split; [exact Hpre|]. intros Hnil.
    destruct (Hok Hnil) as (He & Hin & Hb). rewrite Hb.
    split; [exact He|]. unfold new. rewrite !elem_of_app. auto.
Qed.

(** X18: [streamInResources] visits every name of [resources] at most
    once and stops at the first [StreamIn] that fails: the entries it
    streamed in without error, the entry that failed, if any, and the
    entries it did not come to are together the entries of the map. *)
Theorem streamInResources_stops_at_the_first_failure
    (container : Container) (resources : gmap string Stream)
    (paths : gmap string string) (st : State W) :
  exists done rest,
    done ++ rest ≡ₚ map_to_list resources /\
    NoDup ((done ++ rest).*1) /\
    calls (snd (streamInResources E container resources paths st))
      = calls st ++ (stream_in_call container paths None <$> done)
          ++ match fst (streamInResources E container resources paths st)
             with
             | Some err =>
                 stream_in_call container paths (Some err) <$> take 1 rest
             | None => []
             end /\
    match fst (streamInResources E container resources paths st) with
    | Some err => rest <> []
    | None => rest = []
    end.
Proof.
  unfold streamInResources.
  destruct (streamIn_each_log container paths (range_map resources) st)
    as (done & rest & Heq & Hc & Hr).
  exists done, rest. rewrite <- Heq.
  split; [apply range_map_perm|]. split; [|auto].
  rewrite range_map_perm. apply NoDup_fst_map_to_list.
Qed.

(** *** The paths of [Attach] *)

(** The handles a log shows as looked up and the processes it shows as
    attached to. *)
Definition lookups (log : list Call) : list string :=
  omap (fun c => match c with
                 | ClientLookup handle _ => Some handle
                 | _ => None
                 end) log.

Definition attaches (log : list Call) : list (Container * N * ProcessIO) :=
  omap (fun c => match c with
                 | ContainerAttach c pid io _ => Some (c, pid, io)
                 | _ => None
                 end) log.

(** Every path of [Attach], one goal each. *)
Ltac Attach_paths running race st :=
  unfold Attach;
  destruct running as [build handle oc pid op oe];
  cbv beta iota zeta delta
    [bind perform ret tell Close_ waitForRunToEnd select select_wait
     RunningBuild_Emitter RunningBuild_Container RunningBuild_Process
     RunningBuild_ContainerHandle RunningBuild_ProcessID
     RunningBuild_Build];
  cbn [fst snd];
  destruct oe as [emitter|];
  [|destruct (createEmitter E (EventsCallback build) (world st))
      as [emitter w1]];
  cbn [fst snd world calls];
  (destruct oc as [container|];
   [|destruct (client_Lookup E handle _) as [[err|container] w2]];
   cbn [fst snd world calls]);
  try (destruct op as [process|];
       [|destruct (container_Attach E container pid _ _)
           as [[err|process] w3]];
       cbn [fst snd world calls]);
  try (destruct race as [[[status [werr|]]|] [|] [|]];
       cbn [fst snd world calls waited abort_closed prefer_abort];
       try destruct (decide (status <> 0%Z))).

(** X19: [Attach] never uses a handle it does not hold: whatever the
    running build carries, it has an emitter, a container and a process
    before it waits, or it has returned.  It fails to return only while
    the process has not exited and [abort] is open. *)
Theorem Attach_holds_its_handles_before_it_waits
    (running : RunningBuild) (race : Race) (st : State W) :
  fst (Attach E running race st) <> Panicked /\
  (fst (Attach E running race st) = Blocked ->
   waited race = None /\ abort_closed race = false /\
   exists process,
     last (calls (snd (Attach E running race st)))
       = Some (ProcessWait process)).
Proof.
  Attach_paths running race st;
    (split; [discriminate|]); try discriminate;
    intros _; (split; [reflexivity|]); (split; [reflexivity|]);
    exists process; cbn [calls snd]; apply last_snoc.
Qed.

(** X20: when [Attach] returns, at most one of its two errors is set,
    and unless both are nil the build it returns is the empty
    [SucceededBuild{}].  It closes the emitter, once, exactly when it
    returns an error of the attach (a failed lookup, a failed attach, a
    failed wait or an abort); when the process exited, with whatever
    status, the emitter stays open, and for status 0 it is handed on with
    the build. *)
Theorem Attach_closes_the_emitter_iff_attaching_fails
    (running : RunningBuild) (race : Race) (st st' : State W)
    (succeeded : SucceededBuild) (buildErr attachErr : option error) :
  Attach E running race st
    = (Returned (succeeded, buildErr, attachErr), st') ->
  exists new emitter,
    calls st' = calls st ++ new /\
    attach_emitter running new emitter /\
    closes new = option_list ((fun _ => emitter) <$> attachErr) /\
    (buildErr = None \/ attachErr = None) /\
    (succeeded = SucceededBuild_zero \/
     (buildErr = None /\ attachErr = None /\
      SucceededBuild_Emitter succeeded = Some emitter /\
      SucceededBuild_Build succeeded = RunningBuild_Build running)).
Proof.
  Attach_paths running race st; try discriminate;
    intros [= <- <- <- <-];
    eexists _, emitter;
    (split; [cbn [calls]; rewrite <- ?app_assoc; reflexivity|]);
    unfold attach_emitter; cbn;
    (split; [first [reflexivity | constructor]|]);
    (split; [reflexivity|]); auto 10.
Qed.

(** X21: [Attach] asks the outside only for the handles the running build
    does not carry.  It creates an emitter only when there is none, and
    then one for the events callback of the build; it looks a container
    up only when there is none, and then by the container handle; it
    attaches to a process only when there is none, and then once, in the
    container it holds, by the process id of the running build and with
    the output streams of its emitter. *)
Theorem Attach_asks_only_for_the_handles_it_lacks
    (running : RunningBuild) (race : Race) (st : State W) :
  exists new emitter,
    calls (snd (Attach E running race st)) = calls st ++ new /\
    attach_emitter running new emitter /\
    creates new
      = match RunningBuild_Emitter running with
        | Some _ => []
        | None => [(EventsCallback (RunningBuild_Build running), emitter)]
        end /\
    lookups new
      = match RunningBuild_Container running with
        | Some _ => []
        | None => [RunningBuild_ContainerHandle running]
        end /\
    forall c p io,
      (c, p, io) ∈ attaches new ->
      attaches new = [(c, p, io)] /\
      RunningBuild_Process running = None /\
      attach_container running new c /\
      p = RunningBuild_ProcessID running /\
      io = emitterProcessIO emitter.
Proof.
  Attach_paths running race st;
    eexists _, emitter;
    (split; [cbn [calls snd]; rewrite <- ?app_assoc; reflexivity|]);
    unfold attach_emitter, attach_container; cbn;
    (split; [first [reflexivity | constructor]|]);
    (split; [reflexivity|]); (split; [reflexivity|]);
    intros c0 p0 io0 Hin;
    first [ inversion Hin; fail
          | apply list_elem_of_singleton in Hin;
            injection Hin as -> -> ->;
            repeat split;
            first [ reflexivity
                  | apply elem_of_cons; left; reflexivity
                  | apply elem_of_cons; right; apply elem_of_cons; left;
                    reflexivity ] ].
Qed.

(** X22: when [Attach] has come to wait for the process and [Wait]
    itself fails, [Attach] returns the error of [Wait] as the error of
    the attach, with an empty build; it closes the emitter as its last
    call, stops nothing and emits nothing. *)
Theorem Attach_returns_the_error_of_Wait
    (running : RunningBuild) (race : Race) (st st' : State W)
    (res : ended (SucceededBuild * option error * option error))
    (new : list Call) (err : error) :
  Attach E running race st = (res, st') ->
  calls st' = calls st ++ new ->
  (exists process, ProcessWait process ∈ new) ->
  select race = SelectErr err ->
  exists emitter container process pre,
    attach_emitter running pre emitter /\
    attach_container running pre container /\
    new = pre ++ [ProcessWait process; EmitterClose emitter] /\
    stops new = [] /\
    emitted new = [] /\
    res = Returned (SucceededBuild_zero, None, Some err).
Proof.
  intros Hrun Hcalls Hwait Hsel.
  destruct (Attach_waiting E _ _ _ _ _ _ Hrun Hcalls Hwait)
    as (emitter & container & process & pre & Hem & Hco & Hst & Hev & Hm).
  rewrite Hsel in Hm. destruct Hm as [-> ->].
  exists emitter, container, process, pre.
  rewrite stops_app, emitted_app, Hst, Hev.
  repeat split; assumption.
Qed.

(** *** [Hijack] *)

Definition Hijack (running : RunningBuild) (spec : ProcessSpec)
    (io : ProcessIO) : M (State W) (error + Process) :=
  let* r :=
    perform (client_Lookup E (RunningBuild_ContainerHandle running))
            (ClientLookup (RunningBuild_ContainerHandle running)) in
  match r with
  | inl err => ret (inl err)
  | inr container =>
      perform (container_Run E container spec io)
              (ContainerRun container spec io)
  end.

(** X23: [Hijack] looks the container up by the handle of the running
    build, also when the running build carries a container, and runs the
    given process, with the given streams, in the container the lookup
    returned; what [Run] returns is what it returns.  When the lookup
    fails it returns that error and runs nothing.  Of the running build
    only the container handle matters. *)
Theorem Hijack_runs_in_the_container_it_looks_up
    (running : RunningBuild) (spec : ProcessSpec) (io : ProcessIO)
    (st : State W) :
  exists looked,
    calls (snd (Hijack running spec io st))
      = calls st
          ++ ClientLookup (RunningBuild_ContainerHandle running) looked
          :: match looked with
             | inl _ => []
             | inr container =>
                 [ContainerRun container spec io
                    (fst (Hijack running spec io st))]
             end /\
    (forall err,
        looked = inl err -> fst (Hijack running spec io st) = inl err) /\
    forall running',
      RunningBuild_ContainerHandle running'
        = RunningBuild_ContainerHandle running ->
      Hijack running' spec io st = Hijack running spec io st.
Proof.
  unfold Hijack.
  cbv beta iota zeta delta [bind perform ret]; cbn [fst snd].
  destruct (client_Lookup E (RunningBuild_ContainerHandle running) (world st))
    as [[err|container] w1] eqn:Hlook; cbn [fst snd world calls].
  - exists (inl err). split; [reflexivity|].
    split; [intros err' [= <-]; reflexivity|].
    intros running' ->. rewrite Hlook. reflexivity.
  - exists (inr container). split; [rewrite <- app_assoc; reflexivity|].
    split; [discriminate|].
    intros running' ->. rewrite Hlook. reflexivity.
Qed.

End Lifecycle.

(** *** The emitter of [Complete] *)

Section Closing.
Context {W : Type} `{MapRange}.
Variable E : Env W.
Variable P : outputs.Env.

(** X24: a [Complete] that returns has closed one emitter, once, whether
    it returns an error or not: the emitter the succeeded build carried,
    or else the one it created, for the events callback of the build; it
    creates none when the build carried one.  With an error it returns
    the empty [builds.Build{}]; without, the build it was given with only
    the outputs replaced. *)
Theorem Complete_closes_its_emitter_once
    (succeeded : SucceededBuild) (sched_errs sched_results : list nat)
    (st st' : State W) (res : Build * option error) :
  Complete E P succeeded sched_errs sched_results st = (Returned res, st') ->
  exists new emitter,
    calls st' = calls st ++ new /\
    closes new = [emitter] /\
    creates new
      = match SucceededBuild_Emitter succeeded with
        | Some _ => []
        | None =>
            [(EventsCallback (SucceededBuild_Build succeeded), emitter)]
        end /\
    (forall cached,
        SucceededBuild_Emitter succeeded = Some cached -> emitter = cached) /\
    match snd res with
    | Some _ => fst res = Build_zero
    | None =>
        fst res
          = with_Outputs (Outputs (fst res)) (SucceededBuild_Build succeeded)
    end.
Proof.
  unfold Complete.
  cbv beta iota zeta delta [bind perform ret tell Close_]; cbn [fst snd].
  destruct (SucceededBuild_Emitter succeeded) as [emitter|] eqn:Hcarried;
    [|destruct (createEmitter E _ (world st)) as [emitter w1]];
    cbn [fst snd world calls];
    destruct (snd (performOutputs _ _ _ _ _)) as [[outs [err|]]| |];
    cbn [fst snd world calls]; try discriminate;
    intros [= <- <-]; rewrite <- ?app_assoc;
    eexists; exists emitter;
    (split; [reflexivity|]); (split; [reflexivity|]);
    (split; [reflexivity|]); (split; [|reflexivity]);
    first [intros cached [= <-]; reflexivity | discriminate].
Qed.

End Closing.

(** *** How [performOutputs] ends *)

Section Completing.
Context `{MapRange}.
Variable P : outputs.Env.

(** A map filled over a list with distinct keys is the map of that
    list. *)
Lemma foldl_insert_list_to_map {X V} (key : X -> string) (val : X -> V)
    (l : list X) :
  NoDup (key <$> l) ->
  foldl (fun (m : gmap string V) x => <[key x := val x]> m) ∅ l
    = list_to_map ((fun x => (key x, val x)) <$> l).
Proof.
  induction l as [|x l IH] using rev_ind; [reflexivity|].
  rewrite fmap_app, NoDup_app. cbn. intros (Hnd & Hnot & _).
  rewrite foldl_snoc, IH by exact Hnd. rewrite fmap_app. cbn.
  symmetry. apply list_to_map_snoc.
  rewrite <- list_fmap_compose. intros Hin. apply (Hnot (key x)).
  - exact Hin.
  - apply list_elem_of_singleton. reflexivity.
Qed.

(** X25: for a build without outputs [performOutputs] starts no
    goroutine and waits for none: it needs no container, it cannot fail
    and it cannot block.  The outputs it returns are the values of the
    map of implicit outputs; when the inputs bear distinct names, that
    is one implicit output per input. *)
Theorem performOutputs_without_outputs_returns_the_implicit_outputs
    (container : option Container) (build : Build)
    (sched_errs sched_results : list nat) :
  Outputs build = [] ->
  exists outs,
    performOutputs P container build sched_errs sched_results
      = ([], Returned (outs, None)) /\
    outs ≡ₚ (map_to_list (implicit_outputs (Inputs build))).*2 /\
    (NoDup (Input.Name <$> Inputs build) ->
     outs ≡ₚ implicit_output <$> Inputs build).
Proof.
  intros Hnil. unfold performOutputs. rewrite Hnil. cbn.
  exists (collect (implicit_outputs (Inputs build))).
  split; [reflexivity|]. unfold collect. split.
  - rewrite range_map_perm. reflexivity.
  - intros Hnd. rewrite range_map_perm. unfold implicit_outputs.
    rewrite (foldl_insert_list_to_map Input.Name implicit_output _ Hnd).
    rewrite map_to_list_to_map.
    + rewrite <- list_fmap_compose. reflexivity.
    + rewrite <- list_fmap_compose. exact Hnd.
Qed.


End Completing.

(** *** Runs against a runtime that accepts every call *)

#[local] Instance range_in_key_order : MapRange :=
  mkMapRange (fun A => map_to_list) (fun A m => reflexivity _).

Definition willing_env : Env unit :=
  @mkEnv unit
    (fun url w => (mkEmitter url, w))
    (fun _ _ w => w)
    (fun _ w => w)
    (fun typ _ w => (inr (mkResource (String.length typ)), w))
    (fun _ w => w)
    (fun _ input w =>
       (inr (Input.Type_ input +:+ ":" +:+ Input.Name input,
             Input.mk (Input.Name input) (Input.Type_ input)
                      (Input.Source input) (Input.Params input)
                      {[ "ref" := "1" ]} [],
             mkConfig "" ∅ (mkRunConfig "" []) ∅), w))
    (fun spec w => (inr (mkContainer "some-handle"), w))
    (fun handle w => (inr (mkContainer handle), w))
    (fun _ _ _ w => (None, w))
    (fun _ _ _ w => (inr (mkProcess 42), w))
    (fun _ pid _ w => (inr (mkProcess pid), w))
    (fun _ _ w => w)
    (fun w => (1400000000%Z, w))
    (fun mine theirs => mine).

Definition fresh : State unit := @mkState unit tt [].

Definition some_build : Build :=
  mkBuild "some-guid" false
    (mkConfig "some-rootfs" ∅ (mkRunConfig "./bin/test" []) ∅)
    [] [] "some-events-callback".

(** A build as [Start] returns it, with its live handles. *)
Definition some_running : RunningBuild :=
  mkRunningBuild some_build "some-handle"
    (Some (mkContainer "some-handle")) 42 (Some (mkProcess 42))
    (Some (mkEmitter "some-events-callback")).

(** [abort] is closed while [Wait] has not returned. *)
Definition aborted_while_running : Race := mkRace None true false.

(** [Wait] returns [status]; [abort] stays open. *)
Definition exits_with (status : Z) : Race :=
  mkRace (Some (status, None)) false false.

(** C7 as stated fails: the abort case stops the container and returns
    [ErrAborted], but no [Error] event is emitted. *)
Lemma Attach_abort_emits_no_error_event :
  Attach willing_env some_running aborted_while_running fresh
    = (Returned (SucceededBuild_zero, None, Some ErrAborted),
       @mkState unit tt
         [ProcessWait (mkProcess 42);
          ContainerStop (mkContainer "some-handle") false;
          EmitterClose (mkEmitter "some-events-callback")]) /\
  ~ emits_abort_error
      (calls (snd (Attach willing_env some_running aborted_while_running
                     fresh))).
Proof.
  split; [reflexivity|].
  unfold emits_abort_error. cbn. apply not_elem_of_nil.
Qed.

Lemma Attach_abort_stops_container_once_witness :
  exists emitter container process pre,
    attach_emitter some_running pre emitter /\
    attach_container some_running pre container /\
    calls (snd (Attach willing_env some_running aborted_while_running fresh))
      = pre ++ [ProcessWait process; ContainerStop container false;
                EmitterClose emitter] /\
    stops
      (calls (snd (Attach willing_env some_running aborted_while_running
                     fresh)))
      = [(container, false)] /\
    emitted
      (calls (snd (Attach willing_env some_running aborted_while_running
                     fresh)))
      = [] /\
    fst (Attach willing_env some_running aborted_while_running fresh)
      = Returned (SucceededBuild_zero, None, Some ErrAborted).
Proof.
  apply (Attach_abort_stops_container_once willing_env some_running
           aborted_while_running fresh _ _ _ eq_refl eq_refl).
  - exists (mkProcess 42). apply elem_of_cons. left. reflexivity.
  - reflexivity.
Defined.

(** C8 as stated fails: for exit status 2 [Attach] returns an empty build
    and the error "exit status 2". *)
Lemma Attach_nonzero_status_returns_no_build :
  fst (Attach willing_env some_running (exits_with 2) fresh)
    = Returned (SucceededBuild_zero,
                Some (errorString "exit status 2"), None) /\
  ~ returns_exited_build some_running
      (fst (Attach willing_env some_running (exits_with 2) fresh)).
Proof.
  split; [reflexivity|].
  intros (succeeded & Hres & _). vm_compute in Hres. discriminate.
Qed.

Lemma Attach_returns_build_for_status_zero_witness :
  exists emitter container process pre,
    attach_emitter some_running pre emitter /\
    attach_container some_running pre container /\
    calls (snd (Attach willing_env some_running (exits_with 0) fresh))
      = pre ++ [ProcessWait process] /\
    stops (calls (snd (Attach willing_env some_running (exits_with 0) fresh)))
      = [] /\
    emitted
      (calls (snd (Attach willing_env some_running (exits_with 0) fresh)))
      = [] /\
    (0%Z = 0%Z ->
     fst (Attach willing_env some_running (exits_with 0) fresh)
       = Returned
           (mkSucceededBuild some_build "" (Some container) (Some emitter),
            None, None)) /\
    (0%Z <> 0%Z ->
     fst (Attach willing_env some_running (exits_with 0) fresh)
       = Returned
           (SucceededBuild_zero,
            Some (errorString ("exit status " +:+ pretty 0%Z)), None)).
Proof.
  apply (Attach_returns_build_for_status_zero willing_env some_running
           (exits_with 0) fresh _ _ _ 0%Z eq_refl eq_refl).
  - exists (mkProcess 42). apply elem_of_cons. left. reflexivity.
  - reflexivity.
Defined.

(** *** What [Start] streams in, on three builds *)

Definition input_a_git : Input.t := Input.mk "a" "git" ∅ ∅ ∅ [].
Definition input_a_s3 : Input.t := Input.mk "a" "s3" ∅ ∅ ∅ [].
Definition input_b : Input.t := Input.mk "b" "raw" ∅ ∅ ∅ [].

Definition remapping_b : Config :=
  mkConfig "some-rootfs" ∅ (mkRunConfig "./bin/test" [])
           {[ "b" := "deps/b" ]}.

(** Two inputs that bear the same name. *)
Definition two_named_a : Build :=
  mkBuild "some-guid" false remapping_b [input_a_git; input_a_s3] []
          "some-events-callback".

Definition a_and_b : Build :=
  mkBuild "some-guid" false remapping_b [input_a_git; input_b] []
          "some-events-callback".

(** C6 as stated fails.  [Start] on a build without inputs returns no
    error and has made no [StreamIn]; [Start] on two inputs named "a"
    returns no error, has fetched both and has streamed in only the tar
    fetched last. *)
Lemma Start_streams_no_empty_tar_and_one_tar_per_name :
  (snd (fst (Start willing_env some_build fresh)) = None /\
   stream_ins (calls (snd (Start willing_env some_build fresh))) = [] /\
   ~ streams_one_tar_into_src
       (calls (snd (Start willing_env some_build fresh)))) /\
  (snd (fst (Start willing_env two_named_a fresh)) = None /\
   fetches (calls (snd (Start willing_env two_named_a fresh)))
     = [("a", "git:a"); ("a", "s3:a")] /\
   stream_ins (calls (snd (Start willing_env two_named_a fresh)))
     = [(mkContainer "some-handle", "/tmp/build/src/a", "s3:a")] /\
   ~ streams_every_fetched_input
       (calls (snd (Start willing_env two_named_a fresh)))).
Proof.
  split.
  - split; [reflexivity|]. split; [reflexivity|].
    intros (container & tar & Hs). vm_compute in Hs. discriminate.
  - split; [reflexivity|].
    assert (fetches (calls (snd (Start willing_env two_named_a fresh)))
            = [("a", "git:a"); ("a", "s3:a")]) as Hf
      by (vm_compute; reflexivity).
    assert (stream_ins (calls (snd (Start willing_env two_named_a fresh)))
            = [(mkContainer "some-handle", "/tmp/build/src/a", "s3:a")])
      as Hs by (vm_compute; reflexivity).
    split; [exact Hf|]. split; [exact Hs|].
    unfold streams_every_fetched_input. rewrite Hf, Hs.
    intros Hall. destruct (Hall ("a", "git:a")) as (c & dst & Hin).
    + apply elem_of_cons. left. reflexivity.
    + apply list_elem_of_singleton in Hin. discriminate.
Qed.

Lemma Start_streams_in_resources_by_name_witness :
  (exists new container entries,
      calls (snd (Start willing_env a_and_b fresh)) = calls fresh ++ new /\
      RunningBuild_Container (fst (fst (Start willing_env a_and_b fresh)))
        = Some container /\
      (fetches new).*1 = Input.Name <$> Inputs a_and_b /\
      NoDup entries.*1 /\
      (forall name tarStream,
          (name, tarStream) ∈ entries <->
          last (filter (fun fetched => fst fetched = name) (fetches new))
            = Some (name, tarStream)) /\
      stream_ins new ≡ₚ
        (fun entry =>
           (container,
            "/tmp/build/src/" +:+
              match Paths
                      (BuildConfig
                         (RunningBuild_Build
                            (fst (fst (Start willing_env a_and_b fresh)))))
                      !! fst entry with
              | Some destination => destination
              | None => fst entry
              end,
            snd entry)) <$> entries /\
      (NoDup (Input.Name <$> Inputs a_and_b) -> entries ≡ₚ fetches new)) /\
  stream_ins (calls (snd (Start willing_env a_and_b fresh)))
    = [(mkContainer "some-handle", "/tmp/build/src/a", "git:a");
       (mkContainer "some-handle", "/tmp/build/src/deps/b", "raw:b")].
Proof.
  split.
  - apply (Start_streams_in_resources_by_name willing_env a_and_b fresh
             (snd (Start willing_env a_and_b fresh))
             (fst (fst (Start willing_env a_and_b fresh)))).
    vm_compute. reflexivity.
  - vm_compute. reflexivity.
Defined.

(** *** What [Complete] performs and returns, on four builds *)

Definition a_git : Output.t :=
  Output.mk "a" "git" ∅ ∅ "" [OutputConditionSuccess] ∅ [].
Definition a_s3 : Output.t :=
  Output.mk "a" "s3" ∅ ∅ "" [OutputConditionSuccess] ∅ [].
Definition b_s3 : Output.t :=
  Output.mk "b" "s3" ∅ ∅ "" [OutputConditionSuccess] ∅ [].
Definition report_on_failure : Output.t :=
  Output.mk "report" "s3" ∅ ∅ "" [OutputConditionFailure] ∅ [].

(** [Out] of [outputs.stamping_env] puts the type under "ref". *)
Definition stamped (o : Output.t) : Output.t :=
  Output.with_Version {[ "ref" := Output.Type_ o ]} o.

Definition succeeded_with (inputs : list Input.t) (outs : list Output.t)
  : SucceededBuild :=
  mkSucceededBuild
    (mkBuild "some-guid" false remapping_b inputs outs
             "some-events-callback")
    "" (Some (mkContainer "some-handle"))
    (Some (mkEmitter "some-events-callback")).

Definition completed (inputs : list Input.t) (outs : list Output.t)
    (sched : list nat) : ended (Build * option error) :=
  fst (Complete willing_env outputs.stamping_env
         (succeeded_with inputs outs) sched sched fresh).

(** [Out] succeeds and returns the output it was given. *)
Definition keeping_env : outputs.Env :=
  outputs.mkEnv (fun _ _ => inr "tar")
                (fun i _ _ => inr (resource.mkResource i))
                (fun _ _ _ o => (o, None)).

Definition input_a_v1 : Input.t :=
  Input.mk "a" "git" {[ "uri" := "some-uri" ]} {[ "depth" := "1" ]}
           {[ "ref" := "v1" ]} [mkMetadataField "commit" "abc"].
Definition input_b_v7 : Input.t :=
  Input.mk "b" "s3" {[ "bucket" := "in" ]} ∅ {[ "ref" := "v7" ]} [].
Definition b_out : Output.t :=
  Output.mk "b" "s3" {[ "bucket" := "out" ]} {[ "file" := "b.tgz" ]}
            "b" [OutputConditionSuccess] ∅ [].

Definition kept (inputs : list Input.t) (outs : list Output.t)
    (sched : list nat) : ended (Build * option error) :=
  fst (Complete willing_env keeping_env
         (succeeded_with inputs outs) sched sched fresh).

(** C1 as stated fails.  Of two performed outputs named "a" only the one
    that arrived last is returned; of two inputs named "a" only the
    implicit output of the second is returned. *)
Lemma Complete_keeps_one_output_per_name :
  (exists build',
      completed [] [a_git; a_s3] [0; 1] = Returned (build', None) /\
      outputs.resource_Out outputs.stamping_env 0 (resource.mkResource 0)
        "tar" a_git
        = (Output.mk "a" "git" ∅ ∅ "" [OutputConditionSuccess]
                     {[ "ref" := "git" ]} [], None) /\
      outputs.resource_Out outputs.stamping_env 1 (resource.mkResource 1)
        "tar" a_s3
        = (Output.mk "a" "s3" ∅ ∅ "" [OutputConditionSuccess]
                     {[ "ref" := "s3" ]} [], None) /\
      Outputs build'
        = [Output.mk "a" "s3" ∅ ∅ "" [OutputConditionSuccess]
                     {[ "ref" := "s3" ]} []] /\
      ~ implicit_and_performed []
          [Output.mk "a" "git" ∅ ∅ "" [OutputConditionSuccess]
                     {[ "ref" := "git" ]} [];
           Output.mk "a" "s3" ∅ ∅ "" [OutputConditionSuccess]
                     {[ "ref" := "s3" ]} []]
          (Outputs build')) /\
  (exists build',
      completed [input_a_git; input_a_s3] [] [] = Returned (build', None) /\
      Outputs build' = [Output.mk "a" "s3" ∅ ∅ "" [] ∅ []] /\
      ~ implicit_and_performed [input_a_git; input_a_s3] []
          (Outputs build')).
Proof.
  split.
  - eexists. split; [vm_compute; reflexivity|].
    split; [reflexivity|]. split; [reflexivity|].
    split; [vm_compute; reflexivity|].
    cbn [Outputs]. intros Hunion.
    match type of Hunion with
    | implicit_and_performed _ (?first :: _) [?kept] =>
        assert (first ∈ [kept]) as Hin
    end.
    { apply Hunion. left. apply elem_of_cons. left. reflexivity. }
    apply list_elem_of_singleton in Hin. discriminate.
  - eexists. split; [vm_compute; reflexivity|].
    split; [reflexivity|].
    cbn [Outputs]. intros Hunion.
    assert (Output.mk "a" "git" ∅ ∅ "" [] ∅ []
              ∈ [Output.mk "a" "s3" ∅ ∅ "" [] ∅ []]) as Hin.
    { apply Hunion. right. split; [|apply not_elem_of_nil].
      exists input_a_git. split; [|reflexivity].
      apply elem_of_cons. left. reflexivity. }
    apply list_elem_of_singleton in Hin. discriminate.
Qed.

Lemma Complete_outputs_are_implicit_and_performed_witness :
  exists build',
    kept [input_a_v1; input_b_v7] [b_out] [0] = Returned (build', None) /\
    Outputs build'
      = [Output.mk "a" "git" {[ "uri" := "some-uri" ]} ∅ "" []
                   {[ "ref" := "v1" ]} [mkMetadataField "commit" "abc"];
         Output.mk "b" "s3" {[ "bucket" := "out" ]} {[ "file" := "b.tgz" ]}
                   "b" [OutputConditionSuccess] {[ "ref" := "v7" ]} []] /\
    let build :=
      SucceededBuild_Build
        (succeeded_with [input_a_v1; input_b_v7] [b_out]) in
    let implicit (input : Input.t) :=
      Output.mk (Input.Name input) (Input.Type_ input) (Input.Source input)
                ∅ "" [] (Input.Version input) (Input.Metadata input) in
    let last_input (name : string) :=
      last (filter (fun input => Input.Name input = name)
                   [input_a_v1; input_b_v7]) in
    build' = with_Outputs (Outputs build') build /\
    exists performed,
      length performed = 1 /\
      (forall i output,
          [b_out] !! i = Some output ->
          exists streamOut resource computedOutput,
            outputs.container_StreamOut keeping_env i "/tmp/build/src/"
              = inr streamOut /\
            outputs.tracker_Init keeping_env i (Output.Type_ output)
              (event.mkOrigin event.OriginTypeOutput (Output.Name output))
              = inr resource /\
            outputs.resource_Out keeping_env i resource streamOut
              match last_input (Output.Name output) with
              | Some input =>
                  Output.mk (Output.Name output) (Output.Type_ output)
                    (Output.Source output) (Output.Params output)
                    (Output.SourcePath output) (Output.On output)
                    (Input.Version input) (Output.Metadata output)
              | None => output
              end
              = (computedOutput, None) /\
            performed !! i = Some computedOutput) /\
      let arrived := omap (fun i => performed !! i) [0] in
      NoDup (Output.Name <$> Outputs build') /\
      (forall o,
          o ∈ Outputs build' <->
          last (filter (fun p => Output.Name p = Output.Name o) arrived)
            = Some o \/
          ((Output.Name o ∉ Output.Name <$> performed) /\
           exists input,
             last_input (Output.Name o) = Some input /\
             o = implicit input)) /\
      (NoDup (Input.Name <$> [input_a_v1; input_b_v7]) ->
       NoDup (Output.Name <$> performed) ->
       forall o,
         o ∈ Outputs build' <->
         o ∈ performed \/
         ((Output.Name o ∉ Output.Name <$> performed) /\
          exists input,
            input ∈ [input_a_v1; input_b_v7] /\ o = implicit input)).
Proof.
  eexists. split; [vm_compute; reflexivity|].
  split; [vm_compute; reflexivity|].
  apply (Complete_outputs_are_implicit_and_performed
           willing_env keeping_env
           (succeeded_with [input_a_v1; input_b_v7] [b_out]) [0] [0] fresh
           _ (snd (Complete willing_env keeping_env
                     (succeeded_with [input_a_v1; input_b_v7] [b_out])
                     [0] [0] fresh))).
  - vm_compute. reflexivity.
  - reflexivity.
  - reflexivity.
Defined.

(** C2 as stated fails.  A process that exits with status 0 leads to a
    [SucceededBuild]; [Complete] on it runs [Out] on the output whose
    [on] holds only [failure], and returns what [Out] returned. *)
Lemma Complete_performs_an_output_on_failure_after_success :
  fst (Attach willing_env
         (mkRunningBuild
            (SucceededBuild_Build (succeeded_with [] [report_on_failure]))
            "some-handle" (Some (mkContainer "some-handle")) 42
            (Some (mkProcess 42))
            (Some (mkEmitter "some-events-callback")))
         (exits_with 0) fresh)
    = Returned (succeeded_with [] [report_on_failure], None, None) /\
  selected_by_on 0 [report_on_failure] = [] /\
  fst (performOutputs outputs.stamping_env
         (Some (mkContainer "some-handle"))
         (SucceededBuild_Build (succeeded_with [] [report_on_failure]))
         [0] [0])
    = [report_on_failure] /\
  ~ performs_selected_by_on 0
      (SucceededBuild_Build (succeeded_with [] [report_on_failure]))
      (fst (performOutputs outputs.stamping_env
              (Some (mkContainer "some-handle"))
              (SucceededBuild_Build (succeeded_with [] [report_on_failure]))
              [0] [0])) /\
  outputs.resource_Out outputs.stamping_env 0 (resource.mkResource 0) "tar"
    (Output.mk "report" "s3" ∅ ∅ "" [OutputConditionFailure] ∅ [])
    = (Output.mk "report" "s3" ∅ ∅ "" [OutputConditionFailure]
                 {[ "ref" := "s3" ]} [], None) /\
  completed [] [report_on_failure] [0]
    = Returned
        (with_Outputs
           [Output.mk "report" "s3" ∅ ∅ "" [OutputConditionFailure]
                      {[ "ref" := "s3" ]} []]
           (SucceededBuild_Build (succeeded_with [] [report_on_failure])),
         None) /\
  ~ returns_selected_by_on 0
      (SucceededBuild_Build (succeeded_with [] [report_on_failure]))
      [Output.mk "report" "s3" ∅ ∅ "" [OutputConditionFailure]
                 {[ "ref" := "s3" ]} []].
Proof.
  split; [reflexivity|]. split; [reflexivity|]. split; [reflexivity|].
  split; [unfold performs_selected_by_on; vm_compute; discriminate|].
  split; [reflexivity|]. split; [vm_compute; reflexivity|].
  intros Hsel.
  destruct (Hsel _ (list_elem_of_here _ _)) as [Hin|Hin];
    vm_compute in Hin; inversion Hin.
Qed.

Lemma performOutputs_performs_every_output_witness :
  (forall i output,
      [b_out; a_git] !! i = Some output ->
      exists streamOut resource computedOutput,
        outputs.container_StreamOut keeping_env i "/tmp/build/src/"
          = inr streamOut /\
        outputs.tracker_Init keeping_env i (Output.Type_ output)
          (event.mkOrigin event.OriginTypeOutput (Output.Name output))
          = inr resource /\
        outputs.resource_Out keeping_env i resource streamOut
          match last (filter (fun input =>
                                Input.Name input = Output.Name output)
                             [input_b_v7]) with
          | Some input =>
              Output.mk (Output.Name output) (Output.Type_ output)
                (Output.Source output) (Output.Params output)
                (Output.SourcePath output) (Output.On output)
                (Input.Version input) (Output.Metadata output)
          | None => output
          end
          = (computedOutput, None)) /\
  snd (performOutputs keeping_env (Some (mkContainer "some-handle"))
         (SucceededBuild_Build
            (succeeded_with [input_b_v7] [b_out; a_git]))
         [1; 0] [0; 1])
    = Returned
        ([Output.mk "a" "git" ∅ ∅ "" [OutputConditionSuccess] ∅ [];
          Output.mk "b" "s3" {[ "bucket" := "out" ]} {[ "file" := "b.tgz" ]}
                    "b" [OutputConditionSuccess] {[ "ref" := "v7" ]} []],
         None).
Proof.
  split; [|vm_compute; reflexivity].
  apply (performOutputs_performs_every_output keeping_env
           (Some (mkContainer "some-handle"))
           (SucceededBuild_Build
              (succeeded_with [input_b_v7] [b_out; a_git]))
           [1; 0] [0; 1]
           [Output.mk "a" "git" ∅ ∅ "" [OutputConditionSuccess] ∅ [];
            Output.mk "b" "s3" {[ "bucket" := "out" ]}
                      {[ "file" := "b.tgz" ]}
                      "b" [OutputConditionSuccess] {[ "ref" := "v7" ]} []]).
  - apply perm_swap.
  - reflexivity.
  - vm_compute. reflexivity.
Defined.

(** *** Runs of [Start], [Attach] and [Complete] for the lemmas above *)

Lemma Start_returns_computed_inputs_and_merged_config_witness :
  exists new container process,
    calls (snd (Start willing_env a_and_b fresh)) = calls fresh ++ new /\
    RunningBuild_Build (fst (fst (Start willing_env a_and_b fresh)))
      = mkBuild (Guid a_and_b) (Privileged a_and_b)
          (foldl (Config_Merge willing_env) (BuildConfig a_and_b)
                 (fetched_configs new))
          (computed_inputs new) (Outputs a_and_b) (EventsCallback a_and_b) /\
    length (computed_inputs new) = length (Inputs a_and_b) /\
    RunningBuild_Container (fst (fst (Start willing_env a_and_b fresh)))
      = Some container /\
    RunningBuild_ContainerHandle (fst (fst (Start willing_env a_and_b fresh)))
      = Handle container /\
    RunningBuild_Process (fst (fst (Start willing_env a_and_b fresh)))
      = Some process /\
    RunningBuild_ProcessID (fst (fst (Start willing_env a_and_b fresh)))
      = ID process.
Proof.
  apply (Start_returns_computed_inputs_and_merged_config willing_env
           a_and_b fresh (snd (Start willing_env a_and_b fresh))
           (fst (fst (Start willing_env a_and_b fresh)))).
  vm_compute. reflexivity.
Defined.

Lemma Start_runs_what_the_merged_config_says_witness :
  exists new emitter container process spec,
    calls (snd (Start willing_env a_and_b fresh)) = calls fresh ++ new /\
    RunningBuild_Emitter (fst (fst (Start willing_env a_and_b fresh)))
      = Some emitter /\
    RunningBuild_Container (fst (fst (Start willing_env a_and_b fresh)))
      = Some container /\
    RunningBuild_Process (fst (fst (Start willing_env a_and_b fresh)))
      = Some process /\
    let cfg :=
      BuildConfig
        (RunningBuild_Build (fst (fst (Start willing_env a_and_b fresh)))) in
    ClientCreate (mkContainerSpec (Image cfg)) (inr container) ∈ new /\
    ContainerRun container spec (emitterProcessIO emitter) (inr process)
      ∈ new /\
    ProcessPath spec = Path (Run cfg) /\
    ProcessArgs spec = Args (Run cfg) /\
    Dir spec = "/tmp/build/src" /\
    ProcessPrivileged spec = Privileged a_and_b /\
    ProcessEnv spec
      ≡ₚ (fun nv => fst nv +:+ "=" +:+ snd nv)
           <$> map_to_list (ConfigParams cfg).
Proof.
  apply (Start_runs_what_the_merged_config_says willing_env
           a_and_b fresh (snd (Start willing_env a_and_b fresh))
           (fst (fst (Start willing_env a_and_b fresh)))).
  vm_compute. reflexivity.
Defined.

Lemma Attach_closes_the_emitter_iff_attaching_fails_witness :
  exists new emitter,
    calls (snd (Attach willing_env some_running aborted_while_running fresh))
      = calls fresh ++ new /\
    attach_emitter some_running new emitter /\
    closes new = option_list ((fun _ => emitter) <$> Some ErrAborted) /\
    (@None error = None \/ Some ErrAborted = None) /\
    (SucceededBuild_zero = SucceededBuild_zero \/
     (@None error = None /\ Some ErrAborted = None /\
      SucceededBuild_Emitter SucceededBuild_zero = Some emitter /\
      SucceededBuild_Build SucceededBuild_zero
        = RunningBuild_Build some_running)).
Proof.
  apply (Attach_closes_the_emitter_iff_attaching_fails willing_env
           some_running aborted_while_running fresh
           (snd (Attach willing_env some_running aborted_while_running
                   fresh))
           SucceededBuild_zero None (Some ErrAborted)).
  reflexivity.
Defined.

(** [Wait] itself fails; [abort] stays open. *)
Definition wait_fails : Race :=
  mkRace (Some (0%Z, Some (errorString "connection lost"))) false false.

Lemma Attach_returns_the_error_of_Wait_witness :
  exists emitter container process pre,
    attach_emitter some_running pre emitter /\
    attach_container some_running pre container /\
    calls (snd (Attach willing_env some_running wait_fails fresh))
      = pre ++ [ProcessWait process; EmitterClose emitter] /\
    stops (calls (snd (Attach willing_env some_running wait_fails fresh)))
      = [] /\
    emitted (calls (snd (Attach willing_env some_running wait_fails fresh)))
      = [] /\
    fst (Attach willing_env some_running wait_fails fresh)
      = Returned (SucceededBuild_zero, None,
                  Some (errorString "connection lost")).
Proof.
  apply (Attach_returns_the_error_of_Wait willing_env some_running
           wait_fails fresh _ _ _ (errorString "connection lost")
           eq_refl eq_refl).
  - exists (mkProcess 42). apply elem_of_cons. left. reflexivity.
  - reflexivity.
Defined.

(** A succeeded build that carries no emitter. *)
Definition succeeded_without_emitter : SucceededBuild :=
  mkSucceededBuild
    (mkBuild "some-guid" false remapping_b [input_a_git] [b_s3]
             "some-events-callback")
    "" (Some (mkContainer "some-handle")) None.

Lemma Complete_closes_its_emitter_once_witness :
  (exists new emitter,
      calls (snd (Complete willing_env outputs.stamping_env
                    succeeded_without_emitter [0] [0] fresh))
        = calls fresh ++ new /\
      closes new = [emitter] /\
      creates new = [("some-events-callback", emitter)] /\
      (forall cached, None = Some cached -> emitter = cached) /\
      with_Outputs
        [Output.mk "a" "git" ∅ ∅ "" [] ∅ [];
         Output.mk "b" "s3" ∅ ∅ "" [OutputConditionSuccess]
                   {[ "ref" := "s3" ]} []]
        (SucceededBuild_Build succeeded_without_emitter)
        = with_Outputs
            [Output.mk "a" "git" ∅ ∅ "" [] ∅ [];
             Output.mk "b" "s3" ∅ ∅ "" [OutputConditionSuccess]
                       {[ "ref" := "s3" ]} []]
            (SucceededBuild_Build succeeded_without_emitter)) /\
  closes (calls (snd (Complete willing_env outputs.stamping_env
                        succeeded_without_emitter [0] [0] fresh)))
    = [mkEmitter "some-events-callback"].
Proof.
  split; [|vm_compute; reflexivity].
  apply (Complete_closes_its_emitter_once willing_env outputs.stamping_env
           succeeded_without_emitter [0] [0] fresh
           (snd (Complete willing_env outputs.stamping_env
                   succeeded_without_emitter [0] [0] fresh))
           (with_Outputs
              [Output.mk "a" "git" ∅ ∅ "" [] ∅ [];
               Output.mk "b" "s3" ∅ ∅ "" [OutputConditionSuccess]
                         {[ "ref" := "s3" ]} []]
              (SucceededBuild_Build succeeded_without_emitter),
            None)).
  vm_compute. reflexivity.
Defined.

Lemma performOutputs_without_outputs_returns_the_implicit_outputs_witness :
  exists outs,
    performOutputs outputs.stamping_env None
      (SucceededBuild_Build (succeeded_with [input_a_git; input_b] []))
      [] []
      = ([], Returned (outs, None)) /\
    outs ≡ₚ (map_to_list (implicit_outputs [input_a_git; input_b])).*2 /\
    (NoDup (Input.Name <$> [input_a_git; input_b]) ->
     outs ≡ₚ implicit_output <$> [input_a_git; input_b]).
Proof.
  apply (performOutputs_without_outputs_returns_the_implicit_outputs
           outputs.stamping_env None
           (SucceededBuild_Build (succeeded_with [input_a_git; input_b] []))
           [] []).
  reflexivity.
Defined.


End builder.

(** ** The builder of the earlier model: [Build]

    The second document of [unnamed/part_000] is the builder of the
    earlier model, which takes the build declared in
    [api/builds/build.go]: it fetches one source, creates a container
    from an image, streams the source in, runs a script and forwards what
    the script prints to a websocket. *)

Module prole.

(** [api/builds/build.go] *)
Module builds.
Record BuildSource : Type := mkBuildSource {
  Type_ : string;
  URI : string;
  Branch : string;
  Ref : string;
  Path : string
}.

(** [Env] is a [[][2]string]: a list of pairs. *)
Record Build : Type := mkBuild {
  Guid : string;
  Image : string;
  Env : list (string * string);
  Script : string;
  LogsURL : string;
  Callback : string;
  Source : BuildSource;
  Status : string
}.
End builds.

(** Live handles of the websocket and of the container runtime. *)
Record Conn : Type := mkConn { conn_id : nat }.
Record Response : Type := mkResponse { response_id : nat }.
Record Container : Type := mkContainer { Handle : string }.
Record Writer : Type := mkWriter { writer_id : nat }.

Inductive MessageType : Type :=
| TextMessage
| BinaryMessage.

Record ContainerSpec : Type := mkContainerSpec { RootFSPath : string }.

Record EnvironmentVariable : Type := mkEnvironmentVariable {
  Key : string;
  Value : string
}.

Record ProcessSpec : Type := mkProcessSpec {
  ProcessScript : string;
  EnvironmentVariables : list EnvironmentVariable
}.

(** [warden.ProcessStream]: a chunk of output, or the exit status. *)
Record ProcessStream : Type := mkProcessStream {
  Data : string;
  ExitStatus : option N
}.

(** The channel [Run] returns: the chunks that arrive on it, in order,
    and whether it is closed after the last of them. *)
Record Channel : Type := mkChannel {
  arriving : list ProcessStream;
  closed : bool
}.

(** Calls leaving [Build], each with what it returned, if [Build] looks
    at that. *)
Inductive Call : Type :=
| Dial (url : string) (r : error + Conn * Response)
| ConnClose (c : Conn)
| BodyClose (resp : Response)
| Fetch (source : builds.BuildSource) (r : error + string)
| WriteMessage (c : Conn) (t : MessageType) (data : string)
| Create (spec : ContainerSpec) (r : error + Container)
| StreamIn (c : Container) (dst : string) (r : error + Writer)
| WriteTar (src : string) (w : Writer) (r : option error)
| Run (c : Container) (spec : ProcessSpec) (r : error + N * Channel).

(** How [Build] ends: the loop over the stream does not end while the
    channel is open and nothing arrives. *)
Inductive ended (A : Type) : Type :=
| Returned (a : A)
| Blocked.

Arguments Returned {A}.
Arguments Blocked {A}.

Definition newline : string := String (Ascii.ascii_of_nat 10) "".

(** What the loop over the stream finds: the exit status of the first
    chunk that carries one, and the data of the chunks before it. *)
Fixpoint first_exit (stream : list ProcessStream) : option N :=
  match stream with
  | [] => None
  | chunk :: stream =>
      match ExitStatus chunk with
      | Some status => Some status
      | None => first_exit stream
      end
  end.

Fixpoint output_before_exit (stream : list ProcessStream) : list string :=
  match stream with
  | [] => []
  | chunk :: stream =>
      match ExitStatus chunk with
      | Some _ => []
      | None => Data chunk :: output_before_exit stream
      end
  end.

(** The websocket calls of a log, and the messages it shows as written. *)
Definition is_websocket (c : Call) : bool :=
  match c with
  | Dial _ _ | ConnClose _ | BodyClose _ | WriteMessage _ _ _ => true
  | _ => false
  end.

Definition messages (log : list Call)
  : list (Conn * MessageType * string) :=
  omap (fun c => match c with
                 | WriteMessage c t data => Some (c, t, data)
                 | _ => None
                 end) log.

Section Build.
Context {W : Type}.

(** The collaborators of the [builder]: the websocket dialer and the
    connection, the source fetcher, the container runtime and
    [compressor.WriteTar]. *)
Record Env : Type := mkEnv {
  dialer_Dial : string -> W -> (error + Conn * Response) * W;
  conn_Close : Conn -> W -> W;
  body_Close : Response -> W -> W;
  conn_WriteMessage : Conn -> MessageType -> string -> W -> W;
  sourceFetcher_Fetch : builds.BuildSource -> W -> (error + string) * W;
  wardenClient_Create : ContainerSpec -> W -> (error + Container) * W;
  container_StreamIn : Container -> string -> W -> (error + Writer) * W;
  compressor_WriteTar : string -> Writer -> W -> option error * W;
  container_Run :
    Container -> ProcessSpec -> W -> (error + N * Channel) * W
}.

Record State : Type := mkState {
  world : W;
  calls : list Call
}.

Definition perform {A} (oracle : W -> A * W) (log : A -> Call)
  : M State A :=
  fun st =>
    let r := oracle (world st) in
    (fst r, mkState (snd r) (calls st ++ [log (fst r)])).

Definition tell (effect : W -> W) (log : Call) : M State unit :=
  fun st => (tt, mkState (effect (world st)) (calls st ++ [log])).

Variable E : Env.

(** [if logsEndpoint != nil { logsEndpoint.WriteMessage(t, data) }] *)
Definition write (logsEndpoint : option Conn) (t : MessageType)
    (data : string) : M State unit :=
  match logsEndpoint with
  | Some c => tell (conn_WriteMessage E c t data) (WriteMessage c t data)
  | None => ret tt
  end.

(** [for chunk := range stream], over the chunks that arrive. *)
Fixpoint forward (logsEndpoint : option Conn)
    (stream : list ProcessStream) (closed : bool)
  : M State (ended bool) :=
  match stream with
  | [] => ret (if closed then Returned false else Blocked)
  | chunk :: stream =>
      match ExitStatus chunk with
      | Some status => ret (Returned (N.eqb status 0))
      | None =>
          do write logsEndpoint BinaryMessage (Data chunk) then
          forward logsEndpoint stream closed
      end
  end.

(** [Build] after the dial. *)
Definition build_with (logsEndpoint : option Conn) (build : builds.Build)
  : M State (ended (bool * option error)) :=
  let* r :=
    perform (sourceFetcher_Fetch E (builds.Source build))
            (Fetch (builds.Source build)) in
  match r with
  | inl err => ret (Returned (false, Some err))
  | inr fetchedSource =>
      do write logsEndpoint TextMessage
           ("creating container from " +:+ builds.Image build +:+ "..."
              +:+ newline) then
      let spec := mkContainerSpec ("image:" +:+ builds.Image build) in
      let* r := perform (wardenClient_Create E spec) (Create spec) in
      match r with
      | inl err => ret (Returned (false, Some err))
      | inr container =>
          let* r :=
            perform
              (container_StreamIn E container
                 (builds.Path (builds.Source build)))
              (StreamIn container (builds.Path (builds.Source build))) in
          match r with
          | inl err => ret (Returned (false, Some err))
          | inr streamIn =>
              let* err :=
                perform
                  (compressor_WriteTar E (fetchedSource +:+ "/") streamIn)
                  (WriteTar (fetchedSource +:+ "/") streamIn) in
              match err with
              | Some err => ret (Returned (false, Some err))
              | None =>
                  do write logsEndpoint TextMessage
                       ("starting..." +:+ newline) then
                  let env :=
                    (fun e => mkEnvironmentVariable (fst e) (snd e))
                      <$> builds.Env build in
                  let spec := mkProcessSpec (builds.Script build) env in
                  let* r :=
                    perform (container_Run E container spec)
                            (Run container spec) in
                  match r with
                  | inl err => ret (Returned (false, Some err))
                  | inr (_, stream) =>
                      let* r :=
                        forward logsEndpoint (arriving stream)
                                (closed stream) in
                      match r with
                      | Returned succeeded =>
                          ret (Returned (succeeded, None))
                      | Blocked => ret Blocked
                      end
                  end
              end
          end
      end
  end.

(** [Build]: the dial when there is a logs URL, the build, and on return
    the deferred closes, the one deferred last first. *)
Definition Build (build : builds.Build)
  : M State (ended (bool * option error)) :=
  if decide (builds.LogsURL build = "") then build_with None build
  else
    let* r :=
      perform (dialer_Dial E (builds.LogsURL build))
              (Dial (builds.LogsURL build)) in
    match r with
    | inl err => ret (Returned (false, Some err))
    | inr (conn, resp) =>
        let* r := build_with (Some conn) build in
        match r with
        | Returned res =>
            do tell (body_Close E resp) (BodyClose resp) then
            do tell (conn_Close E conn) (ConnClose conn) then
            ret (Returned res)
        | Blocked => ret Blocked
        end
    end.

(** *** What [Build] writes to the websocket and what it returns *)

Lemma messages_app l1 l2 : messages (l1 ++ l2) = messages l1 ++ messages l2.
Proof. apply omap_app. Qed.

Lemma messages_binary c (l : list string) :
  messages (WriteMessage c BinaryMessage <$> l)
    = (fun data => (c, BinaryMessage, data)) <$> l.
Proof. induction l as [|d l IH]; [reflexivity|]. cbn. f_equal. exact IH. Qed.

(** Of the websocket, the build after the dial only writes, and only to
    the connection it was given. *)
Definition writes_to (logsEndpoint : option Conn) (c : Call) : Prop :=
  match c with
  | Dial _ _ | ConnClose _ | BodyClose _ => False
  | WriteMessage c _ _ => logsEndpoint = Some c
  | _ => True
  end.

(** The messages of a build that came to run the script. *)
Definition build_messages (logsEndpoint : option Conn)
    (build : builds.Build) (stream : list ProcessStream)
  : list (Conn * MessageType * string) :=
  match logsEndpoint with
  | None => []
  | Some c =>
      (c, TextMessage,
       "creating container from " +:+ builds.Image build +:+ "..."
         +:+ newline)
      :: (c, TextMessage, "starting..." +:+ newline)
      :: ((fun data => (c, BinaryMessage, data))
            <$> output_before_exit stream)
  end.

Lemma forward_spec logsEndpoint stream closed : forall st,
  fst (forward logsEndpoint stream closed st)
    = match first_exit stream with
      | Some status => Returned (N.eqb status 0)
      | None => if closed then Returned false else Blocked
      end /\
  calls (snd (forward logsEndpoint stream closed st))
    = calls st
        ++ match logsEndpoint with
           | Some c =>
               WriteMessage c BinaryMessage <$> output_before_exit stream
           | None => []
           end.
Proof.
  induction stream as [|chunk stream IH]; intros st; cbn.
  - destruct logsEndpoint; cbn; rewrite app_nil_r; auto.
  - destruct (ExitStatus chunk) as [status|]; cbn.
    + destruct logsEndpoint; cbn; rewrite app_nil_r; auto.
    + cbv beta iota zeta delta [bind write tell ret].
      destruct logsEndpoint as [c|]; cbn [fst snd].
      * match goal with |- context [forward (Some c) stream closed ?s1] =>
          destruct (IH s1) as [Hr Hc] end.
        rewrite Hr, Hc. cbn. rewrite <- app_assoc. auto.
      * apply IH.
Qed.

(** A log shows that the source of [build] was fetched, that a container
    was created from its image, that the fetched source was streamed in
    at the path of the source, and that the script of [build] was run in
    that container with the environment of [build]. *)
Definition set_up_and_run (build : builds.Build) (fetchedSource : string)
    (container : Container) (streamIn : Writer) (pid : N)
    (stream : Channel) (log : list Call) : Prop :=
  Fetch (builds.Source build) (inr fetchedSource) ∈ log /\
  Create (mkContainerSpec ("image:" +:+ builds.Image build))
         (inr container) ∈ log /\
  StreamIn container (builds.Path (builds.Source build)) (inr streamIn)
    ∈ log /\
  WriteTar (fetchedSource +:+ "/") streamIn None ∈ log /\
  Run container
      (mkProcessSpec (builds.Script build)
         ((fun e => mkEnvironmentVariable (fst e) (snd e))
            <$> builds.Env build))
      (inr (pid, stream)) ∈ log.

Lemma set_up_and_run_more build fetchedSource container streamIn pid stream
    pre log post :
  set_up_and_run build fetchedSource container streamIn pid stream log ->
  set_up_and_run build fetchedSource container streamIn pid stream
    (pre ++ log ++ post).
Proof.
  unfold set_up_and_run. rewrite !elem_of_app. tauto.
Qed.

Lemma build_with_log logsEndpoint build st :
  exists new,
    calls (snd (build_with logsEndpoint build st)) = calls st ++ new /\
    Forall (writes_to logsEndpoint) new /\
    match fst (build_with logsEndpoint build st) with
    | Returned (succeeded, None) =>
        exists fetchedSource container streamIn pid stream,
          set_up_and_run build fetchedSource container streamIn pid stream
            new /\
          first_exit (arriving stream)
            = (if succeeded then Some 0%N else first_exit (arriving stream))
          /\
          (succeeded = false ->
           first_exit (arriving stream) <> Some 0%N /\
           (first_exit (arriving stream) = None -> closed stream = true)) /\
          messages new
            = build_messages logsEndpoint build (arriving stream)
    | Returned (succeeded, Some err) => succeeded = false
    | Blocked => True
    end.
Proof.
  unfold build_with.
  cbv beta iota zeta delta [bind perform ret]; cbn [fst snd].
  destruct (sourceFetcher_Fetch E (builds.Source build) (world st))
    as [[err|fetchedSource] w1]; cbn [fst snd world calls].
  { eexists [_]. split; [reflexivity|]. split; [|reflexivity].
    repeat constructor. }
  set (st1 := write logsEndpoint TextMessage _ _).
  assert (exists m1,
             calls (snd st1) = (calls st ++ [Fetch (builds.Source build)
                                               (inr fetchedSource)]) ++ m1 /\
             Forall (writes_to logsEndpoint) m1 /\
             messages m1
               = match logsEndpoint with
                 | Some c =>
                     [(c, TextMessage,
                       "creating container from " +:+ builds.Image build
                         +:+ "..." +:+ newline)]
                 | None => []
                 end) as (m1 & Hc1 & Hw1 & Hm1).
  { unfold st1, write, tell, ret. destruct logsEndpoint as [c|]; cbn.
    - eexists [_]. repeat split. repeat constructor.
    - exists []. rewrite app_nil_r. repeat split. constructor. }
  destruct (wardenClient_Create E _ (world (snd st1)))
    as [[err|container] w2]; cbn [fst snd world calls].
  { exists (Fetch (builds.Source build) (inr fetchedSource) :: m1 ++ [
              Create (mkContainerSpec ("image:" +:+ builds.Image build))
                     (inl err)]).
    split; [rewrite Hc1, <- !app_assoc; reflexivity|].
    split; [|reflexivity].
    constructor; [exact I|]. apply Forall_app. split; [exact Hw1|].
    repeat constructor. }
  destruct (container_StreamIn E container _ w2)
    as [[err|streamIn] w3]; cbn [fst snd world calls].
  { exists (Fetch (builds.Source build) (inr fetchedSource) :: m1 ++ [
              Create (mkContainerSpec ("image:" +:+ builds.Image build))
                     (inr container);
              StreamIn container (builds.Path (builds.Source build))
                       (inl err)]).
    split; [rewrite Hc1, <- !app_assoc; reflexivity|].
    split; [|reflexivity].
    constructor; [exact I|]. apply Forall_app. split; [exact Hw1|].
    repeat constructor. }
  destruct (compressor_WriteTar E _ streamIn w3)
    as [[err|] w4]; cbn [fst snd world calls].
  { exists (Fetch (builds.Source build) (inr fetchedSource) :: m1 ++ [
              Create (mkContainerSpec ("image:" +:+ builds.Image build))
                     (inr container);
              StreamIn container (builds.Path (builds.Source build))
                       (inr streamIn);
              WriteTar (fetchedSource +:+ "/") streamIn (Some err)]).
    split; [rewrite Hc1, <- !app_assoc; reflexivity|].
    split; [|reflexivity].
    constructor; [exact I|]. apply Forall_app. split; [exact Hw1|].
    repeat constructor. }
  match goal with |- context [write logsEndpoint TextMessage ?d ?s4] =>
    set (st5 := write logsEndpoint TextMessage d s4);
    assert (exists m2,
               calls (snd st5) = calls s4 ++ m2 /\
               Forall (writes_to logsEndpoint) m2 /\
               messages m2
                 = match logsEndpoint with
                   | Some c => [(c, TextMessage, d)]
                   | None => []
                   end) as (m2 & Hc2 & Hw2 & Hm2)
  end.
  { unfold st5, write, tell, ret. destruct logsEndpoint as [c|]; cbn.
    - eexists [_]. repeat split. repeat constructor.
    - exists []. rewrite app_nil_r. repeat split. constructor. }
  cbn [calls] in Hc2.
  destruct (container_Run E container _ (world (snd st5)))
    as [[err|[pid stream]] w6]; cbn [fst snd world calls].
  { eexists (Fetch (builds.Source build) (inr fetchedSource) :: m1 ++ [
              Create (mkContainerSpec ("image:" +:+ builds.Image build))
                     (inr container);
              StreamIn container (builds.Path (builds.Source build))
                       (inr streamIn);
              WriteTar (fetchedSource +:+ "/") streamIn None] ++ m2 ++ [
              Run container _ (inl err)]).
    split; [rewrite Hc2, Hc1, <- !app_assoc; reflexivity|].
    split; [|reflexivity].
    constructor; [exact I|]. apply Forall_app. split; [exact Hw1|].
    repeat (constructor; [exact I|]). apply Forall_app.
    split; [exact Hw2|]. repeat constructor. }
  match goal with |- context [forward logsEndpoint ?s ?c ?s6] =>
    destruct (forward_spec logsEndpoint s c s6) as [Hr Hc3];
    destruct (forward logsEndpoint s c s6) as [r st7]
  end.
  cbn [fst snd calls] in Hr, Hc3.
  eexists (Fetch (builds.Source build) (inr fetchedSource) :: m1 ++ [
            Create (mkContainerSpec ("image:" +:+ builds.Image build))
                   (inr container);
            StreamIn container (builds.Path (builds.Source build))
                     (inr streamIn);
            WriteTar (fetchedSource +:+ "/") streamIn None] ++ m2 ++ [
            Run container _ (inr (pid, stream))] ++ _).
  split; [|split].
  - destruct r; cbn [fst snd calls];
      rewrite Hc3, Hc2, Hc1, <- !app_assoc; reflexivity.
  - constructor; [exact I|]. apply Forall_app. split; [exact Hw1|].
    repeat (constructor; [exact I|]). apply Forall_app.
    split; [exact Hw2|]. constructor; [exact I|].
    destruct logsEndpoint as [c|]; [|constructor].
    apply Forall_fmap, Forall_forall. intros data _. reflexivity.
  - destruct r as [succeeded|]; cbn [fst]; [|exact I].
    exists fetchedSource, container, streamIn, pid, stream.
    split; [|split; [|split]].
    + unfold set_up_and_run.
      rewrite !elem_of_cons, !elem_of_app, !elem_of_cons. auto 20.
    + destruct (first_exit (arriving stream)) as [status|].
      * injection Hr as ->. destruct (N.eqb_spec status 0); congruence.
      * destruct (closed stream); [|discriminate]. injection Hr as ->.
        reflexivity.
    + intros ->. destruct (first_exit (arriving stream)) as [status|].
      * injection Hr as Hr. split; [|discriminate].
        intros [= ->]. discriminate.
      * split; [discriminate|]. intros _.
        destruct (closed stream); [reflexivity|discriminate].
    + change (Fetch (builds.Source build) (inr fetchedSource) :: ?l)
        with ([Fetch (builds.Source build) (inr fetchedSource)] ++ l).
      rewrite !messages_app, Hm1, Hm2.
      destruct logsEndpoint as [c|]; cbn; [|reflexivity].
      rewrite messages_binary. reflexivity.
Qed.

Lemma writes_to_None_no_websocket (log : list Call) :
  Forall (writes_to None) log ->
  Forall (fun c => is_websocket c = false) log /\ messages log = [].
Proof.
  induction 1 as [|c log Hc _ [IH1 IH2]]; [split; [constructor|reflexivity]|].
  destruct c; cbn in Hc; try contradiction; try discriminate;
    (split; [constructor; [reflexivity|exact IH1]|exact IH2]).
Qed.

(** X27: [Build] touches the websocket only when the build has a logs
    URL: without one it dials nothing, writes nothing and closes
    nothing; with one, the dial of that URL is its first call, before
    the source is fetched. *)
Theorem Build_uses_the_websocket_only_with_a_logs_URL
    (build : builds.Build) (st : State) :
  exists new,
    calls (snd (Build build st)) = calls st ++ new /\
    (builds.LogsURL build = "" ->
     Forall (fun c => is_websocket c = false) new) /\
    (builds.LogsURL build <> "" ->
     exists r, head new = Some (Dial (builds.LogsURL build) r)).
Proof.
  unfold Build. destruct (decide (builds.LogsURL build = "")) as [Hurl|Hurl].
  - destruct (build_with_log None build st) as (new & Hc & Hw & _).
    exists new. split; [exact Hc|]. split; [|contradiction].
    intros _. apply writes_to_None_no_websocket. exact Hw.
  - cbv beta iota zeta delta [bind perform ret tell]; cbn [fst snd].
    destruct (dialer_Dial E (builds.LogsURL build) (world st))
      as [[err|[conn resp]] w1]; cbn [fst snd world calls].
    + eexists [_]. split; [reflexivity|]. split; [contradiction|].
      intros _. eexists. reflexivity.
    + match goal with |- context [build_with (Some conn) build ?s1] =>
        destruct (build_with_log (Some conn) build s1) as (new & Hc & _);
        destruct (build_with (Some conn) build s1) as [[res|] st2]
      end; cbn [fst snd world calls] in *.
      * eexists (_ :: new ++ [_; _]).
        split; [rewrite Hc, <- !app_assoc; reflexivity|].
        split; [contradiction|]. intros _. eexists. reflexivity.
      * eexists (_ :: new).
        split; [rewrite Hc, <- !app_assoc; reflexivity|].
        split; [contradiction|]. intros _. eexists. reflexivity.
Qed.

(** X28: a [Build] that returns a nil error has fetched the source of
    the build, created a container from the image of the build, streamed
    the fetched source in at the path of the source, and run the script
    of the build in that container, with the environment of the build.
    It reports success exactly when the first exit status that arrived
    on the stream of that process is 0; when the stream was closed
    without an exit status it reports failure.  To the websocket, if
    there is one, it has written the two progress lines as text and
    then, as binary messages and in their order, the chunks of output
    that arrived before the exit status, and nothing that arrived
    after. *)
Theorem Build_succeeds_iff_the_script_exits_with_zero
    (build : builds.Build) (st st' : State) (succeeded : bool) :
  Build build st = (Returned (succeeded, None), st') ->
  exists new logsEndpoint fetchedSource container streamIn pid stream,
    calls st' = calls st ++ new /\
    (Fetch (builds.Source build) (inr fetchedSource) ∈ new /\
     Create (mkContainerSpec ("image:" +:+ builds.Image build))
            (inr container) ∈ new /\
     StreamIn container (builds.Path (builds.Source build)) (inr streamIn)
       ∈ new /\
     WriteTar (fetchedSource +:+ "/") streamIn None ∈ new /\
     Run container
         (mkProcessSpec (builds.Script build)
            ((fun e => mkEnvironmentVariable (fst e) (snd e))
               <$> builds.Env build))
         (inr (pid, stream)) ∈ new) /\
    (succeeded = true <-> first_exit (arriving stream) = Some 0%N) /\
    (first_exit (arriving stream) = None -> closed stream = true) /\
    (builds.LogsURL build = "" -> logsEndpoint = None) /\
    (builds.LogsURL build <> "" ->
     exists conn resp,
       logsEndpoint = Some conn /\
       head new = Some (Dial (builds.LogsURL build) (inr (conn, resp)))) /\
    messages new
      = match logsEndpoint with
        | None => []
        | Some c =>
            (c, TextMessage,
             "creating container from " +:+ builds.Image build +:+ "..."
               +:+ newline)
            :: (c, TextMessage, "starting..." +:+ newline)
            :: ((fun data => (c, BinaryMessage, data))
                  <$> output_before_exit (arriving stream))
        end.
Proof.
  assert (forall (stream : Channel) (succeeded : bool),
             first_exit (arriving stream)
               = (if succeeded then Some 0%N
                  else first_exit (arriving stream)) ->
             (succeeded = false ->
              first_exit (arriving stream) <> Some 0%N /\
              (first_exit (arriving stream) = None ->
               closed stream = true)) ->
             (succeeded = true <->
              first_exit (arriving stream) = Some 0%N) /\
             (first_exit (arriving stream) = None -> closed stream = true))
    as Hres.
  { intros stream s Hs Hf. split.
    - destruct s; [tauto|]. destruct (Hf eq_refl) as [Hne _].
      split; [discriminate|contradiction].
    - destruct s; [rewrite Hs; discriminate|]. apply Hf. reflexivity. }
  unfold Build. destruct (decide (builds.LogsURL build = "")) as [Hurl|Hurl].
  - destruct (build_with_log None build st) as (new & Hc & _ & Hok).
    intros Hrun. rewrite Hrun in Hc, Hok. cbn [fst snd] in Hc, Hok.
    destruct Hok as (fetchedSource & container & streamIn & pid & stream
                     & Hrun' & Hs & Hf & Hm).
    destruct (Hres stream succeeded Hs Hf) as [Hiff Hcl].
    exists new, None, fetchedSource, container, streamIn, pid, stream.
    split; [exact Hc|]. split; [exact Hrun'|].
    split; [exact Hiff|]. split; [exact Hcl|].
    split; [reflexivity|]. split; [contradiction|exact Hm].
  - cbv beta iota zeta delta [bind perform ret tell]; cbn [fst snd].
    destruct (dialer_Dial E (builds.LogsURL build) (world st))
      as [[err|[conn resp]] w1]; cbn [fst snd world calls];
      [discriminate|].
    match goal with |- context [build_with (Some conn) build ?s1] =>
      destruct (build_with_log (Some conn) build s1)
        as (new & Hc & Hw & Hok);
      destruct (build_with (Some conn) build s1) as [[res|] st2]
    end; cbn [fst snd world calls] in *; [|discriminate].
    intros [= -> <-]. cbn [calls].
    destruct Hok as (fetchedSource & container & streamIn & pid & stream
                     & Hrun' & Hs & Hf & Hm).
    destruct (Hres stream succeeded Hs Hf) as [Hiff Hcl].
    exists ([Dial (builds.LogsURL build) (inr (conn, resp))] ++ new
              ++ [BodyClose resp; ConnClose conn]),
      (Some conn), fetchedSource, container, streamIn, pid, stream.
    split; [rewrite Hc, <- !app_assoc; reflexivity|].
    split; [apply set_up_and_run_more; exact Hrun'|].
    split; [exact Hiff|]. split; [exact Hcl|].
    split; [contradiction|]. split; [intros _; eauto|].
    rewrite !messages_app, Hm. cbn. rewrite app_nil_r. reflexivity.
Qed.

(** X29: whenever [Build] returns after a dial that succeeded, with or
    without an error, its last two calls close what the dial returned:
    the body of the response and then the connection; between the dial
    and these it only writes to that connection.  When the dial fails,
    [Build] returns that error at once.  With any error it reports
    failure. *)
Theorem Build_closes_what_it_dialled
    (build : builds.Build) (st st' : State) (res : bool * option error) :
  Build build st = (Returned res, st') ->
  exists new,
    calls st' = calls st ++ new /\
    (snd res <> None -> fst res = false) /\
    match head new with
    | Some (Dial url (inr (conn, resp))) =>
        exists body,
          new = Dial url (inr (conn, resp)) :: body
                  ++ [BodyClose resp; ConnClose conn] /\
          Forall (writes_to (Some conn)) body
    | Some (Dial url (inl err)) =>
        new = [Dial url (inl err)] /\ res = (false, Some err)
    | _ => Forall (writes_to None) new
    end.
Proof.
  unfold Build. destruct (decide (builds.LogsURL build = "")) as [Hurl|Hurl].
  - destruct (build_with_log None build st) as (new & Hc & Hw & Hok).
    intros Hrun. rewrite Hrun in Hc, Hok. cbn [fst snd] in Hc, Hok.
    exists new. split; [exact Hc|]. split.
    + destruct res as [succeeded [err|]]; cbn; [auto|congruence].
    + destruct new as [|c new]; [constructor|]. cbn [head].
      pose proof (Forall_inv Hw) as Hc0.
      destruct c; cbn in Hc0; try contradiction; exact Hw.
  - cbv beta iota zeta delta [bind perform ret tell]; cbn [fst snd].
    destruct (dialer_Dial E (builds.LogsURL build) (world st))
      as [[err|[conn resp]] w1]; cbn [fst snd world calls].
    + intros [= <- <-]. eexists [_]. cbn. auto.
    + match goal with |- context [build_with (Some conn) build ?s1] =>
        destruct (build_with_log (Some conn) build s1)
          as (new & Hc & Hw & Hok);
        destruct (build_with (Some conn) build s1) as [[res'|] st2]
      end; cbn [fst snd world calls] in *; [|discriminate].
      intros [= -> <-]. cbn [calls].
      exists (Dial (builds.LogsURL build) (inr (conn, resp)) :: new
                ++ [BodyClose resp; ConnClose conn]).
      split; [rewrite Hc, <- !app_assoc; reflexivity|]. split.
      * destruct res as [succeeded [err|]]; cbn; [auto|congruence].
      * cbn [head]. exists new. auto.
Qed.

End Build.

Arguments Env : clear implicits.
Arguments State : clear implicits.

(** *** A build whose script prints two chunks and exits with 0 *)

Definition some_stream : Channel :=
  mkChannel
    [mkProcessStream "one" None; mkProcessStream "two" None;
     mkProcessStream "" (Some 0%N); mkProcessStream "late" None]
    true.

Definition accepting_env : Env unit :=
  @mkEnv unit
    (fun _ w => (inr (mkConn 1, mkResponse 1), w))
    (fun _ w => w)
    (fun _ w => w)
    (fun _ _ _ w => w)
    (fun _ w => (inr "/tmp/fetched", w))
    (fun _ w => (inr (mkContainer "some-handle"), w))
    (fun _ _ w => (inr (mkWriter 0), w))
    (fun _ _ w => (None, w))
    (fun _ _ w => (inr (7%N, some_stream), w)).

Definition logged_build : builds.Build :=
  builds.mkBuild "some-guid" "ubuntu" [("FOO", "bar")] "./bin/test"
    "ws://logs" ""
    (builds.mkBuildSource "git" "some-uri" "master" "some-ref" "some/path")
    "".

Definition fresh : State unit := @mkState unit tt [].

Lemma Build_succeeds_iff_the_script_exits_with_zero_witness :
  exists new logsEndpoint fetchedSource container streamIn pid stream,
    calls (snd (Build accepting_env logged_build fresh))
      = calls fresh ++ new /\
    (Fetch (builds.Source logged_build) (inr fetchedSource) ∈ new /\
     Create (mkContainerSpec "image:ubuntu") (inr container) ∈ new /\
     StreamIn container "some/path" (inr streamIn) ∈ new /\
     WriteTar (fetchedSource +:+ "/") streamIn None ∈ new /\
     Run container
         (mkProcessSpec "./bin/test" [mkEnvironmentVariable "FOO" "bar"])
         (inr (pid, stream)) ∈ new) /\
    (true = true <-> first_exit (arriving stream) = Some 0%N) /\
    (first_exit (arriving stream) = None -> closed stream = true) /\
    (builds.LogsURL logged_build = "" -> logsEndpoint = None) /\
    (builds.LogsURL logged_build <> "" ->
     exists conn resp,
       logsEndpoint = Some conn /\
       head new
         = Some (Dial (builds.LogsURL logged_build) (inr (conn, resp)))) /\
    messages new
      = match logsEndpoint with
        | None => []
        | Some c =>
            (c, TextMessage,
             "creating container from " +:+ builds.Image logged_build
               +:+ "..." +:+ newline)
            :: (c, TextMessage, "starting..." +:+ newline)
            :: ((fun data => (c, BinaryMessage, data))
                  <$> output_before_exit (arriving stream))
        end.
Proof.
  apply (Build_succeeds_iff_the_script_exits_with_zero accepting_env
           logged_build fresh
           (snd (Build accepting_env logged_build fresh)) true).
  reflexivity.
Defined.

Lemma Build_closes_what_it_dialled_witness :
  exists new,
    calls (snd (Build accepting_env logged_build fresh))
      = calls fresh ++ new /\
    (@None error <> None -> true = false) /\
    match head new with
    | Some (Dial url (inr (conn, resp))) =>
        exists body,
          new = Dial url (inr (conn, resp)) :: body
                  ++ [BodyClose resp; ConnClose conn] /\
          Forall (writes_to (Some conn)) body
    | Some (Dial url (inl err)) =>
        new = [Dial url (inl err)] /\ (true, @None error) = (false, Some err)
    | _ => Forall (writes_to None) new
    end.
Proof.
  apply (Build_closes_what_it_dialled accepting_env logged_build fresh
           (snd (Build accepting_env logged_build fresh)) (true, None)).
  reflexivity.
Defined.

End prole.
